(** * The AIML pattern engine of beastmode (aiml-actions/engine/aiml_engine.py)

    A shallow embedding of [AIMLEngine]: the normalizer, the wildcard
    pattern matcher, the template interpreter and the [respond] facade,
    followed by the properties of the specification that concern them.

    Text.  A Python [str] is a [string] of 7-bit characters; the character
    classes below ([isspace], [\w], case mapping) are Python's on the code
    points 0..127.  Python integers are [Z].

    State.  [respond] and [_process_element] mutate the engine instance
    and one shared [ActionResult]; here both are passed along explicitly,
    together with the numbers the [random] module is going to draw.

    Exceptions.  An evaluation ends with a value or with the exception
    that leaves it ([Outcome]).  [respond] calls itself through [srai]
    without a bound of its own, so the embedding carries the bound the
    interpreter has: the number of nested calls that fit on its stack.

    Libraries.  The functions the engine calls but does not define -- the
    XML parser [ET.fromstring], [json.loads] and the built-in [eval] --
    are parameters of the interpreter, total functions that return a value
    or report an error: the error the engine catches, and for [json.loads]
    also the two it raises besides.  [re.match] is modelled for the one
    family of expressions [_pattern_match] builds. *)

From Stdlib Require Import List String Ascii Bool Arith ZArith Lia.
Import ListNotations.
Open Scope list_scope.
Open Scope string_scope.

Set Implicit Arguments.
Set Warnings "-register-all".

(* ------------------------------------------------------------------ *)
(** ** Python built-ins on text *)

Module Py.

Definition chars := list ascii.

Definition ord (c : ascii) : nat := nat_of_ascii c.
Definition chr (n : nat) : ascii := ascii_of_nat n.

Definition between (lo hi n : nat) : bool := ((lo <=? n) && (n <=? hi))%nat.

(** [str.isspace] on one character: TAB..CR, FS..US and SPACE. *)
Definition isspace (c : ascii) : bool :=
  between 9 13 (ord c) || between 28 32 (ord c).

Definition isupper (c : ascii) : bool := between 65 90 (ord c).
Definition islower (c : ascii) : bool := between 97 122 (ord c).
Definition isdigit (c : ascii) : bool := between 48 57 (ord c).
Definition iscased (c : ascii) : bool := isupper c || islower c.

(** The class [\w] of [re]: alphanumeric or underscore. *)
Definition isword (c : ascii) : bool :=
  iscased c || isdigit c || (ord c =? 95)%nat.

Definition upper_char (c : ascii) : ascii :=
  if islower c then chr (ord c - 32) else c.
Definition lower_char (c : ascii) : ascii :=
  if isupper c then chr (ord c + 32) else c.

Definition of_str : string -> chars := list_ascii_of_string.
Definition to_str : chars -> string := string_of_list_ascii.

Definition upper (s : string) : string := to_str (map upper_char (of_str s)).
Definition lower (s : string) : string := to_str (map lower_char (of_str s)).

(** [str.title]: a cased character is upper-cased when the character
    before it is not cased, lower-cased otherwise. *)
Fixpoint title_chars (prev_cased : bool) (s : chars) : chars :=
  match s with
  | [] => []
  | c :: s' =>
      if iscased c
      then (if prev_cased then lower_char c else upper_char c)
             :: title_chars true s'
      else c :: title_chars false s'
  end.
Definition title (s : string) : string := to_str (title_chars false (of_str s)).

(** [str.strip()] *)
Fixpoint drop_while (p : ascii -> bool) (s : chars) : chars :=
  match s with
  | c :: s' => if p c then drop_while p s' else s
  | [] => []
  end.
Definition strip_by (p : ascii -> bool) (s : chars) : chars :=
  rev (drop_while p (rev (drop_while p s))).
Definition strip_chars (s : chars) : chars := strip_by isspace s.
Definition strip (s : string) : string := to_str (strip_chars (of_str s)).

(** [str.split()] with no separator: the maximal runs of characters that
    are not white space.  [word] is the run being read, reversed. *)
Fixpoint split_chars (word : chars) (s : chars) : list chars :=
  match s with
  | [] => match word with [] => [] | _ => [rev word] end
  | c :: s' =>
      if isspace c
      then match word with
           | [] => split_chars [] s'
           | _ => rev word :: split_chars [] s'
           end
      else split_chars (c :: word) s'
  end.
Definition split (s : string) : list string :=
  map to_str (split_chars [] (of_str s)).

(** [sep.join(parts)] *)
Fixpoint join (sep : string) (parts : list string) : string :=
  match parts with
  | [] => ""
  | [p] => p
  | p :: rest => p ++ sep ++ join sep rest
  end.

(** [str.split(sep)] for a one-character separator: every field is kept. *)
Fixpoint split_on_chars (sep : ascii) (field : chars) (s : chars) : list chars :=
  match s with
  | [] => [rev field]
  | c :: s' =>
      if Ascii.eqb c sep
      then rev field :: split_on_chars sep [] s'
      else split_on_chars sep (c :: field) s'
  end.
Definition split_on (sep : ascii) (s : string) : list string :=
  map to_str (split_on_chars sep [] (of_str s)).

(** [str.replace(old, new)] for a non-empty [old]: occurrences are
    replaced left to right and do not overlap. *)
Fixpoint strip_prefix (p s : chars) : option chars :=
  match p, s with
  | [], _ => Some s
  | a :: p', b :: s' => if Ascii.eqb a b then strip_prefix p' s' else None
  | _ :: _, [] => None
  end.

Fixpoint replace_chars (skip : nat) (old new : chars) (s : chars) : chars :=
  match s with
  | [] => []
  | c :: s' =>
      match skip with
      | S k => replace_chars k old new s'
      | O =>
          match strip_prefix old s with
          | Some _ => (new ++ replace_chars (List.length old - 1) old new s')%list
          | None => c :: replace_chars 0 old new s'
          end
      end
  end.
Definition replace (s old new : string) : string :=
  match old with
  | EmptyString => s
  | _ => to_str (replace_chars 0 (of_str old) (of_str new) (of_str s))
  end.

(** [str(n)] for a natural number. *)
Definition digit_char (d : nat) : ascii := chr (48 + d).
Fixpoint decimal_fuel (fuel n : nat) (acc : chars) : chars :=
  match fuel with
  | O => acc
  | S f =>
      let acc' := digit_char (n mod 10) :: acc in
      if (n / 10 =? 0)%nat then acc' else decimal_fuel f (n / 10) acc'
  end.
Definition str_of_nat (n : nat) : string := to_str (decimal_fuel (S n) n []).

(** [int(text)]: surrounding white space is dropped, one sign is allowed,
    the digits may be separated by single underscores.  [None] stands
    for [ValueError].  The white space of [int] is that of C (TAB..CR and
    SPACE); CPython refuses more than 4300 digits. *)
Definition isspace_c (c : ascii) : bool :=
  between 9 13 (ord c) || (ord c =? 32)%nat.

Fixpoint digits_value (acc : Z) (count : nat) (after_digit : bool) (s : chars)
  : option (Z * nat) :=
  match s with
  | [] => if after_digit then Some (acc, count) else None
  | c :: s' =>
      if isdigit c
      then digits_value (acc * 10 + Z.of_nat (ord c - 48)) (S count) true s'
      else if (ord c =? 95)%nat && after_digit
           then match s' with
                | d :: _ => if isdigit d then digits_value acc count false s' else None
                | [] => None
                end
           else None
  end.

Definition int_max_str_digits : nat := 4300.

Definition unsigned_int (s : chars) : option Z :=
  match digits_value 0 0 false s with
  | Some (v, count) => if (count <=? int_max_str_digits)%nat then Some v else None
  | None => None
  end.

Definition int (text : string) : option Z :=
  match strip_by isspace_c (of_str text) with
  | [] => None
  | c :: s' =>
      if (ord c =? 45)%nat then option_map Z.opp (unsigned_int s')
      else if (ord c =? 43)%nat then unsigned_int s'
      else unsigned_int (c :: s')
  end.

End Py.

(* ------------------------------------------------------------------ *)
(** ** The regular expressions of [_pattern_match]

    [_pattern_match] only ever builds expressions of the shape
    [^\s*  p1 \s+ p2 \s+ ... pn  \s*$] where each [pi] is an escaped
    literal word, the lazy group [(.+?)] or the lazy group [(.*?)], and
    runs them with [re.match] under [re.IGNORECASE].  [run] is the
    backtracking search of [re] on such a sequence: a greedy repetition
    tries its longest extent first, a lazy one its shortest, and the first
    complete match is the result, given as the list of its groups. *)

Module Re.
Import Py.

Inductive atom : Type :=
| Spaces0                  (* \s*   *)
| Spaces1                  (* \s+   *)
| Literal (word : chars)   (* re.escape(word), compared ignoring case *)
| Lazy1                    (* (.+?) *)
| Lazy0                    (* (.*?) *)
| EndAnchor.               (* $     *)

Definition is_group (a : atom) : bool :=
  match a with Lazy1 | Lazy0 => true | _ => false end.

Definition groups (r : list atom) : nat := List.length (filter is_group r).

Definition newline : ascii := chr 10.

(** [.] without [re.DOTALL]: any character but the line feed. *)
Definition dot (c : ascii) : bool := negb (Ascii.eqb c newline).

(** Two characters agree under [re.IGNORECASE]. *)
Definition same_letter (a b : ascii) : bool :=
  Ascii.eqb (lower_char a) (lower_char b).

(** [$] without [re.MULTILINE]: the end of the text, or just before a
    line feed that ends the text. *)
Definition at_end (s : chars) : bool :=
  match s with
  | [] => true
  | [c] => Ascii.eqb c newline
  | _ => false
  end.

Fixpoint eat_literal (word s : chars) : option chars :=
  match word, s with
  | [], _ => Some s
  | a :: word', b :: s' => if same_letter a b then eat_literal word' s' else None
  | _ :: _, [] => None
  end.

Section Search.
(** [k] is the search for the rest of the expression. *)
Variable k : chars -> option (list string).

Fixpoint greedy_spaces (s : chars) : option (list string) :=
  match s with
  | c :: s' =>
      if isspace c
      then match greedy_spaces s' with
           | Some found => Some found
           | None => k s
           end
      else k s
  | [] => k s
  end.

(** [taken] is what the group holds so far, reversed. *)
Fixpoint lazy_dots (taken : chars) (s : chars) : option (list string) :=
  match k s with
  | Some found => Some (to_str (rev taken) :: found)
  | None =>
      match s with
      | c :: s' => if dot c then lazy_dots (c :: taken) s' else None
      | [] => None
      end
  end.
End Search.

Fixpoint run (r : list atom) : chars -> option (list string) :=
  match r with
  | [] => fun _ => Some []
  | a :: r' =>
      let k := run r' in
      match a with
      | Spaces0 => greedy_spaces k
      | Spaces1 =>
          fun s => match s with
                   | c :: s' => if isspace c then greedy_spaces k s' else None
                   | [] => None
                   end
      | Literal word =>
          fun s => match eat_literal word s with
                   | Some s' => k s'
                   | None => None
                   end
      | Lazy1 =>
          fun s => match s with
                   | c :: s' => if dot c then lazy_dots k [c] s' else None
                   | [] => None
                   end
      | Lazy0 => lazy_dots k []
      | EndAnchor => fun s => if at_end s then k s else None
      end
  end.

(** [sep.join(parts)] on expressions. *)
Fixpoint join_atoms (sep : atom) (parts : list atom) : list atom :=
  match parts with
  | [] => []
  | [p] => [p]
  | p :: rest => p :: sep :: join_atoms sep rest
  end.

(** [re.match(regex, text, re.IGNORECASE)] followed by [match.groups()];
    [None] when there is no match. *)
Definition match_groups (r : list atom) (text : string) : option (list string) :=
  run r (of_str text).

End Re.

(* ------------------------------------------------------------------ *)
(** ** ElementTree elements *)

Module ET.

(** An [xml.etree.ElementTree.Element]: tag, attributes, the text before
    the first child, the children, and the text after the end tag. *)
Inductive Element : Type :=
| Elem (tag : string) (attrib : list (string * string))
       (text : option string) (children : list Element)
       (tail : option string).

Definition tag (e : Element) : string := let 'Elem t _ _ _ _ := e in t.
Definition attrib (e : Element) := let 'Elem _ a _ _ _ := e in a.
Definition text (e : Element) := let 'Elem _ _ t _ _ := e in t.
Definition children (e : Element) := let 'Elem _ _ _ c _ := e in c.
Definition tail (e : Element) := let 'Elem _ _ _ _ t := e in t.

Fixpoint lookup (key : string) (d : list (string * string)) : option string :=
  match d with
  | [] => None
  | (k, v) :: d' => if String.eqb k key then Some v else lookup key d'
  end.

(** [element.get(key)] and [element.get(key, default)] *)
Definition get (e : Element) (key : string) : option string :=
  lookup key (attrib e).
Definition get_default (e : Element) (key default : string) : string :=
  match get e key with Some v => v | None => default end.

(** [element.findall(name)] for a plain tag name: the direct children
    with that tag. *)
Definition has_tag (name : string) (e : Element) : bool := String.eqb (tag e) name.
Definition findall (e : Element) (name : string) : list Element :=
  filter (has_tag name) (children e).

(** A Python value used as a condition: [None] and [""] are false. *)
Definition truthy (t : option string) : bool :=
  match t with
  | Some EmptyString | None => false
  | Some _ => true
  end.

Definition text_or_empty (t : option string) : string :=
  match t with Some s => s | None => "" end.

(** ["".join(element.itertext())] *)
Fixpoint itertext (e : Element) : string :=
  match e with
  | Elem _ _ t kids _ =>
      text_or_empty t ++
      (fix inner (ks : list Element) : string :=
         match ks with
         | [] => ""
         | k :: ks' => itertext k ++ text_or_empty (tail k) ++ inner ks'
         end) kids
  end.

End ET.

(* ------------------------------------------------------------------ *)
(** ** Data structures *)

(** A decoded JSON document, the value of [json.loads]. *)
Inductive json : Type :=
| JNull
| JBool (b : bool)
| JNumber (literal : string)
| JString (s : string)
| JArray (items : list json)
| JObject (members : list (string * json)).

(** What [json.loads] does with a text: it returns the document, or
    raises [json.JSONDecodeError] on a text that is not JSON, or raises
    one of two other exceptions: a plain [ValueError] on an integer
    literal of more than 4300 digits, and [RecursionError] on arrays or
    objects nested more deeply than the interpreter's stack holds. *)
Inductive Decoded : Type :=
| Document (document : json)
| JSONDecodeError
| IntegerTooLong
| NestedTooDeep.

Record Choice : Type := mkChoice { value : string; label : string }.

Record Learn : Type := mkLearn { learn_pattern : string; learn_workflow : string }.

(** [ActionResult] *)
Record ActionResult : Type := mkActionResult {
  text : string;
  action : option string;
  workflow : option string;
  inputs : option json;
  choices : option (list Choice);
  confirm : option string;
  learn : option Learn
}.

(** [Category] *)
Record Category : Type := mkCategory {
  pattern : string;
  template : string;
  that : option string;
  topic : option string
}.

(** [PatternMatch] *)
Record PatternMatch : Type := mkPatternMatch {
  matched : bool;
  stars : list string;
  category : option Category
}.

(** The fields of an [AIMLEngine] instance. *)
Record AIMLEngine : Type := mkAIMLEngine {
  categories : list Category;
  variables : list (string * string);
  self_topic : string;
  self_that : string;
  history : list (string * string)
}.

(** [dict.get] and item assignment on [self.variables]. *)
Definition variables_get (vars : list (string * string)) (name : string)
  : option string := ET.lookup name vars.

Fixpoint variables_set (vars : list (string * string)) (name v : string)
  : list (string * string) :=
  match vars with
  | [] => [(name, v)]
  | (k, old) :: vars' =>
      if String.eqb k name then (k, v) :: vars'
      else (k, old) :: variables_set vars' name v
  end.

Definition option_string_eqb (a b : option string) : bool :=
  match a, b with
  | Some x, Some y => String.eqb x y
  | None, None => true
  | _, _ => false
  end.

(* ------------------------------------------------------------------ *)
(** ** Normalizer and pattern matcher *)

(** The characters [re.sub(r'[^\w\s*_#^]', '', text)] keeps. *)
Definition kept (c : ascii) : bool :=
  Py.isword c || Py.isspace c
  || Ascii.eqb c "*" || Ascii.eqb c "_" || Ascii.eqb c "#" || Ascii.eqb c "^".

Definition _normalize (text : string) : string :=
  let text := Py.upper text in
  let text := Py.to_str (filter kept (Py.of_str text)) in
  Py.join " " (Py.split text).

(** One turn of the loop over [pattern.split()]: the expression for the
    token and what it adds to the score. *)
Definition compile_part (part : string) : Re.atom * Z :=
  if String.eqb part "*" then (Re.Lazy1, 1%Z)
  else if String.eqb part "_" then (Re.Lazy1, 2%Z)
  else if String.eqb part "#" then (Re.Lazy0, 1%Z)
  else if String.eqb part "^" then (Re.Lazy0, 3%Z)
  else (Re.Literal (Py.of_str part), 10%Z).

Definition part_score (part : string) : Z := snd (compile_part part).

Definition regex_parts (parts : list string) : list Re.atom :=
  map (fun part => fst (compile_part part)) parts.

Definition pattern_score (parts : list string) : Z :=
  fold_left (fun score part => (score + part_score part)%Z) parts 0%Z.

Definition pattern_regex (parts : list string) : list Re.atom :=
  (Re.Spaces0 :: Re.join_atoms Re.Spaces1 (regex_parts parts)
     ++ [Re.Spaces0; Re.EndAnchor])%list.

Definition _pattern_match (pattern input_text : string)
  : option (list string) * Z :=
  let parts := Py.split pattern in
  match Re.match_groups (pattern_regex parts) input_text with
  | Some groups => (Some groups, pattern_score parts)
  | None => (None, 0%Z)
  end.

(** The two filters at the head of the loop of [_match_pattern]; [true]
    when the category is skipped. *)
Definition topic_differs (self : AIMLEngine) (c : Category) : bool :=
  negb (option_string_eqb (topic c) (Some "*"))
  && negb (option_string_eqb (topic c) (Some (self_topic self))).

Definition that_differs (self : AIMLEngine) (c : Category) : bool :=
  ET.truthy (that c)
  && negb (option_string_eqb (that c) (Some (self_that self))).

Fixpoint match_loop (self : AIMLEngine) (input_text : string)
    (cats : list Category) (best_match : PatternMatch) (best_score : Z)
  : PatternMatch :=
  match cats with
  | [] => best_match
  | c :: rest =>
      if topic_differs self c then match_loop self input_text rest best_match best_score
      else if that_differs self c then match_loop self input_text rest best_match best_score
      else
        match _pattern_match (pattern c) input_text with
        | (Some found, score) =>
            if (best_score <? score)%Z
            then match_loop self input_text rest
                   (mkPatternMatch true found (Some c)) score
            else match_loop self input_text rest best_match best_score
        | (None, _) => match_loop self input_text rest best_match best_score
        end
  end.

Definition _match_pattern (self : AIMLEngine) (input_text : string) : PatternMatch :=
  match_loop self input_text (categories self) (mkPatternMatch false [] None) (-1)%Z.

(* ------------------------------------------------------------------ *)
(** ** Evaluation state and exceptions *)

(** The exceptions the engine can let through. *)
Inductive exn : Type :=
| ValueError        (* int() on text that is not a number, json.loads on
                       an integer literal that is too long *)
| RecursionError    (* the interpreter's stack is exhausted *)
| AttributeError.   (* an attribute of None *)

Inductive Outcome (A : Type) : Type :=
| Ok (a : A)
| Raise (e : exn).
Arguments Ok {A} a.
Arguments Raise {A} e.

(** What a call of [respond] reads and writes: the engine instance and
    the numbers the [random] module will draw next. *)
Record World : Type := mkWorld {
  engine : AIMLEngine;
  pending_draws : list nat
}.

(** What [_process_element] reads and writes: the engine instance, the one
    [ActionResult] shared by the whole evaluation of a template, and the
    random draws. *)
Record Frame : Type := mkFrame {
  self : AIMLEngine;
  result : ActionResult;
  draws : list nat
}.

Definition M (A : Type) : Type := Frame -> Outcome (A * Frame).

Definition ret {A : Type} (a : A) : M A := fun st => Ok (a, st).

Definition bind {A B : Type} (m : M A) (f : A -> M B) : M B :=
  fun st =>
    match m st with
    | Ok (a, st') => f a st'
    | Raise e => Raise e
    end.

Definition raise {A : Type} (e : exn) : M A := fun _ => Raise e.

Definition read : M Frame := fun st => Ok (st, st).

Definition update (f : Frame -> Frame) : M unit := fun st => Ok (tt, f st).

Declare Scope eval_scope.
Delimit Scope eval_scope with eval.
Notation "x <- m ;; k" := (bind m (fun x => k))
  (at level 61, m at next level, right associativity) : eval_scope.
Notation "m ;;; k" := (bind m (fun _ => k))
  (at level 61, right associativity) : eval_scope.

(** Assignments to the fields of [result] and of [self]. *)
Definition set_text (r : ActionResult) (v : string) : ActionResult :=
  mkActionResult v (action r) (workflow r) (inputs r) (choices r) (confirm r) (learn r).
Definition set_action (v : option string) (st : Frame) : Frame :=
  let r := result st in
  mkFrame (self st)
    (mkActionResult (text r) v (workflow r) (inputs r) (choices r) (confirm r) (learn r))
    (draws st).
Definition set_workflow (v : option string) (st : Frame) : Frame :=
  let r := result st in
  mkFrame (self st)
    (mkActionResult (text r) (action r) v (inputs r) (choices r) (confirm r) (learn r))
    (draws st).
Definition set_inputs (v : option json) (st : Frame) : Frame :=
  let r := result st in
  mkFrame (self st)
    (mkActionResult (text r) (action r) (workflow r) v (choices r) (confirm r) (learn r))
    (draws st).
Definition set_choices (v : option (list Choice)) (st : Frame) : Frame :=
  let r := result st in
  mkFrame (self st)
    (mkActionResult (text r) (action r) (workflow r) (inputs r) v (confirm r) (learn r))
    (draws st).
Definition set_confirm (v : option string) (st : Frame) : Frame :=
  let r := result st in
  mkFrame (self st)
    (mkActionResult (text r) (action r) (workflow r) (inputs r) (choices r) v (learn r))
    (draws st).
Definition set_learn (v : option Learn) (st : Frame) : Frame :=
  let r := result st in
  mkFrame (self st)
    (mkActionResult (text r) (action r) (workflow r) (inputs r) (choices r) (confirm r) v)
    (draws st).
Definition set_variable (name v : string) (st : Frame) : Frame :=
  let e := self st in
  mkFrame
    (mkAIMLEngine (categories e) (variables_set (variables e) name v)
       (self_topic e) (self_that e) (history e))
    (result st) (draws st).

(** [random.choice(items)] for a non-empty [items]: the next draw, reduced
    to an index, is used up. *)
Definition random_choice {A : Type} (items : list A) : M (option A) :=
  fun st =>
    match draws st with
    | d :: rest =>
        Ok (nth_error items (d mod List.length items),
            mkFrame (self st) (result st) rest)
    | [] => Ok (nth_error items 0, st)
    end.

(** The double quote. *)
Definition dq : string := String (Py.chr 34) EmptyString.

(** [f'<star index="{i+1}"/>'] *)
Definition star_ref (i : nat) : string :=
  "<star index=" ++ dq ++ Py.str_of_nat (i + 1) ++ dq ++ "/>".

(** The loop of the [action] tag over [enumerate(stars)], from index [i]
    on: both replacements are made at every turn. *)
Fixpoint substitute_stars (all_stars : list string) (i : nat)
    (rest : list string) (inputs_str : string) : string :=
  match rest with
  | [] => inputs_str
  | star :: rest' =>
      let inputs_str := Py.replace inputs_str (star_ref i) star in
      let inputs_str := Py.replace inputs_str "<star/>" (hd "" all_stars) in
      substitute_stars all_stars (S i) rest' inputs_str
  end.

(** The loop of the [learn-action] tag over [enumerate(stars)]. *)
Fixpoint generalize_stars (i : nat) (rest : list string) (new_pattern : string)
  : string :=
  match rest with
  | [] => new_pattern
  | _ :: rest' => generalize_stars (S i) rest' (Py.replace new_pattern (star_ref i) "*")
  end.

(** The options of a [choice] tag without [option] children: the text
    between the bars. *)
Fixpoint piped_options (fields : list string) : list Choice :=
  match fields with
  | [] => []
  | opt :: rest =>
      let opt := Py.strip opt in
      match opt with
      | EmptyString => piped_options rest
      | _ => mkChoice (Py.lower opt) opt :: piped_options rest
      end
  end.

Definition choice_options (child : ET.Element) : list Choice :=
  let options :=
    map (fun option => mkChoice (ET.get_default option "value" "") (ET.itertext option))
        (ET.findall child "option") in
  match options with
  | [] => piped_options (Py.split_on "|" (ET.itertext child))
  | _ => options
  end.

(** The [try] around [json.loads] in the [action] tag: only
    [json.JSONDecodeError] is caught and replaced by the empty map. *)
Definition load_inputs (decoded : Decoded) : M json :=
  match decoded with
  | Document parsed => ret parsed
  | JSONDecodeError => ret (JObject [])
  | IntegerTooLong => raise ValueError
  | NestedTooDeep => raise RecursionError
  end.

(* ------------------------------------------------------------------ *)
(** ** Template interpreter and [respond] *)

Section Interpreter.

Local Open Scope eval_scope.

(** [ET.fromstring]; [None] stands for [ET.ParseError]. *)
Variable ET_fromstring : string -> option ET.Element.
(** [json.loads] *)
Variable json_loads : string -> Decoded.
(** [str(eval(expr, {"__builtins__": {}}, {}))]; [None] when either
    raises. *)
Variable py_eval : string -> option string.

(** The value of a recursive call [self.respond(redirect)]. *)
Definition Respond : Type :=
  World -> string -> Outcome (option ActionResult * World).

(** [self.respond(redirect)] from inside an evaluation: the call works
    on the engine and leaves the caller's [result] alone. *)
Definition call_respond (respond_rec : Respond) (redirect : string)
  : M (option ActionResult) :=
  fun st =>
    match respond_rec (mkWorld (self st) (draws st)) redirect with
    | Ok (sub_result, w) =>
        Ok (sub_result, mkFrame (engine w) (result st) (pending_draws w))
    | Raise e => Raise e
    end.

(** [runs] pairs an element with its evaluation
    [self._process_element(element, stars, result)]. *)
Definition Runs : Type := list (ET.Element * M string).

Definition li_runs (runs : Runs) : Runs :=
  filter (fun r => ET.has_tag "li" (fst r)) runs.

Definition variables_get_opt (vars : list (string * string))
    (name : option string) : option string :=
  match name with
  | Some n => variables_get vars n
  | None => None
  end.

(** The multi-branch form of [condition]: the first [li] whose test
    passes is evaluated and the loop is left. *)
Fixpoint condition_loop (name : option string) (lis : Runs)
    (output : list string) : M (list string) :=
  match lis with
  | [] => ret output
  | (li, run_li) :: rest =>
      st <- read ;;
      let li_name :=
        match ET.get li "name" with Some n => Some n | None => name end in
      let li_value := ET.get li "value" in
      if match li_value with None => true | Some _ => false end
         || option_string_eqb (variables_get_opt (variables (self st)) li_name) li_value
      then v <- run_li ;; ret (output ++ [v])%list
      else condition_loop name rest output
  end.

(** The body of the loop [for child in element] of [_process_element],
    up to the tail text: [run_child] evaluates [child] itself and
    [run_kids] the children of [child]. *)
Definition process_tag (respond_rec : Respond) (stars : list string)
    (child : ET.Element) (run_child : M string) (run_kids : Runs)
    (output : list string) : M (list string) :=
  let tag := Py.lower (ET.tag child) in
  if String.eqb tag "star" then
    match Py.int (ET.get_default child "index" "1") with
    | None => raise ValueError
    | Some n =>
        let index := (n - 1)%Z in
        if ((0 <=? index) && (index <? Z.of_nat (List.length stars)))%Z
        then ret (output ++ [nth (Z.to_nat index) stars ""])%list
        else ret output
    end
  else if String.eqb tag "get" then
    let name := ET.get_default child "name" "" in
    st <- read ;;
    ret (output ++ [match variables_get (variables (self st)) name with
                    | Some v => v
                    | None => ""
                    end])%list
  else if String.eqb tag "set" then
    let name := ET.get_default child "name" "" in
    v <- run_child ;;
    update (set_variable name v) ;;;
    ret (output ++ [v])%list
  else if String.eqb tag "think" then
    run_child ;;; ret output
  else if String.eqb tag "random" then
    let items := li_runs run_kids in
    match items with
    | [] => ret output
    | _ =>
        chosen <- random_choice items ;;
        match chosen with
        | Some (_, run_chosen) => v <- run_chosen ;; ret (output ++ [v])%list
        | None => ret output
        end
    end
  else if String.eqb tag "condition" then
    let name := ET.get child "name" in
    let value := ET.get child "value" in
    if ET.truthy name && ET.truthy value then
      st <- read ;;
      if option_string_eqb (variables_get_opt (variables (self st)) name) value
      then v <- run_child ;; ret (output ++ [v])%list
      else ret output
    else condition_loop name (li_runs run_kids) output
  else if String.eqb tag "srai" then
    redirect <- run_child ;;
    sub_result <- call_respond respond_rec redirect ;;
    match sub_result with
    | Some r => ret (output ++ [text r])%list
    | None => ret output
    end
  else if String.eqb tag "uppercase" then
    v <- run_child ;; ret (output ++ [Py.upper v])%list
  else if String.eqb tag "lowercase" then
    v <- run_child ;; ret (output ++ [Py.lower v])%list
  else if String.eqb tag "formal" then
    v <- run_child ;; ret (output ++ [Py.title v])%list
  else if String.eqb tag "action" then
    let workflow := ET.get child "workflow" in
    let inputs_str := ET.get_default child "inputs" "{}" in
    let inputs_str := substitute_stars stars 0 stars inputs_str in
    inputs <- load_inputs (json_loads inputs_str) ;;
    update (set_action (Some "workflow")) ;;;
    update (set_workflow workflow) ;;;
    update (set_inputs (Some inputs)) ;;;
    v <- run_child ;; ret (output ++ [v])%list
  else if String.eqb tag "choice" then
    update (set_choices (Some (choice_options child))) ;;;
    v <- run_child ;; ret (output ++ [v])%list
  else if String.eqb tag "confirm" then
    v <- run_child ;;
    update (set_confirm (Some v)) ;;;
    update (set_action (Some "confirm")) ;;;
    ret output
  else if String.eqb tag "llm" then
    update (set_action (Some "llm")) ;;;
    prompt <- run_child ;;
    ret (output ++ [("[LLM: " ++ prompt ++ "]")%string])%list
  else if String.eqb tag "learn-action" then
    let new_pattern := ET.get_default child "pattern" "" in
    let new_workflow := ET.get_default child "workflow" "" in
    let new_pattern := generalize_stars 0 stars new_pattern in
    update (set_learn (Some (mkLearn new_pattern new_workflow))) ;;;
    update (set_action (Some "learn")) ;;;
    ret output
  else if String.eqb tag "compute" then
    expr <- run_child ;;
    match py_eval expr with
    | Some computed => ret (output ++ [computed])%list
    | None => ret (output ++ [expr])%list
    end
  else
    v <- run_child ;; ret (output ++ [v])%list.

(** [if child.tail: output.append(child.tail)] *)
Definition append_tail (child : ET.Element) (output : list string) : list string :=
  if ET.truthy (ET.tail child)
  then (output ++ [ET.text_or_empty (ET.tail child)])%list
  else output.

Definition process_child (respond_rec : Respond) (stars : list string)
    (child : ET.Element) (run_child : M string) (run_kids : Runs)
    (output : list string) : M (list string) :=
  output <- process_tag respond_rec stars child run_child run_kids output ;;
  ret (append_tail child output).

(** [if element.text: output.append(element.text)] *)
Definition initial_output (element : ET.Element) : list string :=
  if ET.truthy (ET.text element)
  then [ET.text_or_empty (ET.text element)]
  else [].

(** ["".join(output).strip()] *)
Definition finish (output : list string) : string :=
  Py.strip (String.concat "" output).

Fixpoint _process_element (respond_rec : Respond) (element : ET.Element)
    (stars : list string) {struct element} : M string :=
  match element with
  | ET.Elem _ _ _ kids _ =>
      (fix each_child (ks : list ET.Element) (output : list string)
           {struct ks} : M string :=
         match ks with
         | [] => ret (finish output)
         | child :: rest =>
             output <- process_child respond_rec stars child
                         (_process_element respond_rec child stars)
                         (match child with
                          | ET.Elem _ _ _ grandkids _ =>
                              (fix runs (gs : list ET.Element) : Runs :=
                                 match gs with
                                 | [] => []
                                 | g :: gs' =>
                                     (g, _process_element respond_rec g stars)
                                       :: runs gs'
                                 end) grandkids
                          end)
                         output ;;
             each_child rest output
         end) kids (initial_output element)
  end.

Definition empty_result : ActionResult :=
  mkActionResult "" None None None None None None.

Definition _process_template (respond_rec : Respond) (w : World)
    (template : string) (stars : list string)
  : Outcome (ActionResult * World) :=
  let fresh := empty_result in
  match ET_fromstring template with
  | Some root =>
      match _process_element respond_rec root stars
              (mkFrame (engine w) fresh (pending_draws w)) with
      | Ok (v, st) => Ok (set_text (result st) v, mkWorld (self st) (draws st))
      | Raise e => Raise e
      end
  | None => Ok (set_text fresh template, w)
  end.

(** The body of [respond], with [respond_rec] for the calls [srai]
    makes. *)
Definition respond_body (respond_rec : Respond) : Respond :=
  fun w input_text =>
    let normalized := _normalize input_text in
    let found := _match_pattern (engine w) normalized in
    if negb (matched found) then Ok (None, w)
    else
      match category found with
      | None => Raise AttributeError
      | Some c =>
          match _process_template respond_rec w (template c) (stars found) with
          | Raise e => Raise e
          | Ok (r, w') =>
              let e := engine w' in
              let new_that :=
                match text r with
                | EmptyString => ""
                | _ => Py.upper (text r)
                end in
              Ok (Some r,
                  mkWorld
                    (mkAIMLEngine (categories e) (variables e) (self_topic e)
                       new_that
                       (history e ++ [(input_text, text r)])%list)
                    (pending_draws w'))
          end
      end.

(** The engine has no bound of its own on the calls of [respond] nested
    through [srai]; the interpreter's stack has.  [limit] is the number
    of nested calls that still fit; the call that does not fit raises
    [RecursionError].  Only these calls are counted: the recursion of
    [_process_element] over the elements of one template runs on the
    same stack and is taken to fit, so a template nested more deeply
    than the stack allows, which raises [RecursionError] as well, is
    outside of what the embedding evaluates.  No property below says
    that [RecursionError] cannot arise. *)
Fixpoint respond_nested (limit : nat) : Respond :=
  match limit with
  | O => fun _ _ => Raise RecursionError
  | S n => respond_body (respond_nested n)
  end.

Definition respond (limit : nat) : Respond :=
  respond_body (respond_nested limit).

End Interpreter.

(* ------------------------------------------------------------------ *)
(** ** Vocabulary of the properties *)

(** The four wildcard glyphs. *)
Definition is_wildcard (part : string) : bool :=
  String.eqb part "*" || String.eqb part "_"
  || String.eqb part "#" || String.eqb part "^".

Definition wildcard_count (parts : list string) : nat :=
  List.length (filter is_wildcard parts).

(** [Aligned r s found]: the text [s] is cut, left to right, into one span
    per expression of [r], and [found] lists the spans of the groups in
    that order. *)
Inductive Aligned : list Re.atom -> Py.chars -> list string -> Prop :=
| Aligned_nil : forall s, Aligned [] s []
| Aligned_spaces0 : forall sp r s found,
    Forall (fun c => Py.isspace c = true) sp ->
    Aligned r s found ->
    Aligned (Re.Spaces0 :: r) (sp ++ s)%list found
| Aligned_spaces1 : forall sp r s found,
    sp <> [] ->
    Forall (fun c => Py.isspace c = true) sp ->
    Aligned r s found ->
    Aligned (Re.Spaces1 :: r) (sp ++ s)%list found
| Aligned_literal : forall word span r s found,
    Forall2 (fun a b => Re.same_letter a b = true) word span ->
    Aligned r s found ->
    Aligned (Re.Literal word :: r) (span ++ s)%list found
| Aligned_lazy1 : forall span r s found,
    span <> [] ->
    Forall (fun c => Re.dot c = true) span ->
    Aligned r s found ->
    Aligned (Re.Lazy1 :: r) (span ++ s)%list (Py.to_str span :: found)
| Aligned_lazy0 : forall span r s found,
    Forall (fun c => Re.dot c = true) span ->
    Aligned r s found ->
    Aligned (Re.Lazy0 :: r) (span ++ s)%list (Py.to_str span :: found)
| Aligned_end : forall r s found,
    Re.at_end s = true ->
    Aligned r s found ->
    Aligned (Re.EndAnchor :: r) s found.

(** A category passes the topic and preceding-response filters. *)
Definition eligible (self : AIMLEngine) (c : Category) : bool :=
  negb (topic_differs self c) && negb (that_differs self c).

(** The patterns that accept the empty text: no token at all, or one
    narrow wildcard. *)
Definition accepts_empty (pattern : string) : bool :=
  match Py.split pattern with
  | [] => true
  | [part] => String.eqb part "#" || String.eqb part "^"
  | _ => false
  end.

(** [c] passes the filters and its pattern aligns with the input, with
    these captured spans and this score. *)
Definition candidate (self : AIMLEngine) (input_text : string) (c : Category)
    (found : list string) (score : Z) : Prop :=
  eligible self c = true
  /\ _pattern_match (pattern c) input_text = (Some found, score).

(** What the loop of [_match_pattern] knows after the categories [seen]:
    either no candidate was met, or [best] is the first candidate of the
    highest score met so far. *)
Definition loop_invariant (self : AIMLEngine) (input_text : string)
    (seen : list Category) (best : PatternMatch) (best_score : Z) : Prop :=
  (best = mkPatternMatch false [] None /\ best_score = (-1)%Z
   /\ forall c found score,
        In c seen -> ~ candidate self input_text c found score)
  \/ (exists i c found,
         best = mkPatternMatch true found (Some c)
         /\ nth_error seen i = Some c
         /\ candidate self input_text c found best_score
         /\ forall j c' found' score',
              nth_error seen j = Some c' ->
              candidate self input_text c' found' score' ->
              (score' <= best_score)%Z /\ (j < i -> (score' < best_score)%Z)).

(** The index attribute of a [star] tag is a number. *)
Definition star_index_numeric (child : ET.Element) : bool :=
  if String.eqb (Py.lower (ET.tag child)) "star"
  then match Py.int (ET.get_default child "index" "1") with
       | Some _ => true
       | None => false
       end
  else true.

(** Whatever is captured, [json.loads] does not raise [ValueError] on
    the inputs of the tag, when it is an [action]. *)
Definition inputs_decodable (json_loads : string -> Decoded)
    (child : ET.Element) : Prop :=
  Py.lower (ET.tag child) = "action" ->
  forall stars,
    json_loads (substitute_stars stars 0 stars (ET.get_default child "inputs" "{}"))
    <> IntegerTooLong.

(** What is asked of a tag for [ValueError] not to arise: a number as
    the index of a [star], and inputs of an [action] on which
    [json.loads] does not raise it. *)
Definition tag_ok (json_loads : string -> Decoded) (child : ET.Element) : Prop :=
  star_index_numeric child = true /\ inputs_decodable json_loads child.

(** Every tag below [element] is as asked. *)
Fixpoint template_ok (json_loads : string -> Decoded) (element : ET.Element)
  : Prop :=
  match element with
  | ET.Elem _ _ _ kids _ =>
      fold_right
        (fun k rest => (tag_ok json_loads k /\ template_ok json_loads k) /\ rest)
        True kids
  end.

(** An evaluation started on the category store [cats] ends with a value,
    the store unchanged, or raises [RecursionError], or, unless [strict],
    raises [ValueError]. *)
Definition Contained (cats : list Category) (strict : bool) {A : Type}
    (m : M A) : Prop :=
  forall st,
    categories (self st) = cats ->
    (exists a st', m st = Ok (a, st') /\ categories (self st') = cats)
    \/ m st = Raise RecursionError
    \/ (strict = false /\ m st = Raise ValueError).

Definition RespondContained (cats : list Category) (strict : bool)
    (r : Respond) : Prop :=
  forall w s,
    categories (engine w) = cats ->
    (exists out w', r w s = Ok (out, w') /\ categories (engine w') = cats)
    \/ r w s = Raise RecursionError
    \/ (strict = false /\ r w s = Raise ValueError).

Definition RunsContained (cats : list Category) (strict : bool) (runs : Runs)
  : Prop :=
  Forall (fun r => Contained cats strict (snd r)) runs.

(** Every template of the store that parses is as asked. *)
Definition templates_ok (ET_fromstring : string -> option ET.Element)
    (json_loads : string -> Decoded) (cats : list Category) : Prop :=
  forall c root,
    In c cats -> ET_fromstring (template c) = Some root ->
    template_ok json_loads root.

(** The text that the first tag of a template sends back to [respond],
    when that tag is an [srai] without child elements. *)
Definition first_srai (root : ET.Element) : option string :=
  match ET.children root with
  | child :: _ =>
      if String.eqb (Py.lower (ET.tag child)) "srai"
      then match ET.children child with
           | [] => Some (finish (initial_output child))
           | _ :: _ => None
           end
      else None
  | [] => None
  end.

(** The input, once normalized, selects the category [c]. *)
Definition selects (self : AIMLEngine) (input_text : string) (c : Category)
  : Prop :=
  exists found,
    _match_pattern self (_normalize input_text)
    = mkPatternMatch true found (Some c).

(** The white-space characters of a text and the [\s+] separators of
    an expression. *)
Definition count_spaces (s : Py.chars) : nat :=
  List.length (filter Py.isspace s).

Definition is_separator (a : Re.atom) : bool :=
  match a with Re.Spaces1 => true | _ => false end.

Definition separators (r : list Re.atom) : nat :=
  List.length (filter is_separator r).

Definition spaceless (s : Py.chars) : Prop :=
  Forall (fun c => Py.isspace c = false) s.

(* ------------------------------------------------------------------ *)
(** ** Example engines

    The library functions are given by their values on the texts an
    example uses. *)

Fixpoint table {A : Type} (entries : list (string * A)) (key : string) : option A :=
  match entries with
  | [] => None
  | (k, v) :: rest => if String.eqb k key then Some v else table rest key
  end.

Definition fresh_engine (cats : list Category) : AIMLEngine :=
  mkAIMLEngine cats [] "*" "" [].

(** A category that sends its own trigger text back through [srai]. *)
Definition loop_template : string := "<template><srai>LOOP</srai></template>".
Definition loop_tree : ET.Element :=
  ET.Elem "template" [] None [ET.Elem "srai" [] (Some "LOOP") [] None] None.
Definition loop_category : Category :=
  mkCategory "LOOP" loop_template None (Some "*").

(** A category whose template refers to the capture of index [x]. *)
Definition bad_star_template : string :=
  "<template><star index=" ++ dq ++ "x" ++ dq ++ "/></template>".
Definition bad_star_tree : ET.Element :=
  ET.Elem "template" [] None [ET.Elem "star" [("index", "x")] None [] None] None.
Definition bad_star_category : Category :=
  mkCategory "HI" bad_star_template None (Some "*").

(** A category whose pattern is one narrow wildcard. *)
Definition anything_template : string := "<template>Say something.</template>".
Definition anything_tree : ET.Element :=
  ET.Elem "template" [] (Some "Say something.") [] None.
Definition anything_category : Category :=
  mkCategory "#" anything_template None (Some "*").

(** A category with two broad wildcards around a literal word. *)
Definition either_template : string := "<template>Either.</template>".
Definition either_tree : ET.Element :=
  ET.Elem "template" [] (Some "Either.") [] None.
Definition either_category : Category :=
  mkCategory "* OR *" either_template None (Some "*").

(** An [action] tag whose inputs are not JSON. *)
Definition broken_action : ET.Element :=
  ET.Elem "action" [("workflow", "create-users"); ("inputs", "{count: <star/>}")]
    (Some "Creating users") [] (Some "!").

(** A category that passes the number it captures on to a workflow. *)
Definition count_inputs : string := "{" ++ dq ++ "count" ++ dq ++ ": <star/>}".
Definition count_template : string :=
  "<template><action workflow=" ++ dq ++ "create-users" ++ dq
  ++ " inputs='{" ++ dq ++ "count" ++ dq ++ ": &lt;star/&gt;}'"
  ++ ">Creating users.</action></template>".
Definition count_tree : ET.Element :=
  ET.Elem "template" [] None
    [ET.Elem "action" [("workflow", "create-users"); ("inputs", count_inputs)]
       (Some "Creating users.") [] None] None.
Definition count_category : Category :=
  mkCategory "CREATE * USERS" count_template None (Some "*").

Definition count_fromstring : string -> option ET.Element :=
  table [(count_template, count_tree)].

(** [json.loads] on the texts the inputs of [count_category] become: an
    object with the one member [count], whose value is an integer
    literal.  A literal of more than 4300 digits is refused with
    [ValueError]; every other text is taken not to be JSON. *)
Definition int_literal (digits : Py.chars) : bool :=
  match digits with
  | [] => false
  | [_] => forallb Py.isdigit digits
  | first :: _ => negb (Ascii.eqb first "0") && forallb Py.isdigit digits
  end.

Definition count_loads (s : string) : Decoded :=
  match Py.strip_prefix (Py.of_str ("{" ++ dq ++ "count" ++ dq ++ ": "))
          (Py.of_str s) with
  | Some rest =>
      match rev rest with
      | last :: digits =>
          if Ascii.eqb last "}" && int_literal (rev digits)
          then if (List.length digits <=? Py.int_max_str_digits)%nat
               then Document (JObject [("count", JNumber (Py.to_str (rev digits)))])
               else IntegerTooLong
          else JSONDecodeError
      | [] => JSONDecodeError
      end
  | None => JSONDecodeError
  end.

(** A number of 5000 digits. *)
Definition long_number : string := Py.to_str (repeat "1"%char 5000).

Definition example_fromstring : string -> option ET.Element :=
  table [(loop_template, loop_tree);
         (bad_star_template, bad_star_tree);
         (anything_template, anything_tree);
         (either_template, either_tree)].

(** None of the example templates reaches [json.loads] with JSON text or
    [eval] at all. *)
Definition example_loads : string -> Decoded := fun _ => JSONDecodeError.
Definition example_eval : string -> option string := table [].

Definition example_world (cats : list Category) : World :=
  mkWorld (fresh_engine cats) [].

(** A reference to the fifth capture, followed by text. *)
Definition out_of_range_star : ET.Element :=
  ET.Elem "star" [("index", "5")] None [] (Some " there").

(** The state at the start of the evaluation of a template. *)
Definition example_frame : Frame := mkFrame (fresh_engine []) empty_result [].

Definition example_respond (limit : nat) : Respond :=
  respond example_fromstring example_loads example_eval limit.

(* ------------------------------------------------------------------ *)
(** ** The rest of the interface of [AIMLEngine] *)

Module Engine.

(** [set_topic] *)
Definition set_topic (self : AIMLEngine) (topic : string) : AIMLEngine :=
  mkAIMLEngine (categories self) (variables self) (Py.upper topic)
    (self_that self) (history self).

(** [set_variable] *)
Definition set_variable (self : AIMLEngine) (name value : string) : AIMLEngine :=
  mkAIMLEngine (categories self) (variables_set (variables self) name value)
    (self_topic self) (self_that self) (history self).

(** [get_variable]: [self.variables.get(name, "")] *)
Definition get_variable (self : AIMLEngine) (name : string) : string :=
  match variables_get (variables self) name with
  | Some v => v
  | None => ""
  end.

(** The category [add_category] builds: the pattern upper-cased, the
    template wrapped in a [template] element, no [that], and the topic
    upper-cased unless it is the star. *)
Definition new_category (pattern template topic : string) : Category :=
  mkCategory (Py.upper pattern)
    ("<template>" ++ template ++ "</template>")
    None
    (Some (if String.eqb topic "*" then "*" else Py.upper topic)).

(** [add_category] *)
Definition add_category (self : AIMLEngine) (pattern template topic : string)
  : AIMLEngine :=
  mkAIMLEngine (categories self ++ [new_category pattern template topic])%list
    (variables self) (self_topic self) (self_that self) (history self).

End Engine.

(* ------------------------------------------------------------------ *)
(** ** Vocabulary of the further properties *)

Definition space : ascii := " "%char.

(** A word: a non-empty run of characters without white space. *)
Definition solid (w : Py.chars) : Prop := w <> [] /\ spaceless w.

(** [sep.join(words)] on lists of characters. *)
Fixpoint join_chars (sep : Py.chars) (words : list Py.chars) : Py.chars :=
  match words with
  | [] => []
  | [w] => w
  | w :: rest => (w ++ sep ++ join_chars sep rest)%list
  end.

(** Two words agree under [re.IGNORECASE]. *)
Definition same_word (a b : Py.chars) : Prop :=
  Forall2 (fun x y => Re.same_letter x y = true) a b.

(** Two texts agree under [re.IGNORECASE]. *)
Definition same_text (a b : string) : Prop :=
  same_word (Py.of_str a) (Py.of_str b).

(** No token of the pattern is a wildcard. *)
Definition literal_only (pattern : string) : Prop :=
  Forall (fun part => is_wildcard part = false) (Py.split pattern).

(** Two tokens are the same, or wildcards of the same breadth: [*] and
    [_], or [#] and [^]. *)
Definition same_breadth (a b : string) : Prop :=
  fst (compile_part a) = fst (compile_part b).

(** The expression of a pattern of literal words, after its first [\s*]. *)
Definition literal_tail (lits : list Py.chars) : list Re.atom :=
  (Re.join_atoms Re.Spaces1 (map Re.Literal lits)
     ++ [Re.Spaces0; Re.EndAnchor])%list.

(** The score the loop of [_match_pattern] holds after the categories
    [cats], from [best_score]. *)
Fixpoint score_loop (self : AIMLEngine) (input_text : string)
    (cats : list Category) (best_score : Z) : Z :=
  match cats with
  | [] => best_score
  | c :: rest =>
      if topic_differs self c then score_loop self input_text rest best_score
      else if that_differs self c then score_loop self input_text rest best_score
      else
        match _pattern_match (pattern c) input_text with
        | (Some _, score) =>
            if (best_score <? score)%Z
            then score_loop self input_text rest score
            else score_loop self input_text rest best_score
        | (None, _) => score_loop self input_text rest best_score
        end
  end.

(** A character of the text is a lower-case letter. *)
Definition has_lower (s : string) : Prop :=
  exists c, In c (Py.of_str s) /\ Py.islower c = true.

(* ------------------------------------------------------------------ *)
(** ** What an evaluation leaves in place *)

(** The tags that write to the fields of [result] other than the text. *)
Definition writes_result (child : ET.Element) : bool :=
  let tag := Py.lower (ET.tag child) in
  String.eqb tag "action" || String.eqb tag "choice" || String.eqb tag "confirm"
  || String.eqb tag "llm" || String.eqb tag "learn-action".

(** No tag below [element] writes to [result], unless [sides] allows
    it. *)
Fixpoint template_plain (sides : bool) (element : ET.Element) : bool :=
  match element with
  | ET.Elem _ _ _ kids _ =>
      forallb (fun k => (sides || negb (writes_result k)) && template_plain sides k)
        kids
  end.

Section Keeping.

(** [RE] relates the engine before an evaluation to the engine after it,
    [RR] does the same for [result]. *)
Variable RE : AIMLEngine -> AIMLEngine -> Prop.
Variable RR : ActionResult -> ActionResult -> Prop.

Definition Keeps {A : Type} (m : M A) : Prop :=
  forall st a st',
    m st = Ok (a, st') -> RE (self st) (self st') /\ RR (result st) (result st').

Definition RespondKeeps (r : Respond) : Prop :=
  forall w s out w', r w s = Ok (out, w') -> RE (engine w) (engine w').

Definition RunsKeep (runs : Runs) : Prop :=
  Forall (fun r => Keeps (snd r)) runs.

End Keeping.

(** The engine after a turn, seen from the engine before it: the same
    categories and topic, the history extended, and no variable lost. *)
Definition engine_grows (e e' : AIMLEngine) : Prop :=
  categories e' = categories e
  /\ self_topic e' = self_topic e
  /\ (exists more, history e' = (history e ++ more)%list)
  /\ (forall name,
        variables_get (variables e) name <> None ->
        variables_get (variables e') name <> None).

(** A category that hands the turn over to another one, whose template
    triggers a workflow. *)
Definition forward_template : string := "<template><srai>DEPLOY</srai></template>".
Definition forward_tree : ET.Element :=
  ET.Elem "template" [] None [ET.Elem "srai" [] (Some "DEPLOY") [] None] None.
Definition forward_category : Category :=
  mkCategory "SHIP IT" forward_template None (Some "*").

Definition deploy_template : string :=
  "<template><action workflow=" ++ dq ++ "deploy" ++ dq ++ ">Deploying.</action></template>".
Definition deploy_tree : ET.Element :=
  ET.Elem "template" [] None
    [ET.Elem "action" [("workflow", "deploy")] (Some "Deploying.") [] None] None.
Definition deploy_category : Category :=
  mkCategory "DEPLOY" deploy_template None (Some "*").

Definition forward_fromstring : string -> option ET.Element :=
  table [(forward_template, forward_tree); (deploy_template, deploy_tree)].

(* ------------------------------------------------------------------ *)
(** ** The fallback: [LLMFallback] *)

Module LLM.

(** [needle in text] on strings: [needle] occurs in [text] at some
    position. *)
Fixpoint contains_chars (needle s : Py.chars) : bool :=
  match Py.strip_prefix needle s with
  | Some _ => true
  | None =>
      match s with
      | [] => false
      | _ :: s' => contains_chars needle s'
      end
  end.

Definition contains (needle text : string) : bool :=
  contains_chars (Py.of_str needle) (Py.of_str text).

(** [self.known_intents], in the order of the dict. *)
Definition known_intents : list (string * list string) :=
  [("create", ["create"; "make"; "new"; "add"; "spin up"]);
   ("delete", ["delete"; "remove"; "destroy"; "tear down"]);
   ("list", ["list"; "show"; "get"; "display"; "view"]);
   ("update", ["update"; "modify"; "change"; "edit"]);
   ("sync", ["sync"; "synchronize"; "mirror"; "replicate"]);
   ("deploy", ["deploy"; "release"; "ship"; "publish"])].

(** The two loops of [_classify_intent] over the items [intents] of the
    dict: the first intent one of whose keywords occurs in [lower]. *)
Fixpoint intent_loop (lower : string) (intents : list (string * list string))
  : option string :=
  match intents with
  | [] => None
  | (intent, keywords) :: rest =>
      if existsb (fun keyword => contains keyword lower) keywords
      then Some intent
      else intent_loop lower rest
  end.

Definition _classify_intent (intents : list (string * list string))
    (input_text : string) : option string :=
  intent_loop (Py.lower input_text) intents.

(** [self.known_intents.get(intent, [])] *)
Fixpoint keywords_of (intents : list (string * list string)) (intent : string)
  : list string :=
  match intents with
  | [] => []
  | (name, keywords) :: rest =>
      if String.eqb name intent then keywords else keywords_of rest intent
  end.

(** [str.isdigit]: at least one character, and digits only. *)
Definition isdigit (word : string) : bool :=
  match Py.of_str word with
  | [] => false
  | cs => forallb Py.isdigit cs
  end.

(** The first loop of [_suggest_pattern], for one word. *)
Definition pattern_word (keywords : list string) (word : string) : string :=
  if existsb (String.eqb (Py.lower word)) keywords then word
  else if isdigit word then "*"
  else if (3 <? String.length word)%nat then "*"
  else word.

(** The second loop of [_suggest_pattern]: a wildcard that follows a
    wildcard is dropped. *)
Fixpoint collapse (prev_wildcard : bool) (pattern_words : list string)
  : list string :=
  match pattern_words with
  | [] => []
  | word :: rest =>
      if String.eqb word "*"
      then if prev_wildcard then collapse true rest
           else "*" :: collapse true rest
      else word :: collapse false rest
  end.

(** The tokens [_suggest_pattern] joins. *)
Definition suggested_words (intents : list (string * list string))
    (input_text intent : string) : list string :=
  let words := Py.split (Py.upper input_text) in
  collapse false (map (pattern_word (keywords_of intents intent)) words).

Definition _suggest_pattern (intents : list (string * list string))
    (input_text intent : string) : string :=
  Py.join " " (suggested_words intents input_text intent).

End LLM.

(** A result of the combined engine.  The [learn] field of a result of
    the interpreter is a dict with the keys [pattern] and [workflow];
    the one [handle] builds has the keys [pattern] and [intent] and goes
    with the action [suggest_learn]. *)
Inductive Reply : Type :=
| Answer (r : ActionResult)
| Suggest (reply_text suggested_pattern suggested_intent : string).

Definition nl : string := String (Py.chr 10) EmptyString.

(** [ActionResult(text=text)] *)
Definition text_only (text : string) : ActionResult :=
  mkActionResult text None None None None None None.

(** [AIMLActionsEngine]: the pattern engine with the random draws ahead of
    it, and the suggestion that waits for a confirmation. *)
Record AIMLActionsEngine : Type := mkAIMLActionsEngine {
  aiml : World;
  pending_learn : option (string * string)
}.

Module Actions.

Section Fallback.

Variable intents : list (string * list string).
(** The text [_generate_response] obtains from a language model, or its
    fixed fallback text; every path of it returns
    [ActionResult(text=text)]. *)
Variable generate_text : string -> string.

(** [LLMFallback.handle] *)
Definition handle (input_text : string) : Reply :=
  match LLM._classify_intent intents input_text with
  | Some intent =>
      let pattern := LLM._suggest_pattern intents input_text intent in
      Suggest
        ("I don't have a pattern for that yet, but I can learn!" ++ nl ++ nl
         ++ "Suggested pattern: `" ++ pattern ++ "`" ++ nl ++ nl
         ++ "Should I add this to my knowledge?")
        pattern intent
  | None => Answer (text_only (generate_text input_text))
  end.

Variable ET_fromstring : string -> option ET.Element.
Variable json_loads : string -> Decoded.
Variable py_eval : string -> option string.

Definition confirmations : list string := ["yes"; "y"; "sure"; "ok"; "learn"].

(** [AIMLActionsEngine.respond] *)
Definition respond (limit : nat) (self : AIMLActionsEngine) (input_text : string)
  : Outcome (Reply * AIMLActionsEngine) :=
  match pending_learn self with
  | Some (pattern, _) =>
      if existsb (String.eqb (Py.lower input_text)) confirmations
      then
        let learned :=
          Engine.add_category (engine (aiml self)) pattern
            ("Executing " ++ pattern ++ "...") "*" in
        Ok (Answer (text_only
                      ("Learned! I'll remember `" ++ pattern ++ "` for next time.")),
            mkAIMLActionsEngine (mkWorld learned (pending_draws (aiml self))) None)
      else
        Ok (Answer (text_only "No problem, I won't learn that pattern."),
            mkAIMLActionsEngine (aiml self) None)
  | None =>
      match respond ET_fromstring json_loads py_eval limit (aiml self) input_text with
      | Raise e => Raise e
      | Ok (Some r, w) => Ok (Answer r, mkAIMLActionsEngine w None)
      | Ok (None, w) =>
          match handle input_text with
          | Suggest t pattern intent =>
              Ok (Suggest t pattern intent,
                  mkAIMLActionsEngine w (Some (pattern, intent)))
          | Answer r => Ok (Answer r, mkAIMLActionsEngine w None)
          end
      end
  end.

(** [AIMLActionsEngine.set_topic] *)
Definition set_topic (self : AIMLActionsEngine) (topic : string)
  : AIMLActionsEngine :=
  mkAIMLActionsEngine
    (mkWorld (Engine.set_topic (engine (aiml self)) topic)
       (pending_draws (aiml self)))
    (pending_learn self).

End Fallback.

End Actions.

(* ------------------------------------------------------------------ *)
(** ** Vocabulary of the properties of the fallback *)

(** Two wildcards in a row. *)
Fixpoint adjacent_wildcards (words : list string) : bool :=
  match words with
  | a :: (b :: _) as rest =>
      (String.eqb a "*" && String.eqb b "*") || adjacent_wildcards rest
  | _ => false
  end.

(** [Covers tokens words]: the tokens of a pattern taken one by one
    account for all the words, a token that is not the star for the word
    it spells, a star for one word or more. *)
Inductive Covers : list string -> list Py.chars -> Prop :=
| Covers_nil : Covers [] []
| Covers_word : forall w tokens words,
    Covers tokens words -> Covers (Py.to_str w :: tokens) (w :: words)
| Covers_star : forall run tokens words,
    run <> [] -> Covers tokens words -> Covers ("*" :: tokens) (run ++ words)%list.

(** What follows a token in the expression of a pattern, and what
    follows a word in a text of words one space apart. *)
Definition regex_after (tokens : list string) : list Re.atom :=
  match tokens with
  | [] => [Re.Spaces0; Re.EndAnchor]
  | _ => Re.Spaces1
         :: (Re.join_atoms Re.Spaces1 (regex_parts tokens)
             ++ [Re.Spaces0; Re.EndAnchor])%list
  end.

Definition text_after (words : list Py.chars) : Py.chars :=
  match words with
  | [] => []
  | _ => space :: join_chars [space] words
  end.

(** The words of the upper-cased input, as [_suggest_pattern] reads
    them. *)
Definition upper_words (input_text : string) : list Py.chars :=
  Py.split_chars [] (map Py.upper_char (Py.of_str input_text)).

(** A language model that stays silent, and a parser that knows the
    template learned for [deploy the frontend 42]. *)
Definition silent_model : string -> string := fun _ => "".

Definition learned_reply : string := "Executing DEPLOY THE *...".

Definition learned_fromstring : string -> option ET.Element :=
  table [("<template>" ++ learned_reply ++ "</template>",
          ET.Elem "template" [] (Some learned_reply) [] None)].

(* ------------------------------------------------------------------ *)
(** ** Loading categories from AIML files *)

Module Loader.

(** [element.find(name)] for a plain tag name: the first direct child
    with that tag. *)
Definition find (e : ET.Element) (name : string) : option ET.Element :=
  List.hd_error (ET.findall e name).

(** [_get_text] *)
Definition _get_text (element : option ET.Element) : string :=
  match element with
  | None => ""
  | Some e => ET.itertext e
  end.

Section Files.

(** [ET.tostring(element, encoding="unicode", method="xml")] *)
Variable ET_tostring : ET.Element -> string.
(** [ET.parse(filepath).getroot()]; [None] when the file cannot be read
    or is not well-formed. *)
Variable ET_parse : string -> option ET.Element.
(** [Path(patterns_dir).glob("*.aiml")]; [None] when the directory does
    not exist. *)
Variable glob_aiml : string -> option (list string).

(** [_parse_category] *)
Definition _parse_category (self : AIMLEngine) (element : ET.Element)
    (topic : string) : AIMLEngine :=
  let pattern_elem := find element "pattern" in
  let template_elem := find element "template" in
  let that_elem := find element "that" in
  match pattern_elem, template_elem with
  | Some _, Some template_elem =>
      let pattern := Py.strip (Py.upper (_get_text pattern_elem)) in
      let template := ET_tostring template_elem in
      let that :=
        match that_elem with
        | Some _ => Some (Py.strip (Py.upper (_get_text that_elem)))
        | None => None
        end in
      mkAIMLEngine
        (categories self ++ [mkCategory pattern template that (Some topic)])%list
        (variables self) (self_topic self) (self_that self) (history self)
  | _, _ => self
  end.

(** The loop [for category in element.findall("category")]. *)
Fixpoint parse_categories (self : AIMLEngine) (elements : list ET.Element)
    (topic : string) : AIMLEngine :=
  match elements with
  | [] => self
  | category :: rest =>
      parse_categories (_parse_category self category topic) rest topic
  end.

(** The loop [for element in root] of [load_file]. *)
Fixpoint load_elements (self : AIMLEngine) (current_topic : string)
    (elements : list ET.Element) : AIMLEngine :=
  match elements with
  | [] => self
  | element :: rest =>
      if String.eqb (ET.tag element) "topic" then
        let current_topic := ET.get_default element "name" "*" in
        load_elements
          (parse_categories self (ET.findall element "category") current_topic)
          current_topic rest
      else if String.eqb (ET.tag element) "category" then
        load_elements (_parse_category self element current_topic)
          current_topic rest
      else load_elements self current_topic rest
  end.

(** [load_file]; the exception it catches is reported and the engine
    stays as it is. *)
Definition load_file (self : AIMLEngine) (filepath : string) : AIMLEngine :=
  match ET_parse filepath with
  | Some root => load_elements self "*" (ET.children root)
  | None => self
  end.

(** [load_patterns] *)
Definition load_patterns (self : AIMLEngine) (patterns_dir : string) : AIMLEngine :=
  match glob_aiml patterns_dir with
  | None => self
  | Some files => fold_left load_file files self
  end.

End Files.

End Loader.

(** What loading leaves in place: the categories held before, in their
    order and at the front, and the rest of the engine. *)
Definition loads_onto (self self' : AIMLEngine) (loaded : list Category) : Prop :=
  categories self' = (categories self ++ loaded)%list
  /\ variables self' = variables self
  /\ self_topic self' = self_topic self
  /\ self_that self' = self_that self
  /\ history self' = history self.

(** A loaded category: it has a topic, and no lower-case letter in its
    pattern or in its preceding response. *)
Definition loaded_shape (c : Category) : Prop :=
  topic c <> None
  /\ Forall (fun x => Py.islower x = false) (Py.of_str (pattern c))
  /\ (forall t, that c = Some t ->
        Forall (fun x => Py.islower x = false) (Py.of_str t)).

(** A file with a [topic] element that holds one category and is
    followed by another category. *)
Definition greeting_element (word : string) : ET.Element :=
  ET.Elem "category" [] None
    [ET.Elem "pattern" [] (Some word) [] None;
     ET.Elem "template" [] (Some "Hello.") [] None] None.

Definition topic_file : ET.Element :=
  ET.Elem "aiml" [] None
    [ET.Elem "topic" [("name", "devops")] None [greeting_element "hi"] None;
     greeting_element "hey"] None.

Definition example_tostring : ET.Element -> string :=
  fun _ => "<template>Hello.</template>".

(** What a pass of the loader adds to an engine. *)
Definition Loads (self self' : AIMLEngine) : Prop :=
  exists loaded, loads_onto self self' loaded /\ Forall loaded_shape loaded.

(* ------------------------------------------------------------------ *)
(** ** Vocabulary of the properties of single tags *)

(** The test of the loop of [condition] over its [li] children. *)
Definition li_passes (name : option string) (vars : list (string * string))
    (li : ET.Element) : bool :=
  let li_name :=
    match ET.get li "name" with Some n => Some n | None => name end in
  let li_value := ET.get li "value" in
  match li_value with None => true | Some _ => false end
  || option_string_eqb (variables_get_opt vars li_name) li_value.

(** The text has no white space at either end. *)
Definition stripped (s : string) : Prop := Py.strip s = s.

(** The first character, if any, is not white space. *)
Definition clean_head (s : Py.chars) : Prop :=
  match s with
  | [] => True
  | c :: _ => Py.isspace c = false
  end.

(** A [condition] with a default branch in the middle. *)
Definition branches : list ET.Element :=
  [ET.Elem "li" [("name", "env"); ("value", "prod")] (Some "Careful.") [] None;
   ET.Elem "li" [] (Some "Go ahead.") [] None;
   ET.Elem "li" [("name", "env"); ("value", "dev")] (Some "Never said.") [] None].

Definition branching : ET.Element :=
  ET.Elem "condition" [] None branches None.

(* ------------------------------------------------------------------ *)
(** ** The search of [re.match] yields alignments *)

Lemma greedy_spaces_inv (k : Py.chars -> option (list string)) :
  forall s found,
    Re.greedy_spaces k s = Some found ->
    exists sp rest,
      s = (sp ++ rest)%list /\ Forall (fun c => Py.isspace c = true) sp
      /\ k rest = Some found.
Proof.
  induction s as [|c s IH]; intros found H; simpl in H.
  - exists [], []. auto.
  - destruct (Py.isspace c) eqn:Hc.
    + destruct (Re.greedy_spaces k s) as [inner|] eqn:Hs.
      * injection H as <-.
        destruct (IH _ eq_refl) as (sp & rest & -> & Hsp & Hk).
        exists (c :: sp), rest. auto.
      * exists [], (c :: s). auto.
    + exists [], (c :: s). auto.
Qed.

Lemma lazy_dots_inv (k : Py.chars -> option (list string)) :
  forall s taken found,
    Re.lazy_dots k taken s = Some found ->
    exists span rest found',
      s = (span ++ rest)%list /\ Forall (fun c => Re.dot c = true) span
      /\ k rest = Some found'
      /\ found = Py.to_str (rev taken ++ span)%list :: found'.
Proof.
  induction s as [|c s IH]; intros taken found H; simpl in H.
  - destruct (k []) as [inner|] eqn:Hk; [|discriminate].
    injection H as <-. exists [], [], inner.
    repeat split; auto. now rewrite app_nil_r.
  - destruct (k (c :: s)) as [inner|] eqn:Hk.
    + injection H as <-. exists [], (c :: s), inner.
      repeat split; auto. now rewrite app_nil_r.
    + destruct (Re.dot c) eqn:Hc; [|discriminate].
      destruct (IH _ _ H) as (span & rest & found' & -> & Hspan & Hrest & ->).
      exists (c :: span), rest, found'.
      repeat split; auto. simpl. now rewrite <- app_assoc.
Qed.

Lemma eat_literal_inv :
  forall word s rest,
    Re.eat_literal word s = Some rest ->
    exists span,
      s = (span ++ rest)%list
      /\ Forall2 (fun a b => Re.same_letter a b = true) word span.
Proof.
  induction word as [|a word IH]; intros s rest H; simpl in H.
  - injection H as <-. exists []. auto.
  - destruct s as [|b s]; [discriminate|].
    destruct (Re.same_letter a b) eqn:Hab; [|discriminate].
    destruct (IH _ _ H) as (span & -> & Hspan).
    exists (b :: span). auto.
Qed.

Lemma run_sound :
  forall r s found, Re.run r s = Some found -> Aligned r s found.
Proof.
  induction r as [|a r IH]; intros s found H.
  - simpl in H. injection H as <-. constructor.
  - destruct a; simpl in H.
    + apply greedy_spaces_inv in H as (sp & rest & -> & Hsp & Hk).
      constructor; auto.
    + destruct s as [|c s]; [discriminate|].
      destruct (Py.isspace c) eqn:Hc; [|discriminate].
      apply greedy_spaces_inv in H as (sp & rest & -> & Hsp & Hk).
      apply (@Aligned_spaces1 (c :: sp)); auto. discriminate.
    + destruct (Re.eat_literal word s) as [rest|] eqn:He; [|discriminate].
      apply eat_literal_inv in He as (span & -> & Hspan).
      constructor; auto.
    + destruct s as [|c s]; [discriminate|].
      destruct (Re.dot c) eqn:Hc; [|discriminate].
      apply lazy_dots_inv in H as (span & rest & found' & -> & Hspan & Hk & ->).
      apply (@Aligned_lazy1 (c :: span)); auto. discriminate.
    + apply lazy_dots_inv in H as (span & rest & found' & -> & Hspan & Hk & ->).
      apply Aligned_lazy0; auto.
    + destruct (Re.at_end s) eqn:He; [|discriminate].
      constructor; auto.
Qed.

Lemma Aligned_groups :
  forall r s found, Aligned r s found -> List.length found = Re.groups r.
Proof.
  induction 1; unfold Re.groups in *; simpl; auto.
Qed.

Lemma is_group_compile_part :
  forall part, Re.is_group (fst (compile_part part)) = is_wildcard part.
Proof.
  intros part. unfold compile_part, is_wildcard.
  destruct (String.eqb part "*"); [reflexivity|].
  destruct (String.eqb part "_"); [reflexivity|].
  destruct (String.eqb part "#"); [reflexivity|].
  destruct (String.eqb part "^"); reflexivity.
Qed.

Lemma groups_regex_parts :
  forall parts, Re.groups (regex_parts parts) = wildcard_count parts.
Proof.
  unfold Re.groups, wildcard_count, regex_parts.
  induction parts as [|p parts IH]; simpl; [reflexivity|].
  rewrite is_group_compile_part.
  destruct (is_wildcard p); simpl; congruence.
Qed.

Lemma groups_join_atoms :
  forall parts, Re.groups (Re.join_atoms Re.Spaces1 parts) = Re.groups parts.
Proof.
  unfold Re.groups.
  induction parts as [|p [|q parts] IH]; try reflexivity.
  change (Re.join_atoms Re.Spaces1 (p :: q :: parts))
    with (p :: Re.Spaces1 :: Re.join_atoms Re.Spaces1 (q :: parts)).
  simpl filter in *. destruct (Re.is_group p); simpl; rewrite IH; reflexivity.
Qed.

Lemma groups_pattern_regex :
  forall parts, Re.groups (pattern_regex parts) = wildcard_count parts.
Proof.
  intros parts.
  rewrite <- groups_regex_parts, <- (groups_join_atoms (regex_parts parts)).
  unfold pattern_regex, Re.groups. simpl filter.
  rewrite filter_app, length_app. simpl. apply Nat.add_0_r.
Qed.

Lemma _pattern_match_found :
  forall pattern input_text found score,
    _pattern_match pattern input_text = (Some found, score) ->
    Re.run (pattern_regex (Py.split pattern)) (Py.of_str input_text) = Some found
    /\ score = pattern_score (Py.split pattern).
Proof.
  intros pattern input_text found score H. unfold _pattern_match, Re.match_groups in H.
  destruct (Re.run _ _) as [g|]; [|discriminate].
  injection H as -> <-. auto.
Qed.

(** A successful [_pattern_match] returns one captured span per wildcard
    token, each the piece of the input its token was aligned with. *)
Lemma _pattern_match_aligned :
  forall pattern input_text found score,
    _pattern_match pattern input_text = (Some found, score) ->
    List.length found = wildcard_count (Py.split pattern)
    /\ Aligned (pattern_regex (Py.split pattern)) (Py.of_str input_text) found.
Proof.
  intros pattern input_text found score H.
  apply _pattern_match_found in H as [Hrun _].
  apply run_sound in Hrun. split; [|exact Hrun].
  rewrite (Aligned_groups Hrun). apply groups_pattern_regex.
Qed.

(* ------------------------------------------------------------------ *)
(** ** Texts without white space *)

Lemma greedy_spaces_spaceless (k : Py.chars -> option (list string)) :
  forall s, spaceless s -> Re.greedy_spaces k s = k s.
Proof.
  intros [|c s] H; simpl; [reflexivity|].
  inversion H as [|? ? Hc _]; subst. now rewrite Hc.
Qed.

Lemma spaces1_spaceless :
  forall r s, spaceless s -> Re.run (Re.Spaces1 :: r) s = None.
Proof.
  intros r [|c s] H; simpl; [reflexivity|].
  inversion H as [|? ? Hc _]; subst. now rewrite Hc.
Qed.

Lemma lazy_dots_spaceless (k : Py.chars -> option (list string)) :
  (forall s, spaceless s -> k s = None) ->
  forall s taken, spaceless s -> Re.lazy_dots k taken s = None.
Proof.
  intros Hk. induction s as [|c s IH]; intros taken H; simpl.
  - now rewrite (Hk [] H).
  - rewrite (Hk _ H). inversion H; subst.
    destruct (Re.dot c); [apply IH; assumption | reflexivity].
Qed.

Lemma eat_literal_spaceless :
  forall word s rest,
    Re.eat_literal word s = Some rest -> spaceless s -> spaceless rest.
Proof.
  induction word as [|a word IH]; intros s rest H Hs; simpl in H.
  - now injection H as <-.
  - destruct s as [|b s]; [discriminate|].
    destruct (Re.same_letter a b); [|discriminate].
    inversion Hs; subst. eapply IH; eassumption.
Qed.

Lemma compile_part_cases :
  forall part,
    fst (compile_part part) = Re.Lazy1 \/ fst (compile_part part) = Re.Lazy0
    \/ fst (compile_part part) = Re.Literal (Py.of_str part).
Proof.
  intros part. unfold compile_part.
  repeat match goal with
         | |- context [if ?b then _ else _] => destruct b
         end; simpl; auto.
Qed.

(** Two tokens are always joined by [\s+], which needs a white-space
    character of the input. *)
Lemma two_parts_need_space :
  forall p q parts s,
    spaceless s -> Re.run (pattern_regex (p :: q :: parts)) s = None.
Proof.
  intros p q parts s Hs. unfold pattern_regex, regex_parts.
  change (Re.run (Re.Spaces0 :: fst (compile_part p) :: Re.Spaces1
                    :: (Re.join_atoms Re.Spaces1
                          (map (fun part => fst (compile_part part)) (q :: parts))
                        ++ [Re.Spaces0; Re.EndAnchor])%list) s = None).
  set (tail := (Re.join_atoms _ _ ++ _)%list).
  change (Re.greedy_spaces (Re.run (fst (compile_part p) :: Re.Spaces1 :: tail)) s = None).
  rewrite greedy_spaces_spaceless by assumption.
  destruct (compile_part_cases p) as [E|[E|E]]; rewrite E.
  - destruct s as [|c s]; simpl; [reflexivity|].
    destruct (Re.dot c); [|reflexivity].
    inversion Hs; subst.
    apply lazy_dots_spaceless; [apply spaces1_spaceless | assumption].
  - apply (@lazy_dots_spaceless (Re.run (Re.Spaces1 :: tail)));
      [apply spaces1_spaceless | assumption].
  - change (match Re.eat_literal (Py.of_str p) s with
            | Some s' => Re.run (Re.Spaces1 :: tail) s'
            | None => None
            end = None).
    destruct (Re.eat_literal (Py.of_str p) s) as [rest|] eqn:He; [|reflexivity].
    apply spaces1_spaceless. eapply eat_literal_spaceless; eassumption.
Qed.

Lemma count_spaces_app :
  forall a b, count_spaces (a ++ b)%list = count_spaces a + count_spaces b.
Proof.
  intros a b. unfold count_spaces. now rewrite filter_app, length_app.
Qed.

(** Each [\s+] of the expression uses up a white-space character of the
    text. *)
Lemma Aligned_separators :
  forall r s found, Aligned r s found -> separators r <= count_spaces s.
Proof.
  induction 1 as [s| sp r s found Hsp _ IH | sp r s found Hne Hsp _ IH
                 | word span r s found _ _ IH | span r s found _ _ _ IH
                 | span r s found _ _ IH | r s found _ _ IH];
    unfold separators in *; simpl; try rewrite count_spaces_app; try lia.
  destruct sp as [|c sp]; [contradiction|].
  inversion Hsp as [|? ? Hc _]; subst.
  unfold count_spaces at 1. simpl. rewrite Hc. simpl. lia.
Qed.

Lemma separators_join_atoms :
  forall parts,
    Forall (fun a => is_separator a = false) parts ->
    separators (Re.join_atoms Re.Spaces1 parts) = List.length parts - 1.
Proof.
  unfold separators.
  induction parts as [|p [|q parts] IH]; intros H; try reflexivity.
  - inversion H as [|? ? Hp _]; subst. simpl. now rewrite Hp.
  - inversion H as [|? ? Hp Hrest]; subst.
    change (Re.join_atoms Re.Spaces1 (p :: q :: parts))
      with (p :: Re.Spaces1 :: Re.join_atoms Re.Spaces1 (q :: parts)).
    simpl filter. rewrite Hp. simpl List.length in *.
    rewrite (IH Hrest). lia.
Qed.

Lemma regex_parts_not_separators :
  forall parts, Forall (fun a => is_separator a = false) (regex_parts parts).
Proof.
  induction parts as [|p parts IH]; constructor; [|exact IH].
  destruct (compile_part_cases p) as [E|[E|E]]; rewrite E; reflexivity.
Qed.

Lemma separators_pattern_regex :
  forall parts, separators (pattern_regex parts) = List.length parts - 1.
Proof.
  intros parts.
  rewrite <- (length_map (fun part => fst (compile_part part)) parts).
  fold (regex_parts parts).
  rewrite <- (separators_join_atoms (regex_parts_not_separators parts)).
  unfold pattern_regex, separators. simpl filter.
  rewrite filter_app, length_app. simpl. apply Nat.add_0_r.
Qed.

(** A pattern of n tokens only matches a text with at least n - 1
    white-space characters. *)
Lemma match_needs_separators :
  forall pattern input_text found score,
    _pattern_match pattern input_text = (Some found, score) ->
    List.length (Py.split pattern) <= S (count_spaces (Py.of_str input_text)).
Proof.
  intros pattern input_text found score H.
  apply _pattern_match_found in H as [Hrun _].
  apply run_sound, Aligned_separators in Hrun.
  rewrite separators_pattern_regex in Hrun. lia.
Qed.

(** C3. The patterns [# HELLO] and [^ HELLO] do not match the input
    [HELLO]: the narrow wildcard cannot capture zero words in front of a
    literal word.  It captures the word [SAY] of [SAY HELLO]; in general a
    pattern only matches an input that has a white-space character for
    each gap between two of its tokens. *)
Theorem narrow_wildcard_before_literal_fails :
  _pattern_match "# HELLO" "HELLO" = (None, 0%Z)
  /\ _pattern_match "^ HELLO" "HELLO" = (None, 0%Z)
  /\ _pattern_match "# HELLO" "SAY HELLO" = (Some ["SAY"], 11%Z)
  /\ (forall pattern input_text found score,
        _pattern_match pattern input_text = (Some found, score) ->
        List.length (Py.split pattern)
        <= S (count_spaces (Py.of_str input_text))).
Proof.
  split; [vm_compute; reflexivity|].
  split; [vm_compute; reflexivity|].
  split; [vm_compute; reflexivity|].
  exact match_needs_separators.
Qed.

(** C4, as the claim states it, fails: the broad high-priority token [_]
    and the narrow high-priority token [^] do not score equally. *)
Lemma high_priority_scores_differ :
  part_score "_" = 2%Z /\ part_score "^" = 3%Z /\ part_score "_" <> part_score "^".
Proof.
  repeat split. vm_compute. discriminate.
Qed.

(** C4, amended. A literal token scores 10, above every wildcard; the
    narrow high-priority token [^] scores 3, above the broad high-priority
    token [_] at 2, which is above the two low-priority tokens [*] and
    [#], equal at 1. *)
Theorem part_score_order :
  forall word,
    is_wildcard word = false ->
    part_score word = 10%Z
    /\ (part_score "^" < part_score word)%Z
    /\ (part_score "_" < part_score "^")%Z
    /\ (part_score "*" < part_score "_")%Z
    /\ part_score "#" = part_score "*".
Proof.
  intros word H.
  assert (E : part_score word = 10%Z).
  { unfold is_wildcard in H. unfold part_score, compile_part.
    destruct (String.eqb word "*"); [discriminate|].
    destruct (String.eqb word "_"); [discriminate|].
    destruct (String.eqb word "#"); [discriminate|].
    destruct (String.eqb word "^"); [discriminate|]. reflexivity. }
  rewrite E. repeat split; vm_compute; reflexivity.
Qed.

Lemma part_score_order_witness :
  part_score "HELLO" = 10%Z
  /\ (part_score "^" < part_score "HELLO")%Z
  /\ (part_score "_" < part_score "^")%Z
  /\ (part_score "*" < part_score "_")%Z
  /\ part_score "#" = part_score "*".
Proof.
  apply (@part_score_order "HELLO"). reflexivity.
Defined.

(** C8, as the claim states it, fails: end to end the input is
    normalized first, so the captured spans are not [cat] and [dog]. *)
Lemma either_captures_are_not_lower_case :
  stars (_match_pattern (fresh_engine [either_category]) (_normalize "cat or dog"))
  <> ["cat"; "dog"].
Proof.
  vm_compute. discriminate.
Qed.

(** C8, amended. With a category whose pattern is [* OR *], the input
    [cat or dog] is normalized to [CAT OR DOG], matches, and the captured
    spans are exactly [CAT] and [DOG]; [_pattern_match] applied to the text
    that was not normalized captures [cat] and [dog]. *)
Theorem either_captures_upper_case :
  _normalize "cat or dog" = "CAT OR DOG"
  /\ _match_pattern (fresh_engine [either_category]) (_normalize "cat or dog")
     = mkPatternMatch true ["CAT"; "DOG"] (Some either_category)
  /\ _pattern_match "* OR *" "cat or dog" = (Some ["cat"; "dog"], 12%Z).
Proof.
  repeat split; vm_compute; reflexivity.
Qed.

(* ------------------------------------------------------------------ *)
(** ** Selection of the best category *)

Lemma part_score_nonneg : forall part, (0 <= part_score part)%Z.
Proof.
  intros part. unfold part_score, compile_part.
  repeat match goal with
         | |- context [if ?b then _ else _] => destruct b
         end; simpl; lia.
Qed.

Lemma pattern_score_from :
  forall parts start,
    (start <= fold_left (fun score part => (score + part_score part)%Z) parts start)%Z.
Proof.
  induction parts as [|p parts IH]; intros start; simpl; [lia|].
  specialize (IH (start + part_score p)%Z).
  pose proof (part_score_nonneg p). lia.
Qed.

Lemma _pattern_match_score_nonneg :
  forall pattern input_text found score,
    _pattern_match pattern input_text = (found, score) -> (0 <= score)%Z.
Proof.
  intros pattern input_text found score H. unfold _pattern_match in H.
  destruct (Re.match_groups _ _); injection H as _ <-; [|lia].
  apply pattern_score_from.
Qed.

Lemma eligible_false :
  forall self c,
    topic_differs self c = true \/ that_differs self c = true ->
    eligible self c = false.
Proof.
  intros self c [H|H]; unfold eligible; rewrite H; simpl; auto.
  apply andb_false_r.
Qed.

Lemma nth_error_snoc :
  forall (A : Type) (seen : list A) (c : A) j x,
    nth_error (seen ++ [c]) j = Some x ->
    (j < List.length seen /\ nth_error seen j = Some x)
    \/ (j = List.length seen /\ x = c).
Proof.
  intros A seen c j x H.
  destruct (Nat.lt_ge_cases j (List.length seen)) as [Hlt|Hge].
  - left. split; [assumption|]. now rewrite nth_error_app1 in H.
  - right. rewrite nth_error_app2 in H by assumption.
    destruct (j - List.length seen) as [|k] eqn:E; simpl in H.
    + injection H as <-. split; [lia | reflexivity].
    + destruct k; discriminate.
Qed.

(** A category that is not a candidate leaves the invariant as it is. *)
Lemma loop_invariant_skip :
  forall self input_text seen c best best_score,
    (forall found score, ~ candidate self input_text c found score) ->
    loop_invariant self input_text seen best best_score ->
    loop_invariant self input_text (seen ++ [c]) best best_score.
Proof.
  intros self input_text seen c best best_score Hc [(Hb & Hs & Hnone)|Hsome].
  - left. split; [assumption|]. split; [assumption|].
    intros c' found score Hin. apply in_app_or in Hin as [Hin|[<-|[]]].
    + now apply Hnone.
    + apply Hc.
  - right. destruct Hsome as (i & w & found & Hb & Hi & Hw & Hmax).
    exists i, w, found.
    split; [assumption|]. split; [|split; [assumption|]].
    + rewrite nth_error_app1; [assumption|].
      apply nth_error_Some. congruence.
    + intros j c' found' score' Hj Hcand.
      destruct (nth_error_snoc _ _ _ Hj) as [[_ Hj']|[_ ->]].
      * apply (Hmax _ _ _ _ Hj' Hcand).
      * destruct (Hc _ _ Hcand).
Qed.

(** A candidate that beats the best score becomes the best match. *)
Lemma loop_invariant_better :
  forall self input_text seen c found score best best_score,
    candidate self input_text c found score ->
    (best_score < score)%Z ->
    loop_invariant self input_text seen best best_score ->
    loop_invariant self input_text (seen ++ [c])
      (mkPatternMatch true found (Some c)) score.
Proof.
  intros self input_text seen c found score best best_score Hcand Hlt Inv.
  right. exists (List.length seen), c, found.
  split; [reflexivity|]. split; [|split; [assumption|]].
  - rewrite nth_error_app2 by lia. now rewrite Nat.sub_diag.
  - intros j c' found' score' Hj Hcand'.
    destruct (nth_error_snoc _ _ _ Hj) as [[Hlen Hj']|[-> ->]].
    + destruct Inv as [(_ & _ & Hnone)|(i & w & fw & _ & _ & _ & Hmax)].
      * apply nth_error_In in Hj'. destruct (Hnone _ _ _ Hj' Hcand').
      * destruct (Hmax _ _ _ _ Hj' Hcand'). lia.
    + destruct Hcand as [_ E], Hcand' as [_ E']. rewrite E in E'.
      injection E' as _ <-. lia.
Qed.

(** A candidate that does not beat the best score changes nothing. *)
Lemma loop_invariant_not_better :
  forall self input_text seen c found score best best_score,
    candidate self input_text c found score ->
    (score <= best_score)%Z ->
    loop_invariant self input_text seen best best_score ->
    loop_invariant self input_text (seen ++ [c]) best best_score.
Proof.
  intros self input_text seen c found score best best_score Hcand Hle Inv.
  destruct Inv as [(_ & Hs & _)|(i & w & fw & Hb & Hi & Hw & Hmax)].
  { destruct Hcand as [_ E]. apply _pattern_match_score_nonneg in E. lia. }
  right. exists i, w, fw.
  assert (Hlen : i < List.length seen) by (apply nth_error_Some; congruence).
  split; [assumption|]. split; [|split; [assumption|]].
  - now rewrite nth_error_app1.
  - intros j c' found' score' Hj Hcand'.
    destruct (nth_error_snoc _ _ _ Hj) as [[_ Hj']|[-> ->]].
    + apply (Hmax _ _ _ _ Hj' Hcand').
    + destruct Hcand as [_ E], Hcand' as [_ E']. rewrite E in E'.
      injection E' as _ <-. lia.
Qed.

Lemma match_loop_invariant :
  forall self input_text rest seen best best_score,
    loop_invariant self input_text seen best best_score ->
    exists final_score,
      loop_invariant self input_text (seen ++ rest)
        (match_loop self input_text rest best best_score) final_score.
Proof.
  intros self input_text. induction rest as [|c rest IH]; intros seen best best_score Inv.
  - exists best_score. now rewrite app_nil_r.
  - replace (seen ++ c :: rest)%list with ((seen ++ [c]) ++ rest)%list
      by (rewrite <- app_assoc; reflexivity).
    simpl.
    destruct (topic_differs self c) eqn:Ht.
    { apply IH, loop_invariant_skip; [|assumption].
      intros found score [He _]. rewrite eligible_false in He; auto. discriminate. }
    destruct (that_differs self c) eqn:Hth.
    { apply IH, loop_invariant_skip; [|assumption].
      intros found score [He _]. rewrite eligible_false in He; auto. discriminate. }
    assert (He : eligible self c = true) by (unfold eligible; now rewrite Ht, Hth).
    destruct (_pattern_match (pattern c) input_text) as [[found|] score] eqn:Hpm.
    2:{ apply IH, loop_invariant_skip; [|assumption].
        intros found' score' [_ Hc]. congruence. }
    assert (Hcand : candidate self input_text c found score) by (split; assumption).
    destruct (best_score <? score)%Z eqn:Hlt.
    + apply Z.ltb_lt in Hlt. apply IH.
      eapply loop_invariant_better; eassumption.
    + apply Z.ltb_ge in Hlt. apply IH.
      eapply loop_invariant_not_better; eassumption.
Qed.

Lemma _match_pattern_shape :
  forall self input_text,
    _match_pattern self input_text = mkPatternMatch false [] None
    \/ (exists c found,
          _match_pattern self input_text = mkPatternMatch true found (Some c)
          /\ In c (categories self)).
Proof.
  intros self input_text. unfold _match_pattern.
  destruct (@match_loop_invariant self input_text (categories self) []
              (mkPatternMatch false [] None) (-1)%Z) as [final Inv].
  { left. split; [reflexivity|]. split; [reflexivity|].
    intros c found score []. }
  simpl in Inv.
  destruct Inv as [(Hb & _ & _)|(i & c & found & Hb & Hi & _ & _)].
  - left. assumption.
  - right. exists c, found. split; [assumption|].
    eapply nth_error_In. eassumption.
Qed.

(** C5. [_match_pattern] returns, among the categories that pass the topic
    and preceding-response filters and whose pattern aligns with the
    input, one of the highest score, and of those the first in the order
    of the category store: every candidate before it scores strictly less
    and none scores more.  Without a candidate the result is unmatched. *)
Theorem best_match_selected :
  forall self input_text,
    (_match_pattern self input_text = mkPatternMatch false [] None
     /\ forall c found score,
          In c (categories self) -> ~ candidate self input_text c found score)
    \/ (exists i c found score,
          _match_pattern self input_text = mkPatternMatch true found (Some c)
          /\ nth_error (categories self) i = Some c
          /\ candidate self input_text c found score
          /\ forall j c' found' score',
               nth_error (categories self) j = Some c' ->
               candidate self input_text c' found' score' ->
               (score' <= score)%Z /\ (j < i -> (score' < score)%Z)).
Proof.
  intros self input_text. unfold _match_pattern.
  destruct (@match_loop_invariant self input_text (categories self) []
              (mkPatternMatch false [] None) (-1)%Z) as [final Inv].
  { left. split; [reflexivity|]. split; [reflexivity|].
    intros c found score []. }
  simpl in Inv.
  destruct Inv as [(Hb & _ & Hnone)|(i & c & found & Hb & Hi & Hc & Hmax)].
  - left. split; assumption.
  - right. exists i, c, found, final. auto.
Qed.

(** The captured spans of a successful [_match_pattern] are those of
    [_pattern_match] on the pattern of the winning category. *)
Lemma _match_pattern_winner :
  forall self input_text found c,
    _match_pattern self input_text = mkPatternMatch true found (Some c) ->
    exists score, candidate self input_text c found score.
Proof.
  intros self input_text found c H. unfold _match_pattern in H.
  destruct (@match_loop_invariant self input_text (categories self) []
              (mkPatternMatch false [] None) (-1)%Z) as [final Inv].
  { left. split; [reflexivity|]. split; [reflexivity|].
    intros c' found' score' []. }
  simpl in Inv. rewrite H in Inv.
  destruct Inv as [(Hb & _ & _)|(i & c' & found' & Hb & _ & Hc & _)].
  - discriminate.
  - injection Hb as -> ->. exists final. exact Hc.
Qed.

(** C6. Whenever matching succeeds -- a single [_pattern_match], or
    [_match_pattern] with its winning category -- the captured spans are
    exactly as many as the pattern has wildcard tokens, and they are the
    pieces of the input the wildcard tokens were aligned with, in
    left-to-right order. *)
Theorem captures_one_per_wildcard :
  (forall pattern input_text found score,
     _pattern_match pattern input_text = (Some found, score) ->
     List.length found = wildcard_count (Py.split pattern)
     /\ Aligned (pattern_regex (Py.split pattern)) (Py.of_str input_text) found)
  /\ (forall self input_text found c,
        _match_pattern self input_text = mkPatternMatch true found (Some c) ->
        List.length found = wildcard_count (Py.split (pattern c))
        /\ Aligned (pattern_regex (Py.split (pattern c))) (Py.of_str input_text)
             found).
Proof.
  split.
  - exact _pattern_match_aligned.
  - intros self input_text found c H.
    destruct (_match_pattern_winner _ _ H) as [score [_ Hpm]].
    exact (_pattern_match_aligned _ _ Hpm).
Qed.

Lemma captures_one_per_wildcard_witness :
  List.length ["CAT"; "DOG"] = wildcard_count (Py.split "* OR *")
  /\ Aligned (pattern_regex (Py.split "* OR *")) (Py.of_str "CAT OR DOG")
       ["CAT"; "DOG"].
Proof.
  apply (proj2 captures_one_per_wildcard (fresh_engine [either_category])
           "CAT OR DOG" ["CAT"; "DOG"] either_category).
  vm_compute. reflexivity.
Defined.

(* ------------------------------------------------------------------ *)
(** ** The empty input *)

Lemma split_chars_nonempty :
  forall s word, Forall (fun w => w <> []) (Py.split_chars word s).
Proof.
  assert (Hrev : forall (c : ascii) word, rev (c :: word) <> []).
  { intros c word E. apply (f_equal (@List.length ascii)) in E.
    rewrite length_rev in E. discriminate. }
  induction s as [|c s IH]; intros word; simpl.
  - destruct word; constructor; auto.
  - destruct (Py.isspace c).
    + destruct word; [apply IH|]. constructor; [apply Hrev | apply IH].
    + apply IH.
Qed.

Lemma split_parts_nonempty :
  forall pattern part, In part (Py.split pattern) -> Py.of_str part <> [].
Proof.
  intros pattern part H. unfold Py.split in H.
  apply in_map_iff in H as (w & <- & Hw).
  unfold Py.of_str, Py.to_str. rewrite list_ascii_of_string_of_list_ascii.
  pose proof (split_chars_nonempty (Py.of_str pattern) []) as Hall.
  rewrite Forall_forall in Hall. now apply Hall.
Qed.

Lemma single_part_empty_input :
  forall part,
    Py.of_str part <> [] ->
    String.eqb part "#" || String.eqb part "^" = false ->
    Re.run (pattern_regex [part]) [] = None.
Proof.
  intros part Hne Hnarrow. apply orb_false_elim in Hnarrow as [H1 H2].
  unfold pattern_regex, regex_parts, compile_part. simpl map.
  rewrite H1, H2.
  destruct (String.eqb part "*"); [reflexivity|].
  destruct (String.eqb part "_"); [reflexivity|].
  simpl. destruct (Py.of_str part); [contradiction | reflexivity].
Qed.

Lemma empty_input_rejected :
  forall pattern,
    accepts_empty pattern = false -> _pattern_match pattern "" = (None, 0%Z).
Proof.
  intros pattern H. unfold _pattern_match, Re.match_groups.
  unfold accepts_empty in H.
  assert (Hparts := split_parts_nonempty pattern).
  destruct (Py.split pattern) as [|p [|q parts]]; [discriminate| |].
  - change (Py.of_str "") with (@nil ascii).
    rewrite single_part_empty_input; auto. apply Hparts. now left.
  - change (Py.of_str "") with (@nil ascii).
    rewrite two_parts_need_space; [reflexivity | constructor].
Qed.

Lemma empty_input_accepted :
  forall pattern,
    accepts_empty pattern = true -> fst (_pattern_match pattern "") <> None.
Proof.
  intros pattern H. unfold _pattern_match, Re.match_groups.
  unfold accepts_empty in H.
  destruct (Py.split pattern) as [|p [|q parts]]; [|
    |discriminate].
  - simpl. discriminate.
  - apply orb_true_iff in H as [H|H]; apply String.eqb_eq in H; subst;
      simpl; discriminate.
Qed.

Lemma match_loop_without_candidate :
  forall self input_text cats best best_score,
    (forall c, In c cats -> eligible self c = true ->
               _pattern_match (pattern c) input_text = (None, 0%Z)) ->
    match_loop self input_text cats best best_score = best.
Proof.
  intros self input_text. induction cats as [|c cats IH]; intros best best_score H.
  - reflexivity.
  - simpl.
    assert (Hrest : match_loop self input_text cats best best_score = best).
    { apply IH. intros c' Hin. apply H. now right. }
    destruct (topic_differs self c) eqn:Ht; [assumption|].
    destruct (that_differs self c) eqn:Hth; [assumption|].
    rewrite (H c); [assumption | now left |].
    unfold eligible. now rewrite Ht, Hth.
Qed.

(* ------------------------------------------------------------------ *)
(** ** Properties of the interpreter and of [respond] *)

Section Properties.

Variable ET_fromstring : string -> option ET.Element.
Variable json_loads : string -> Decoded.
Variable py_eval : string -> option string.

(** *** The branches of the tag dispatch *)

Lemma process_tag_star :
  forall respond_rec stars child run_child run_kids output,
    Py.lower (ET.tag child) = "star" ->
    process_tag json_loads py_eval respond_rec stars child run_child run_kids output
    = match Py.int (ET.get_default child "index" "1") with
      | None => raise ValueError
      | Some n =>
          if ((0 <=? n - 1) && (n - 1 <? Z.of_nat (List.length stars)))%Z
          then ret (output ++ [nth (Z.to_nat (n - 1)) stars ""])%list
          else ret output
      end.
Proof.
  intros. unfold process_tag. rewrite H. reflexivity.
Qed.

Lemma process_tag_srai :
  forall respond_rec stars child run_child run_kids output,
    Py.lower (ET.tag child) = "srai" ->
    process_tag json_loads py_eval respond_rec stars child run_child run_kids output
    = (redirect <- run_child ;;
       sub_result <- call_respond respond_rec redirect ;;
       match sub_result with
       | Some r => ret (output ++ [text r])%list
       | None => ret output
       end)%eval.
Proof.
  intros. unfold process_tag. rewrite H. reflexivity.
Qed.

Lemma process_tag_action :
  forall respond_rec stars child run_child run_kids output,
    Py.lower (ET.tag child) = "action" ->
    process_tag json_loads py_eval respond_rec stars child run_child run_kids output
    = (inputs <- load_inputs
                   (json_loads
                      (substitute_stars stars 0 stars
                         (ET.get_default child "inputs" "{}"))) ;;
       update (set_action (Some "workflow")) ;;;
       update (set_workflow (ET.get child "workflow")) ;;;
       update (set_inputs (Some inputs)) ;;;
       v <- run_child ;; ret (output ++ [v])%list)%eval.
Proof.
  intros. unfold process_tag. rewrite H. reflexivity.
Qed.

Lemma process_tag_compute :
  forall respond_rec stars child run_child run_kids output,
    Py.lower (ET.tag child) = "compute" ->
    process_tag json_loads py_eval respond_rec stars child run_child run_kids output
    = (expr <- run_child ;;
       match py_eval expr with
       | Some computed => ret (output ++ [computed])%list
       | None => ret (output ++ [expr])%list
       end)%eval.
Proof.
  intros. unfold process_tag. rewrite H. reflexivity.
Qed.

(** An element without child elements evaluates to its stripped text
    and changes nothing. *)
Lemma _process_element_leaf :
  forall respond_rec element stars st,
    ET.children element = [] ->
    _process_element json_loads py_eval respond_rec element stars st
    = Ok (finish (initial_output element), st).
Proof.
  intros respond_rec [t a x kids tl] stars st H. simpl in H. subst kids.
  reflexivity.
Qed.

(** *** Capture references out of range *)

(** C9. A [star] node whose index attribute is a number outside
    1..len(stars) -- any number when there is no capture -- adds nothing
    to the output and raises nothing: the evaluation goes on with the
    text that follows the node, in the same state.  An element with such
    a node as its only child evaluates to its own text followed by the
    text after the node. *)
Theorem star_out_of_range_ignored :
  forall respond_rec stars child run_child run_kids output st n,
    Py.lower (ET.tag child) = "star" ->
    Py.int (ET.get_default child "index" "1") = Some n ->
    (n < 1 \/ Z.of_nat (List.length stars) < n)%Z ->
    process_child json_loads py_eval respond_rec stars child run_child run_kids
      output st
    = Ok (append_tail child output, st)
    /\ (forall t a x tl,
          _process_element json_loads py_eval respond_rec (ET.Elem t a x [child] tl)
            stars st
          = Ok (finish (append_tail child
                          (initial_output (ET.Elem t a x [child] tl))), st)).
Proof.
  intros respond_rec stars child run_child run_kids output st n Htag Hint Hrange.
  assert (Hstep : forall run_child run_kids output,
             process_child json_loads py_eval respond_rec stars child run_child
               run_kids output st
             = Ok (append_tail child output, st)).
  { clear run_child run_kids output. intros run_child run_kids output.
    unfold process_child. rewrite process_tag_star by assumption. rewrite Hint.
    replace ((0 <=? n - 1) && (n - 1 <? Z.of_nat (List.length stars)))%Z
      with false; [reflexivity|].
    symmetry. apply andb_false_iff.
    destruct Hrange; [left; apply Z.leb_gt | right; apply Z.ltb_ge]; lia. }
  split; [apply Hstep|].
  intros t a x tl. cbn [_process_element]. unfold bind at 1.
  rewrite Hstep. reflexivity.
Qed.

(** *** Inputs of an action that [json.loads] does not decode *)

(** When the inputs attribute of an [action] tag, after the captures are
    substituted, is refused by [json.loads] with [JSONDecodeError],
    nothing is raised: the result gets action [workflow], the declared
    workflow name and the empty map as inputs, and the content of the tag
    is then evaluated as usual.  For a tag without child elements the
    evaluation succeeds and ends in exactly that state. *)
Lemma action_decode_error_default :
  forall respond_rec stars child run_kids output st,
    Py.lower (ET.tag child) = "action" ->
    json_loads (substitute_stars stars 0 stars (ET.get_default child "inputs" "{}"))
    = JSONDecodeError ->
    let st' :=
      set_inputs (Some (JObject []))
        (set_workflow (ET.get child "workflow")
           (set_action (Some "workflow") st)) in
    action (result st') = Some "workflow"
    /\ workflow (result st') = ET.get child "workflow"
    /\ inputs (result st') = Some (JObject [])
    /\ process_child json_loads py_eval respond_rec stars child
         (_process_element json_loads py_eval respond_rec child stars)
         run_kids output st
       = match _process_element json_loads py_eval respond_rec child stars st' with
         | Ok (v, st'') => Ok (append_tail child (output ++ [v])%list, st'')
         | Raise e => Raise e
         end
    /\ (ET.children child = [] ->
        process_child json_loads py_eval respond_rec stars child
          (_process_element json_loads py_eval respond_rec child stars)
          run_kids output st
        = Ok (append_tail child (output ++ [finish (initial_output child)])%list, st')).
Proof.
  intros respond_rec stars child run_kids output st Htag Hjson st'.
  assert (Hstep :
    process_child json_loads py_eval respond_rec stars child
      (_process_element json_loads py_eval respond_rec child stars)
      run_kids output st
    = match _process_element json_loads py_eval respond_rec child stars st' with
      | Ok (v, st'') => Ok (append_tail child (output ++ [v])%list, st'')
      | Raise e => Raise e
      end).
  { unfold process_child. rewrite process_tag_action by assumption.
    rewrite Hjson. unfold load_inputs, bind, update, ret. fold st'.
    destruct (_process_element json_loads py_eval respond_rec child stars st')
      as [[v st'']|e]; reflexivity. }
  repeat split; try assumption.
  intros Hleaf. rewrite Hstep, _process_element_leaf by assumption. reflexivity.
Qed.

(** The other two errors of [json.loads] leave the tag, before anything
    is written to the result. *)
Lemma action_uncaught_error_raises :
  forall respond_rec stars child run_child run_kids output st,
    Py.lower (ET.tag child) = "action" ->
    let decoded :=
      json_loads
        (substitute_stars stars 0 stars (ET.get_default child "inputs" "{}")) in
    (decoded = IntegerTooLong ->
     process_child json_loads py_eval respond_rec stars child run_child run_kids
       output st
     = Raise ValueError)
    /\ (decoded = NestedTooDeep ->
        process_child json_loads py_eval respond_rec stars child run_child run_kids
          output st
        = Raise RecursionError).
Proof.
  intros respond_rec stars child run_child run_kids output st Htag decoded.
  unfold process_child. rewrite process_tag_action by assumption. fold decoded.
  split; intros ->; reflexivity.
Qed.

(** *** Recursion through [srai] *)

(** A template whose first tag is an [srai] hands the outcome of the
    nested call on, when that call raises. *)
Lemma srai_first_step :
  forall (respond_rec : Respond) w input_text c root trigger e,
    selects (engine w) input_text c ->
    ET_fromstring (template c) = Some root ->
    first_srai root = Some trigger ->
    respond_rec (mkWorld (engine w) (pending_draws w)) trigger = Raise e ->
    respond_body ET_fromstring json_loads py_eval respond_rec w input_text
    = Raise e.
Proof.
  intros respond_rec w input_text c [rtag rattrs rtext kids rtail] trigger e
    [found Hsel] Hparse Hfirst Hrec.
  unfold first_srai in Hfirst. simpl in Hfirst.
  destruct kids as [|child rest]; [discriminate|].
  destruct (String.eqb (Py.lower (ET.tag child)) "srai") eqn:Htag; [|discriminate].
  apply String.eqb_eq in Htag.
  destruct (ET.children child) eqn:Hleaf; [|discriminate].
  injection Hfirst as <-.
  unfold respond_body. rewrite Hsel.
  cbn [matched negb category stars].
  unfold _process_template. rewrite Hparse.
  cbn [_process_element]. unfold bind at 1.
  unfold process_child. rewrite process_tag_srai by assumption.
  unfold bind. rewrite _process_element_leaf by assumption.
  unfold call_respond. cbn [self draws]. rewrite Hrec. reflexivity.
Qed.

Lemma respond_nested_self :
  forall c root trigger,
    ET_fromstring (template c) = Some root ->
    first_srai root = Some trigger ->
    forall limit w,
      selects (engine w) trigger c ->
      respond_nested ET_fromstring json_loads py_eval limit w trigger
      = Raise RecursionError.
Proof.
  intros c root trigger Hparse Hfirst.
  induction limit as [|limit IH]; intros w Hsel; [reflexivity|].
  simpl. eapply srai_first_step; try eassumption.
  apply IH. exact Hsel.
Qed.

(** C2, amended. For a category whose template begins with an [srai] that
    sends the category's own trigger text back, nothing in the engine
    bounds the nesting: whatever the number of nested calls the
    interpreter's stack allows, every call of [respond] evaluates the
    template again, the innermost call raises [RecursionError], and the
    error leaves the outermost [respond]; no call resolves as no match and
    no result is returned. *)
Theorem self_srai_exhausts_stack :
  forall limit w input_text c root trigger,
    ET_fromstring (template c) = Some root ->
    first_srai root = Some trigger ->
    selects (engine w) trigger c ->
    selects (engine w) input_text c ->
    respond ET_fromstring json_loads py_eval limit w input_text
    = Raise RecursionError.
Proof.
  intros limit w input_text c root trigger Hparse Hfirst Hself Hsel.
  unfold respond. eapply srai_first_step; try eassumption.
  eapply respond_nested_self; eassumption.
Qed.

(** *** The empty input *)

(** C7, amended. Empty input normalizes to the empty string, and the
    empty string is accepted by exactly the patterns that have no token
    or are one narrow wildcard ([#] or [^]); when no category that passes
    the topic and preceding-response filters has such a pattern,
    [respond] on an input whose normalization is empty returns the
    no-match signal and leaves the engine as it was. *)
Theorem empty_input_has_no_match :
  forall limit w input_text,
    _normalize input_text = "" ->
    (forall c, In c (categories (engine w)) ->
               eligible (engine w) c = true ->
               accepts_empty (pattern c) = false) ->
    _normalize "" = ""
    /\ (forall pattern,
          fst (_pattern_match pattern "") = None <-> accepts_empty pattern = false)
    /\ respond ET_fromstring json_loads py_eval limit w input_text = Ok (None, w).
Proof.
  intros limit w input_text Hnorm Hcats.
  split; [reflexivity|]. split.
  - intros pattern. split.
    + intros H. destruct (accepts_empty pattern) eqn:E; [|reflexivity].
      destruct (empty_input_accepted _ E H).
    + intros H. now rewrite empty_input_rejected.
  - unfold respond, respond_body. rewrite Hnorm.
    unfold _match_pattern. rewrite match_loop_without_candidate; [reflexivity|].
    intros c Hin He. apply empty_input_rejected. now apply Hcats.
Qed.

End Properties.

(* ------------------------------------------------------------------ *)
(** ** What can leave [respond] *)

Lemma Element_children_ind (P : ET.Element -> Prop) :
  (forall t a x kids tl, Forall P kids -> P (ET.Elem t a x kids tl)) ->
  forall e, P e.
Proof.
  intros H. fix IH 1. intros [t a x kids tl]. apply H.
  induction kids as [|k kids IHk]; constructor; [apply IH | exact IHk].
Qed.

Section Containment.

Variable cats : list Category.
(** When [strict], [ValueError] is not among the outcomes and the tags
    have to be as [tag_ok] asks. *)
Variable strict : bool.

Lemma contained_ret : forall (A : Type) (a : A), Contained cats strict (ret a).
Proof. intros A a st H. left. exists a, st. auto. Qed.

Lemma contained_bind :
  forall (A B : Type) (m : M A) (f : A -> M B),
    Contained cats strict m -> (forall a, Contained cats strict (f a)) ->
    Contained cats strict (bind m f).
Proof.
  intros A B m f Hm Hf st H. unfold bind.
  destruct (Hm st H) as [(a & st' & -> & H')|[->|[Hs ->]]]; auto.
  apply Hf. assumption.
Qed.

Lemma contained_read : Contained cats strict read.
Proof. intros st H. left. exists st, st. auto. Qed.

Lemma contained_update :
  forall f,
    (forall st, categories (self (f st)) = categories (self st)) ->
    Contained cats strict (update f).
Proof.
  intros f Hf st H. left. exists tt, (f st).
  split; [reflexivity|]. now rewrite Hf.
Qed.

Lemma contained_stack : forall (A : Type), Contained cats strict (@raise A RecursionError).
Proof. intros A st H. right. now left. Qed.

Lemma contained_value :
  forall (A : Type), strict = false -> Contained cats strict (@raise A ValueError).
Proof. intros A Hs st H. right. right. now split. Qed.

Lemma contained_random_choice :
  forall (A B : Type) (items : list A) (f : option A -> M B),
    (forall x, In x items -> Contained cats strict (f (Some x))) ->
    Contained cats strict (f None) ->
    Contained cats strict (bind (random_choice items) f).
Proof.
  intros A B items f Hsome Hnone st H. unfold bind, random_choice.
  destruct (draws st) as [|d rest].
  - destruct (nth_error items 0) as [x|] eqn:E.
    + apply Hsome; [eapply nth_error_In; eassumption | assumption].
    + apply Hnone. assumption.
  - destruct (nth_error items (d mod List.length items)) as [x|] eqn:E.
    + apply Hsome; [eapply nth_error_In; eassumption | assumption].
    + apply Hnone. assumption.
Qed.

Lemma contained_call_respond :
  forall respond_rec redirect,
    RespondContained cats strict respond_rec ->
    Contained cats strict (call_respond respond_rec redirect).
Proof.
  intros respond_rec redirect Hr st H. unfold call_respond.
  destruct (Hr (mkWorld (self st) (draws st)) redirect H)
    as [(out & w' & -> & H')|[->|[Hs ->]]]; auto.
  left. eexists. eexists. split; [reflexivity | assumption].
Qed.

Lemma li_runs_contained :
  forall runs,
    RunsContained cats strict runs -> RunsContained cats strict (li_runs runs).
Proof.
  intros runs H. unfold RunsContained, li_runs in *. rewrite Forall_forall in *.
  intros r Hr. apply filter_In in Hr as [Hr _]. auto.
Qed.

Lemma runs_contained_in :
  forall runs e m,
    RunsContained cats strict runs -> In (e, m) runs -> Contained cats strict m.
Proof.
  intros runs e m H Hin. unfold RunsContained in H. rewrite Forall_forall in H.
  apply (H _ Hin).
Qed.

Lemma contained_condition_loop :
  forall name lis output,
    RunsContained cats strict lis ->
    Contained cats strict (condition_loop name lis output).
Proof.
  intros name lis output H. induction H as [|[li run_li] lis Hli _ IH]; simpl.
  - apply contained_ret.
  - apply contained_bind; [apply contained_read|]. intros st.
    destruct (_ || _).
    + apply contained_bind; [exact Hli|]. intros v. apply contained_ret.
    + exact IH.
Qed.

(** Of the errors of [json.loads] the engine does not catch, the one
    that is a [ValueError] is excluded when [strict]. *)
Lemma contained_load_inputs :
  forall decoded,
    (strict = true -> decoded <> IntegerTooLong) ->
    Contained cats strict (load_inputs decoded).
Proof.
  intros [parsed| | |] H; simpl.
  - apply contained_ret.
  - apply contained_ret.
  - apply contained_value. destruct strict; [|reflexivity].
    now destruct (H eq_refl).
  - apply contained_stack.
Qed.

Ltac contained :=
  repeat first
    [ apply contained_ret
    | apply contained_read
    | assumption
    | apply contained_update; reflexivity
    | apply contained_call_respond; assumption
    | apply contained_condition_loop; assumption
    | eapply runs_contained_in; eassumption
    | apply contained_random_choice; [intros [? ?] ?|]
    | apply contained_bind; [|intros ?]
    | match goal with
      | |- Contained _ _ (if ?c then _ else _) => destruct c
      | |- Contained _ _ (match ?x with Some _ => _ | None => _ end) => destruct x
      end ].

Variable ET_fromstring : string -> option ET.Element.
Variable json_loads : string -> Decoded.
Variable py_eval : string -> option string.

(** Whatever the tag, the dispatch raises nothing of its own but the
    [ValueError] of [int] on the index of a [star] and the two errors of
    [json.loads] that the [action] tag does not catch; what else leaves
    it comes from the call of [respond] that [srai] makes. *)
Lemma process_tag_contained :
  forall respond_rec stars child run_child run_kids output,
    RespondContained cats strict respond_rec ->
    Contained cats strict run_child ->
    RunsContained cats strict run_kids ->
    (strict = true -> tag_ok json_loads child) ->
    Contained cats strict
      (process_tag json_loads py_eval respond_rec stars child run_child run_kids
         output).
Proof.
  intros respond_rec stars child run_child run_kids output Hrec Hchild Hkids Hok.
  assert (Hli := li_runs_contained Hkids).
  assert (Hstar : String.eqb (Py.lower (ET.tag child)) "star" = true ->
                  Py.int (ET.get_default child "index" "1") = None ->
                  strict = false).
  { intros Htag Hint. destruct strict; [|reflexivity].
    destruct (Hok eq_refl) as [Hnum _]. unfold star_index_numeric in Hnum.
    rewrite Htag, Hint in Hnum. discriminate. }
  assert (Hinputs : String.eqb (Py.lower (ET.tag child)) "action" = true ->
                    strict = true ->
                    json_loads
                      (substitute_stars stars 0 stars
                         (ET.get_default child "inputs" "{}"))
                    <> IntegerTooLong).
  { intros Htag Hs. destruct (Hok Hs) as [_ Hdec].
    apply Hdec. now apply String.eqb_eq. }
  unfold process_tag.
  destruct (String.eqb (Py.lower (ET.tag child)) "star").
  { destruct (Py.int _); [contained|].
    apply contained_value. now apply Hstar. }
  destruct (String.eqb (Py.lower (ET.tag child)) "action") eqn:Haction.
  - repeat match goal with
           | |- Contained _ _ (if ?c then _ else _) => destruct c
           end;
      try (destruct (li_runs run_kids) as [|item items]; contained; fail).
    apply contained_bind; [apply contained_load_inputs; now apply Hinputs|].
    intros parsed. contained.
  - destruct (li_runs run_kids) as [|item items]; contained.
Qed.

Lemma process_child_contained :
  forall respond_rec stars child run_child run_kids output,
    RespondContained cats strict respond_rec ->
    Contained cats strict run_child ->
    RunsContained cats strict run_kids ->
    (strict = true -> tag_ok json_loads child) ->
    Contained cats strict
      (process_child json_loads py_eval respond_rec stars child run_child run_kids
         output).
Proof.
  intros. unfold process_child.
  apply contained_bind; [now apply process_tag_contained|].
  intros. apply contained_ret.
Qed.

Lemma _process_element_contained_children :
  forall respond_rec,
    RespondContained cats strict respond_rec ->
    forall element,
      ((strict = true -> template_ok json_loads element) ->
       forall stars,
         Contained cats strict
           (_process_element json_loads py_eval respond_rec element stars))
      /\ Forall (fun k =>
                   (strict = true -> template_ok json_loads k) ->
                   forall stars,
                     Contained cats strict
                       (_process_element json_loads py_eval respond_rec k stars))
           (ET.children element).
Proof.
  intros respond_rec Hrec.
  induction element as [t a x kids tl IH] using Element_children_ind.
  assert (Hkids : Forall (fun k =>
                   (strict = true -> template_ok json_loads k) ->
                   forall stars,
                     Contained cats strict
                       (_process_element json_loads py_eval respond_rec k stars))
                    kids).
  { rewrite Forall_forall in *. intros k Hk. apply (IH k Hk). }
  split; [|exact Hkids].
  intros Hok stars. simpl in Hok. simpl.
  generalize (initial_output (ET.Elem t a x kids tl)).
  induction kids as [|child kids IHkids]; intros output.
  - apply contained_ret.
  - assert (Htag : strict = true -> tag_ok json_loads child)
      by (intros Hs; apply (Hok Hs)).
    assert (Hchild : strict = true -> template_ok json_loads child)
      by (intros Hs; apply (Hok Hs)).
    assert (Hrest : strict = true ->
                    fold_right
                      (fun k rest =>
                         (tag_ok json_loads k /\ template_ok json_loads k) /\ rest)
                      True kids)
      by (intros Hs; apply (Hok Hs)).
    inversion IH as [|? ? [Hself Hgrand] IHrest]; subst.
    inversion Hkids as [|? ? _ Hkids']; subst.
    apply contained_bind.
    + apply process_child_contained; auto.
      destruct child as [ct ca cx grandkids ctl]. simpl in Hchild, Hgrand.
      clear - Hchild Hgrand.
      induction grandkids as [|g gs IHg]; [constructor|].
      inversion Hgrand; subst.
      constructor.
      * simpl. intros stars0. apply H1. intros Hs. apply (Hchild Hs).
      * apply IHg; [|assumption]. intros Hs. apply (Hchild Hs).
    + intros output'. apply IHkids; assumption.
Qed.

Lemma _process_element_contained :
  forall respond_rec element stars,
    RespondContained cats strict respond_rec ->
    (strict = true -> template_ok json_loads element) ->
    Contained cats strict
      (_process_element json_loads py_eval respond_rec element stars).
Proof.
  intros respond_rec element stars Hrec Hok.
  now apply (_process_element_contained_children Hrec element).
Qed.

Hypothesis checked : strict = true -> templates_ok ET_fromstring json_loads cats.

Lemma respond_body_contained :
  forall respond_rec,
    RespondContained cats strict respond_rec ->
    RespondContained cats strict
      (respond_body ET_fromstring json_loads py_eval respond_rec).
Proof.
  intros respond_rec Hrec w input_text Hcats. unfold respond_body.
  destruct (_match_pattern_shape (engine w) (_normalize input_text))
    as [->|(c & found & -> & Hin)].
  { left. exists None, w. auto. }
  cbn [matched negb category stars]. rewrite Hcats in Hin.
  unfold _process_template.
  destruct (ET_fromstring (template c)) as [root|] eqn:Hparse.
  - destruct (@_process_element_contained respond_rec root found Hrec
                (fun Hs => checked Hs _ Hin Hparse)
                (mkFrame (engine w) empty_result (pending_draws w)) Hcats)
      as [(v & st & -> & Hst)|[->|[Hs ->]]]; auto.
    left. eexists. eexists. split; [reflexivity|]. exact Hst.
  - left. eexists. eexists. split; [reflexivity|]. exact Hcats.
Qed.

Lemma respond_nested_contained :
  forall limit,
    RespondContained cats strict
      (respond_nested ET_fromstring json_loads py_eval limit).
Proof.
  induction limit as [|limit IH].
  - intros w s _. right. now left.
  - simpl. apply respond_body_contained. exact IH.
Qed.

End Containment.

(** C1, amended. For every input and every category store, [respond]
    returns the no-match signal or a result, or raises [RecursionError]
    when the interpreter's stack is exhausted, the engine having no
    bound of its own on the calls nested through [srai], or raises
    [ValueError]; no other exception leaves it.  When the templates of
    the store use only numbers as [star] indexes and [json.loads] raises
    no [ValueError] on the inputs of their [action] tags, [ValueError]
    does not arise either.  A template that is not well-formed XML does
    not fail the turn: it becomes the text of the result; and an
    expression that [eval] refuses is put out as it is. *)
Theorem respond_returns_or_exhausts_stack :
  forall ET_fromstring json_loads py_eval limit w input_text,
    let outcome := respond ET_fromstring json_loads py_eval limit w input_text in
    ((exists out w', outcome = Ok (out, w'))
     \/ outcome = Raise RecursionError
     \/ outcome = Raise ValueError)
    /\ (templates_ok ET_fromstring json_loads (categories (engine w)) ->
        (exists out w', outcome = Ok (out, w'))
        \/ outcome = Raise RecursionError)
    /\ (forall respond_rec w' malformed found,
          ET_fromstring malformed = None ->
          _process_template ET_fromstring json_loads py_eval respond_rec w'
            malformed found
          = Ok (set_text empty_result malformed, w'))
    /\ (forall respond_rec found child run_child run_kids output st expr st',
          Py.lower (ET.tag child) = "compute" ->
          run_child st = Ok (expr, st') ->
          py_eval expr = None ->
          process_child json_loads py_eval respond_rec found child run_child
            run_kids output st
          = Ok (append_tail child (output ++ [expr])%list, st')).
Proof.
  intros ET_fromstring json_loads py_eval limit w input_text outcome.
  split; [|split; [|split]].
  - destruct (@respond_body_contained (categories (engine w)) false ET_fromstring
                json_loads py_eval (fun Hs => False_ind _ (diff_false_true Hs))
                (respond_nested ET_fromstring json_loads py_eval limit)
                (@respond_nested_contained (categories (engine w)) false
                   ET_fromstring json_loads py_eval
                   (fun Hs => False_ind _ (diff_false_true Hs)) limit)
                w input_text eq_refl)
      as [(out & w' & H & _)|[H|[_ H]]].
    + left. exists out, w'. exact H.
    + right. left. exact H.
    + right. right. exact H.
  - intros Hok.
    destruct (@respond_body_contained (categories (engine w)) true ET_fromstring
                json_loads py_eval (fun _ => Hok)
                (respond_nested ET_fromstring json_loads py_eval limit)
                (@respond_nested_contained (categories (engine w)) true
                   ET_fromstring json_loads py_eval (fun _ => Hok) limit)
                w input_text eq_refl)
      as [(out & w' & H & _)|[H|[Hs _]]].
    + left. exists out, w'. exact H.
    + right. exact H.
    + discriminate.
  - intros respond_rec w' malformed found H. unfold _process_template.
    now rewrite H.
  - intros respond_rec found child run_child run_kids output st expr st'
      Htag Hrun Heval.
    unfold process_child. rewrite process_tag_compute by assumption.
    unfold bind. rewrite Hrun, Heval. reflexivity.
Qed.

(* ------------------------------------------------------------------ *)
(** ** The properties at the example engines *)

Lemma star_out_of_range_ignored_witness :
  process_child example_loads example_eval (example_respond 0) ["A"]
    out_of_range_star (ret "") [] ["Hi"] example_frame
  = Ok (append_tail out_of_range_star ["Hi"], example_frame)
  /\ (forall t a x tl,
        _process_element example_loads example_eval (example_respond 0)
          (ET.Elem t a x [out_of_range_star] tl) ["A"] example_frame
        = Ok (finish (append_tail out_of_range_star
                        (initial_output (ET.Elem t a x [out_of_range_star] tl))),
              example_frame)).
Proof.
  apply (@star_out_of_range_ignored example_loads example_eval (example_respond 0)
           ["A"] out_of_range_star (ret "") [] ["Hi"] example_frame 5%Z).
  - reflexivity.
  - reflexivity.
  - simpl. lia.
Defined.

(** Inputs that are not JSON: the result of the tag carries the empty
    map. *)
Lemma broken_inputs_default :
  process_child example_loads example_eval (example_respond 0) ["10"]
    broken_action
    (_process_element example_loads example_eval (example_respond 0)
       broken_action ["10"])
    [] ["Hi"] example_frame
  = Ok (["Hi"; "Creating users"; "!"],
        set_inputs (Some (JObject []))
          (set_workflow (Some "create-users")
             (set_action (Some "workflow") example_frame))).
Proof.
  apply (@action_decode_error_default example_loads example_eval (example_respond 0)
           ["10"] broken_action [] ["Hi"] example_frame); reflexivity.
Qed.

(** C10. The claim fails on the code for inputs that [json.loads]
    refuses with an error other than [JSONDecodeError].  An integer
    literal of more than 4300 digits makes it raise a plain
    [ValueError], which the [except json.JSONDecodeError] of the
    [action] tag does not catch: the evaluation of the tag, and with it
    the whole turn, ends with [ValueError] and no result.  The category
    [CREATE * USERS], whose inputs are [{"count": <star/>}], does so on
    the input [create 11...1 users] with 5000 digits. *)
Theorem action_long_integer_raises :
  (forall json_loads py_eval respond_rec stars child run_child run_kids output st,
      Py.lower (ET.tag child) = "action" ->
      json_loads
        (substitute_stars stars 0 stars (ET.get_default child "inputs" "{}"))
      = IntegerTooLong ->
      process_child json_loads py_eval respond_rec stars child run_child run_kids
        output st
      = Raise ValueError)
  /\ stars (_match_pattern (fresh_engine [count_category])
              (_normalize ("create " ++ long_number ++ " users")))
     = [long_number]
  /\ count_loads (substitute_stars [long_number] 0 [long_number] count_inputs)
     = IntegerTooLong
  /\ (forall limit,
        respond count_fromstring count_loads example_eval limit
          (example_world [count_category]) ("create " ++ long_number ++ " users")
        = Raise ValueError).
Proof.
  split; [|split; [|split]].
  - intros json_loads py_eval respond_rec stars child run_child run_kids output st
      Htag Hjson.
    now apply (@action_uncaught_error_raises json_loads py_eval respond_rec stars
                 child run_child run_kids output st Htag).
  - vm_compute. reflexivity.
  - vm_compute. reflexivity.
  - intros limit. vm_compute. reflexivity.
Qed.

(** With a category whose template refers to the capture of index [x],
    [respond] raises [ValueError]: the failure of [int] on the index
    attribute is caught nowhere, unlike [json.JSONDecodeError],
    [ET.ParseError] and the failures of [eval]. *)
Lemma bad_star_index_raises :
  forall limit,
    example_respond limit (example_world [bad_star_category]) "hi"
    = Raise ValueError.
Proof.
  intros limit. vm_compute. reflexivity.
Qed.

(** C2, as the claim states it, fails: for the category that sends its
    own trigger text back through [srai], no stack limit lets [respond]
    return a result or the no-match signal. *)
Lemma self_srai_never_returns :
  ~ exists limit out,
      example_respond limit (example_world [loop_category]) "loop" = Ok out.
Proof.
  intros (limit & out & H). unfold example_respond, respond in H.
  rewrite (@srai_first_step example_fromstring example_loads example_eval
             (respond_nested example_fromstring example_loads example_eval limit)
             (example_world [loop_category]) "loop" loop_category loop_tree
             "LOOP" RecursionError) in H.
  - discriminate.
  - exists []. reflexivity.
  - reflexivity.
  - reflexivity.
  - apply (@respond_nested_self example_fromstring example_loads example_eval
             loop_category loop_tree "LOOP" eq_refl eq_refl).
    exists []. reflexivity.
Qed.

Lemma self_srai_exhausts_stack_witness :
  respond example_fromstring example_loads example_eval 10
    (example_world [loop_category]) "loop"
  = Raise RecursionError.
Proof.
  apply (@self_srai_exhausts_stack example_fromstring example_loads example_eval
           10 (example_world [loop_category]) "loop" loop_category loop_tree
           "LOOP").
  - reflexivity.
  - reflexivity.
  - exists []. reflexivity.
  - exists []. reflexivity.
Defined.

(** C7, as the claim states it, fails: the empty input matches the
    category whose pattern is the narrow wildcard [#], and [respond]
    returns its result. *)
Lemma empty_input_matches_narrow_wildcard :
  _normalize "" = ""
  /\ exists r w,
       example_respond 0 (example_world [anything_category]) "" = Ok (Some r, w)
       /\ text r = "Say something.".
Proof.
  split; [reflexivity|]. eexists. eexists. split; vm_compute; reflexivity.
Qed.

Lemma empty_input_has_no_match_witness :
  _normalize "" = ""
  /\ (forall pattern,
        fst (_pattern_match pattern "") = None <-> accepts_empty pattern = false)
  /\ respond example_fromstring example_loads example_eval 0
       (example_world [loop_category]) "?!"
     = Ok (None, example_world [loop_category]).
Proof.
  apply (@empty_input_has_no_match example_fromstring example_loads example_eval).
  - reflexivity.
  - intros c [<-|[]] _. reflexivity.
Defined.

(** C1, as the claim states it, fails: an exception leaves [respond].  With
    room for 1000 nested calls on the interpreter's stack, the category
    that sends its own trigger text back through [srai] ends the turn with
    [RecursionError]. *)
Lemma recursion_error_leaves_respond :
  example_respond 1000 (example_world [loop_category]) "loop"
  = Raise RecursionError.
Proof.
  unfold example_respond, respond.
  apply (@srai_first_step example_fromstring example_loads example_eval
           (respond_nested example_fromstring example_loads example_eval 1000)
           (example_world [loop_category]) "loop" loop_category loop_tree
           "LOOP" RecursionError).
  - exists []. reflexivity.
  - reflexivity.
  - reflexivity.
  - apply (@respond_nested_self example_fromstring example_loads example_eval
             loop_category loop_tree "LOOP" eq_refl eq_refl).
    exists []. reflexivity.
Qed.

Lemma respond_returns_or_exhausts_stack_witness :
  (exists out w',
      respond example_fromstring example_loads example_eval 10
        (example_world [either_category; anything_category]) "cat or dog"
      = Ok (out, w'))
  \/ respond example_fromstring example_loads example_eval 10
       (example_world [either_category; anything_category]) "cat or dog"
     = Raise RecursionError.
Proof.
  apply (proj1 (proj2 (@respond_returns_or_exhausts_stack example_fromstring
                         example_loads example_eval 10
                         (example_world [either_category; anything_category])
                         "cat or dog"))).
  intros c root [<-|[<-|[]]] H; vm_compute in H; injection H as <-;
    exact I.
Defined.

(* ------------------------------------------------------------------ *)
(** ** What the matcher accepts *)

Lemma greedy_spaces_complete (k : Py.chars -> option (list string)) :
  forall sp rest,
    Forall (fun c => Py.isspace c = true) sp ->
    k rest <> None ->
    Re.greedy_spaces k (sp ++ rest)%list <> None.
Proof.
  assert (Hbase : forall s, k s <> None -> Re.greedy_spaces k s <> None).
  { intros [|c s] H; simpl; [exact H|].
    destruct (Py.isspace c); [|exact H].
    destruct (Re.greedy_spaces k s); [discriminate | exact H]. }
  induction sp as [|c sp IH]; intros rest Hsp Hk; simpl.
  - apply Hbase, Hk.
  - inversion Hsp as [|? ? Hc Hsp']; subst. rewrite Hc.
    specialize (IH rest Hsp' Hk).
    destruct (Re.greedy_spaces k (sp ++ rest)%list); [discriminate | contradiction].
Qed.

Lemma lazy_dots_complete (k : Py.chars -> option (list string)) :
  forall span taken rest,
    Forall (fun c => Re.dot c = true) span ->
    k rest <> None ->
    Re.lazy_dots k taken (span ++ rest)%list <> None.
Proof.
  assert (Hbase : forall s taken, k s <> None -> Re.lazy_dots k taken s <> None).
  { intros [|c s] taken H; simpl; destruct (k _); try discriminate; contradiction. }
  induction span as [|c span IH]; intros taken rest Hspan Hk; simpl.
  - apply Hbase, Hk.
  - inversion Hspan as [|? ? Hc Hspan']; subst.
    destruct (k (c :: span ++ rest)%list); [discriminate|].
    rewrite Hc. apply IH; assumption.
Qed.

Lemma eat_literal_complete :
  forall word span rest,
    same_word word span -> Re.eat_literal word (span ++ rest)%list = Some rest.
Proof.
  intros word span rest H. induction H as [|a b word span Hab _ IH]; simpl.
  - reflexivity.
  - now rewrite Hab.
Qed.

Lemma run_complete :
  forall r s found, Aligned r s found -> Re.run r s <> None.
Proof.
  induction 1 as [s| sp r s found Hsp _ IH | sp r s found Hne Hsp _ IH
                 | word span r s found Hw _ IH | span r s found Hne Hspan _ IH
                 | span r s found Hspan _ IH | r s found Hend _ IH]; simpl.
  - discriminate.
  - apply greedy_spaces_complete; assumption.
  - destruct sp as [|c sp]; [contradiction|].
    inversion Hsp as [|? ? Hc Hsp']; subst. simpl. rewrite Hc.
    apply greedy_spaces_complete; assumption.
  - rewrite (eat_literal_complete _ Hw). exact IH.
  - destruct span as [|c span]; [contradiction|].
    inversion Hspan as [|? ? Hc Hspan']; subst. simpl. rewrite Hc.
    apply lazy_dots_complete; assumption.
  - apply lazy_dots_complete; assumption.
  - rewrite Hend. exact IH.
Qed.

(** X1. [_pattern_match] succeeds exactly on the inputs that can be cut
    into one span per expression of the pattern: white space between the
    tokens, each literal token equal to its span up to case, each broad
    wildcard on at least one character and each narrow wildcard on any
    number of characters other than line feeds. *)
Theorem pattern_match_accepts_alignments :
  forall pattern input_text,
    fst (_pattern_match pattern input_text) <> None
    <-> exists found,
          Aligned (pattern_regex (Py.split pattern)) (Py.of_str input_text) found.
Proof.
  intros pattern input_text. unfold _pattern_match, Re.match_groups. split.
  - destruct (Re.run _ _) as [found|] eqn:Hrun; [|intros []; reflexivity].
    intros _. exists found. apply run_sound. exact Hrun.
  - intros [found H]. apply run_complete in H.
    destruct (Re.run _ _); [discriminate | contradiction].
Qed.

(* ------------------------------------------------------------------ *)
(** ** Characters, words and normalized text *)

Ltac each_ascii :=
  intros [[] [] [] [] [] [] [] []]; vm_compute; try reflexivity;
  try discriminate; auto.

Lemma upper_char_idem : forall c, Py.upper_char (Py.upper_char c) = Py.upper_char c.
Proof. each_ascii. Qed.

Lemma upper_lower_char : forall c, Py.upper_char (Py.lower_char c) = Py.upper_char c.
Proof. each_ascii. Qed.

Lemma isspace_kept : forall c, Py.isspace c = true -> kept c = true.
Proof. each_ascii. Qed.

Lemma isspace_upper_char : forall c, Py.isspace c = true -> Py.upper_char c = c.
Proof. each_ascii. Qed.

Lemma isspace_upper : forall c, Py.isspace (Py.upper_char c) = Py.isspace c.
Proof. each_ascii. Qed.

Lemma kept_lower_char : forall c, kept (Py.lower_char c) = kept c.
Proof. each_ascii. Qed.

Lemma isspace_lower_char : forall c, Py.isspace (Py.lower_char c) = Py.isspace c.
Proof. each_ascii. Qed.

Lemma same_letter_kept :
  forall a b, Re.same_letter a b = true -> kept a = kept b.
Proof.
  intros a b H. unfold Re.same_letter in H. apply Ascii.eqb_eq in H.
  rewrite <- (kept_lower_char a), <- (kept_lower_char b). now rewrite H.
Qed.

Lemma same_letter_isspace :
  forall a b, Re.same_letter a b = true -> Py.isspace a = Py.isspace b.
Proof.
  intros a b H. unfold Re.same_letter in H. apply Ascii.eqb_eq in H.
  rewrite <- (isspace_lower_char a), <- (isspace_lower_char b). now rewrite H.
Qed.

Lemma same_letter_refl : forall a, Re.same_letter a a = true.
Proof. intros a. unfold Re.same_letter. apply Ascii.eqb_refl. Qed.

Lemma of_str_app :
  forall a b, Py.of_str (a ++ b) = (Py.of_str a ++ Py.of_str b)%list.
Proof.
  induction a as [|c a IH]; intros b; simpl; [reflexivity|].
  unfold Py.of_str in *. simpl. now rewrite IH.
Qed.

Lemma of_to_str : forall l, Py.of_str (Py.to_str l) = l.
Proof. exact list_ascii_of_string_of_list_ascii. Qed.

Lemma to_of_str : forall s, Py.to_str (Py.of_str s) = s.
Proof. exact string_of_list_ascii_of_string. Qed.

Lemma of_str_join :
  forall sep words,
    Py.of_str (Py.join sep (map Py.to_str words))
    = join_chars (Py.of_str sep) words.
Proof.
  intros sep. induction words as [|w [|w' words] IH].
  - reflexivity.
  - simpl. apply of_to_str.
  - change (Py.join sep (map Py.to_str (w :: w' :: words)))
      with (Py.to_str w ++ sep ++ Py.join sep (map Py.to_str (w' :: words))).
    rewrite !of_str_app, IH, of_to_str. reflexivity.
Qed.

(** *** [str.split()] *)

Lemma split_chars_spaces :
  forall sp s,
    Forall (fun c => Py.isspace c = true) sp ->
    Py.split_chars [] (sp ++ s)%list = Py.split_chars [] s.
Proof.
  induction sp as [|c sp IH]; intros s H; [reflexivity|].
  inversion H as [|? ? Hc Hsp]; subst. simpl. rewrite Hc. now apply IH.
Qed.

Lemma split_chars_word :
  forall w word rest,
    spaceless w ->
    Py.split_chars word (w ++ rest)%list = Py.split_chars (rev w ++ word)%list rest.
Proof.
  induction w as [|c w IH]; intros word rest H; [reflexivity|].
  inversion H as [|? ? Hc Hw]; subst. simpl. rewrite Hc.
  rewrite (IH _ _ Hw). now rewrite <- app_assoc.
Qed.

Lemma split_chars_solid_end :
  forall w, solid w -> Py.split_chars [] w = [w].
Proof.
  intros w [Hne Hw].
  rewrite <- (app_nil_r w) at 1. rewrite (split_chars_word _ _ Hw).
  rewrite app_nil_r. simpl.
  destruct (rev w) eqn:E.
  - apply (f_equal (@rev ascii)) in E. rewrite rev_involutive in E. contradiction.
  - rewrite <- E. now rewrite rev_involutive.
Qed.

Lemma split_chars_solid_space :
  forall w c rest,
    solid w -> Py.isspace c = true ->
    Py.split_chars [] (w ++ c :: rest)%list = w :: Py.split_chars [] rest.
Proof.
  intros w c rest [Hne Hw] Hc.
  rewrite (split_chars_word _ _ Hw). rewrite app_nil_r. simpl. rewrite Hc.
  destruct (rev w) eqn:E.
  - apply (f_equal (@rev ascii)) in E. rewrite rev_involutive in E. contradiction.
  - rewrite <- E. now rewrite rev_involutive.
Qed.

Lemma split_chars_Forall (Q : ascii -> Prop) :
  forall s word,
    Forall Q s -> Forall Q word -> Forall (Forall Q) (Py.split_chars word s).
Proof.
  induction s as [|c s IH]; intros word Hs Hword; simpl.
  - destruct word; constructor; [|constructor].
    apply Forall_rev. assumption.
  - inversion Hs; subst. destruct (Py.isspace c).
    + destruct word; [apply IH; auto|].
      constructor; [apply Forall_rev; assumption | apply IH; auto].
    + apply IH; auto.
Qed.

Lemma split_chars_spaceless :
  forall s word, spaceless word -> Forall spaceless (Py.split_chars word s).
Proof.
  induction s as [|c s IH]; intros word Hword; simpl.
  - destruct word; constructor; [|constructor].
    apply Forall_rev. assumption.
  - destruct (Py.isspace c) eqn:Hc.
    + destruct word; [apply IH; constructor|].
      constructor; [apply Forall_rev; assumption | apply IH; constructor].
    + apply IH. constructor; assumption.
Qed.

Lemma split_chars_words : forall s, Forall solid (Py.split_chars [] s).
Proof.
  intros s. pose proof (split_chars_nonempty s []) as Hne.
  pose proof (@split_chars_spaceless s [] (Forall_nil _)) as Hsp.
  induction (Py.split_chars [] s) as [|w ws IH]; constructor.
  - inversion Hne; inversion Hsp; subst. split; assumption.
  - inversion Hne; inversion Hsp; subst. apply IH; assumption.
Qed.

Lemma split_join_chars :
  forall words,
    Forall solid words -> Py.split_chars [] (join_chars [space] words) = words.
Proof.
  induction words as [|w [|w' words] IH]; intros H.
  - reflexivity.
  - inversion H; subst. simpl. now apply split_chars_solid_end.
  - inversion H as [|? ? Hw Hrest]; subst.
    change (join_chars [space] (w :: w' :: words))
      with (w ++ space :: join_chars [space] (w' :: words))%list.
    rewrite split_chars_solid_space; [|assumption|reflexivity].
    now rewrite IH.
Qed.

(** *** The normalizer *)

Lemma normalize_chars :
  forall s,
    Py.of_str (_normalize s)
    = join_chars [space]
        (Py.split_chars [] (filter kept (map Py.upper_char (Py.of_str s)))).
Proof.
  intros s. unfold _normalize, Py.upper, Py.split.
  rewrite of_str_join. rewrite !of_to_str. reflexivity.
Qed.

Lemma join_chars_Forall (Q : ascii -> Prop) :
  forall words,
    Q space -> Forall (Forall Q) words -> Forall Q (join_chars [space] words).
Proof.
  intros words Hsp. induction words as [|w [|w' words] IH]; intros H.
  - constructor.
  - inversion H; subst. assumption.
  - inversion H as [|? ? Hw Hrest]; subst.
    change (join_chars [space] (w :: w' :: words))
      with (w ++ space :: join_chars [space] (w' :: words))%list.
    apply Forall_app. split; [assumption|]. constructor; [assumption|].
    apply IH. assumption.
Qed.

Lemma filter_all (A : Type) (f : A -> bool) :
  forall l, Forall (fun x => f x = true) l -> filter f l = l.
Proof.
  induction l as [|x l IH]; intros H; [reflexivity|].
  inversion H as [|? ? Hx Hl]; subst. simpl. rewrite Hx. now rewrite IH.
Qed.

Lemma map_fixed (A : Type) (f : A -> A) :
  forall l, Forall (fun x => f x = x) l -> map f l = l.
Proof.
  induction l as [|x l IH]; intros H; [reflexivity|].
  inversion H as [|? ? Hx Hl]; subst. simpl. rewrite Hx. now rewrite IH.
Qed.

Lemma filter_Forall (A : Type) (f : A -> bool) :
  forall l, Forall (fun x => f x = true) (filter f l).
Proof.
  intros l. apply Forall_forall. intros x Hx. now apply filter_In in Hx.
Qed.

Lemma normalized_words :
  forall s,
    let words := Py.split_chars [] (filter kept (map Py.upper_char s)) in
    Forall solid words
    /\ Forall (Forall (fun c => kept c = true)) words
    /\ Forall (Forall (fun c => Py.upper_char c = c)) words.
Proof.
  intros s words. split; [apply split_chars_words|]. split.
  - apply split_chars_Forall; [apply filter_Forall | constructor].
  - apply split_chars_Forall; [|constructor].
    apply Forall_forall. intros c Hc. apply filter_In in Hc as [Hc _].
    apply in_map_iff in Hc as (c0 & <- & _). apply upper_char_idem.
Qed.

Lemma of_str_inj : forall a b, Py.of_str a = Py.of_str b -> a = b.
Proof.
  intros a b H. rewrite <- (to_of_str a), <- (to_of_str b). now rewrite H.
Qed.

Lemma normalized_kept :
  forall s, Forall (fun c => kept c = true) (Py.of_str (_normalize s)).
Proof.
  intros s. rewrite normalize_chars.
  apply join_chars_Forall; [reflexivity|]. apply normalized_words.
Qed.

(** X2. Normalizing is idempotent, and texts that differ only in the case
    of their letters have the same normal form. *)
Theorem normalize_idempotent :
  forall s,
    _normalize (_normalize s) = _normalize s
    /\ _normalize (Py.lower s) = _normalize s
    /\ _normalize (Py.upper s) = _normalize s.
Proof.
  intros s. repeat split; apply of_str_inj; rewrite !normalize_chars.
  - destruct (normalized_words (Py.of_str s)) as (Hsolid & Hkept & Hupper).
    set (words := Py.split_chars [] _) in *.
    rewrite map_fixed by (apply join_chars_Forall; [reflexivity | exact Hupper]).
    rewrite filter_all by (apply join_chars_Forall; [reflexivity | exact Hkept]).
    now rewrite split_join_chars.
  - unfold Py.lower. rewrite of_to_str, map_map.
    rewrite (map_ext _ _ upper_lower_char). reflexivity.
  - unfold Py.upper. rewrite of_to_str, map_map.
    rewrite (map_ext _ _ upper_char_idem). reflexivity.
Qed.

(** *** Literal tokens the normalizer cannot produce *)

Lemma Aligned_literal_span :
  forall r s found,
    Aligned r s found ->
    forall word,
      In (Re.Literal word) r ->
      exists pre span post,
        s = (pre ++ span ++ post)%list /\ same_word word span.
Proof.
  induction 1 as [s| sp r s found Hsp _ IH | sp r s found Hne Hsp _ IH
                 | lit span r s found Hw _ IH | span r s found Hne Hspan _ IH
                 | span r s found Hspan _ IH | r s found Hend _ IH];
    intros word Hin.
  - destruct Hin.
  - destruct Hin as [E|Hin]; [discriminate|].
    destruct (IH _ Hin) as (pre & m & post & -> & Hm).
    exists (sp ++ pre)%list, m, post. now rewrite <- app_assoc.
  - destruct Hin as [E|Hin]; [discriminate|].
    destruct (IH _ Hin) as (pre & m & post & -> & Hm).
    exists (sp ++ pre)%list, m, post. now rewrite <- app_assoc.
  - destruct Hin as [E|Hin].
    + injection E as <-. exists [], span, s. auto.
    + destruct (IH _ Hin) as (pre & m & post & -> & Hm).
      exists (span ++ pre)%list, m, post. now rewrite <- app_assoc.
  - destruct Hin as [E|Hin]; [discriminate|].
    destruct (IH _ Hin) as (pre & m & post & -> & Hm).
    exists (span ++ pre)%list, m, post. now rewrite <- app_assoc.
  - destruct Hin as [E|Hin]; [discriminate|].
    destruct (IH _ Hin) as (pre & m & post & -> & Hm).
    exists (span ++ pre)%list, m, post. now rewrite <- app_assoc.
  - destruct Hin as [E|Hin]; [discriminate|].
    exact (IH _ Hin).
Qed.

Lemma In_join_atoms :
  forall sep a parts, In a parts -> In a (Re.join_atoms sep parts).
Proof.
  intros sep a. induction parts as [|p [|q parts] IH]; intros H.
  - destruct H.
  - exact H.
  - change (Re.join_atoms sep (p :: q :: parts))
      with (p :: sep :: Re.join_atoms sep (q :: parts)).
    destruct H as [->|H]; [now left|]. right. right. now apply IH.
Qed.

Lemma compile_part_literal :
  forall part,
    is_wildcard part = false ->
    compile_part part = (Re.Literal (Py.of_str part), 10%Z).
Proof.
  intros part H. unfold is_wildcard in H. unfold compile_part.
  destruct (String.eqb part "*"); [discriminate|].
  destruct (String.eqb part "_"); [discriminate|].
  destruct (String.eqb part "#"); [discriminate|].
  destruct (String.eqb part "^"); [discriminate|]. reflexivity.
Qed.

Lemma literal_in_regex :
  forall parts part,
    In part parts -> is_wildcard part = false ->
    In (Re.Literal (Py.of_str part)) (pattern_regex parts).
Proof.
  intros parts part Hin Hlit. unfold pattern_regex. right.
  apply in_or_app. left. apply In_join_atoms.
  unfold regex_parts. apply in_map_iff. exists part.
  split; [|assumption]. now rewrite compile_part_literal.
Qed.

(** X3. A pattern with a literal token that holds a character the
    normalizer removes (an apostrophe, a hyphen, a question mark, ...)
    matches no normalized input: such a category can never answer. *)
Theorem punctuated_pattern_never_matches :
  forall pattern part c input_text,
    In part (Py.split pattern) ->
    is_wildcard part = false ->
    In c (Py.of_str part) ->
    kept c = false ->
    _pattern_match pattern (_normalize input_text) = (None, 0%Z).
Proof.
  intros pattern part c input_text Hpart Hlit Hc Hkept.
  unfold _pattern_match, Re.match_groups.
  destruct (Re.run _ _) as [found|] eqn:Hrun; [|reflexivity].
  exfalso. apply run_sound in Hrun.
  destruct (Aligned_literal_span Hrun _ (literal_in_regex _ _ Hpart Hlit))
    as (pre & span & post & Hs & Hspan).
  pose proof (normalized_kept input_text) as Hall. rewrite Hs in Hall.
  apply Forall_app in Hall as [_ Hall]. apply Forall_app in Hall as [Hall _].
  clear - Hspan Hall Hc Hkept.
  induction Hspan as [|a b word span Hab _ IH].
  - destruct Hc.
  - inversion Hall as [|? ? Hb Hrest]; subst. destruct Hc as [->|Hc].
    + rewrite (same_letter_kept _ _ Hab) in Hkept. congruence.
    + apply IH; assumption.
Qed.

Lemma punctuated_pattern_never_matches_witness :
  _pattern_match "WHAT'S UP" (_normalize "what's up?") = (None, 0%Z).
Proof.
  apply (@punctuated_pattern_never_matches "WHAT'S UP" "WHAT'S" "'"%char
           "what's up?").
  - vm_compute. auto.
  - reflexivity.
  - vm_compute. auto 10.
  - reflexivity.
Defined.

(* ------------------------------------------------------------------ *)
(** ** Patterns of literal words *)

Lemma split_chars_nil :
  forall s word,
    Py.split_chars word s = [] ->
    word = [] /\ Forall (fun c => Py.isspace c = true) s.
Proof.
  induction s as [|c s IH]; intros word H; simpl in H.
  - destruct word; [auto | discriminate].
  - destruct (Py.isspace c) eqn:Hc.
    + destruct word; [|discriminate].
      destruct (IH _ H) as [_ Hs]. auto.
    + destruct (IH _ H) as [E _]. discriminate.
Qed.

Lemma split_chars_peel_word :
  forall s word m ms,
    spaceless word ->
    Py.split_chars word s = m :: ms ->
    exists sp w rest,
      s = (sp ++ w ++ rest)%list
      /\ Forall (fun c => Py.isspace c = true) sp
      /\ (word <> [] -> sp = [])
      /\ spaceless w
      /\ m = (rev word ++ w)%list
      /\ Py.split_chars [] rest = ms
      /\ (rest = [] \/ exists c r, rest = c :: r /\ Py.isspace c = true).
Proof.
  induction s as [|c s IH]; intros word m ms Hword H; simpl in H.
  - destruct word as [|a word]; [discriminate|]. injection H as <- <-.
    exists [], [], [].
    split; [reflexivity|]. split; [constructor|]. split; [reflexivity|].
    split; [constructor|]. split; [now rewrite app_nil_r|].
    split; [reflexivity | now left].
  - destruct (Py.isspace c) eqn:Hc.
    + destruct word as [|a word].
      * destruct (IH _ _ _ Hword H)
          as (sp & w & rest & -> & Hsp & _ & Hw & -> & Hms & Hrest).
        exists (c :: sp), w, rest.
        split; [reflexivity|]. split; [constructor; assumption|].
        split; [intros E; now destruct E|]. auto.
      * injection H as <- <-.
        exists [], [], (c :: s).
        split; [reflexivity|]. split; [constructor|]. split; [reflexivity|].
        split; [constructor|]. split; [now rewrite app_nil_r|].
        split; [simpl; now rewrite Hc|]. right. exists c, s. auto.
    + assert (Hword' : spaceless (c :: word)) by (constructor; assumption).
      destruct (IH _ _ _ Hword' H)
        as (sp & w & rest & -> & Hsp & Hnil & Hw & -> & Hms & Hrest).
      rewrite (Hnil ltac:(discriminate)). exists [], (c :: w), rest.
      split; [reflexivity|]. split; [constructor|]. split; [reflexivity|].
      split; [constructor; assumption|].
      split; [simpl; now rewrite <- app_assoc|]. auto.
Qed.

Lemma split_chars_peel :
  forall s m ms,
    Py.split_chars [] s = m :: ms ->
    exists sp rest,
      s = (sp ++ m ++ rest)%list
      /\ Forall (fun c => Py.isspace c = true) sp
      /\ solid m
      /\ Py.split_chars [] rest = ms
      /\ (rest = [] \/ exists c r, rest = c :: r /\ Py.isspace c = true).
Proof.
  intros s m ms H.
  pose proof (split_chars_words s) as Hsolid. rewrite H in Hsolid.
  inversion Hsolid as [|? ? Hm _]; subst.
  destruct (@split_chars_peel_word s [] m ms (Forall_nil _) H)
    as (sp & w & rest & -> & Hsp & _ & Hw & -> & Hms & Hrest).
  exists sp, rest. simpl. auto 10.
Qed.

Lemma same_word_solid :
  forall w m, same_word w m -> solid w -> solid m.
Proof.
  intros w m H [Hne Hw]. split.
  - destruct H; [contradiction | discriminate].
  - clear Hne. induction H as [|a b w m Hab _ IH]; [constructor|].
    inversion Hw as [|? ? Ha Hw']; subst. constructor; [|now apply IH].
    now rewrite <- (same_letter_isspace _ _ Hab).
Qed.

Lemma at_end_spaces :
  forall s, Re.at_end s = true -> Forall (fun c => Py.isspace c = true) s.
Proof.
  intros [|c [|d s]] H; simpl in H; try discriminate; [constructor|].
  apply Ascii.eqb_eq in H. subst. repeat constructor.
Qed.

Lemma split_chars_solid_spaces :
  forall w sp,
    solid w -> Forall (fun c => Py.isspace c = true) sp ->
    Py.split_chars [] (w ++ sp)%list = [w].
Proof.
  intros w [|c sp] Hw Hsp.
  - rewrite app_nil_r. now apply split_chars_solid_end.
  - inversion Hsp as [|? ? Hc Hsp']; subst.
    rewrite split_chars_solid_space by assumption.
    rewrite <- (app_nil_r sp). now rewrite split_chars_spaces.
Qed.

Lemma literal_tail_cons2 :
  forall w w2 lits,
    literal_tail (w :: w2 :: lits)
    = Re.Literal w :: Re.Spaces1 :: literal_tail (w2 :: lits).
Proof. reflexivity. Qed.

(** The words of a text aligned with literal words are those words, up
    to case. *)
Lemma literal_tail_words :
  forall lits,
    lits <> [] -> Forall solid lits ->
    forall s found,
      Aligned (literal_tail lits) s found ->
      Forall2 same_word lits (Py.split_chars [] s).
Proof.
  induction lits as [|w [|w2 lits] IH]; intros Hne Hsolid s found H.
  - contradiction.
  - inversion Hsolid as [|? ? Hw _]; subst.
    unfold literal_tail in H. simpl in H.
    inversion H as [| | |? span ? s1 ? Hspan H1| | |]; subst.
    inversion H1 as [|sp ? s2 ? Hsp H2| | | | |]; subst.
    inversion H2 as [| | | | | |? ? ? Hend _]; subst.
    apply at_end_spaces in Hend.
    rewrite split_chars_solid_spaces.
    + repeat constructor. assumption.
    + eapply same_word_solid; eassumption.
    + apply Forall_app. auto.
  - inversion Hsolid as [|? ? Hw Hrest]; subst.
    rewrite literal_tail_cons2 in H.
    inversion H as [| | |? span ? s1 ? Hspan H1| | |]; subst.
    inversion H1 as [| |sp ? s2 ? Hsp0 Hsp H2| | | |]; subst.
    destruct sp as [|c sp]; [contradiction|].
    inversion Hsp as [|? ? Hc Hsp']; subst.
    change (span ++ (c :: sp) ++ s2)%list with (span ++ c :: (sp ++ s2))%list.
    rewrite split_chars_solid_space;
      [|eapply same_word_solid; eassumption | assumption].
    rewrite split_chars_spaces by assumption.
    constructor; [assumption|].
    eapply IH; [discriminate | assumption | eassumption].
Qed.

(** A text whose words are the literal words, up to case, is aligned. *)
Lemma words_literal_tail :
  forall lits ms,
    Forall2 same_word lits ms ->
    forall w m rest,
      same_word w m ->
      Py.split_chars [] rest = ms ->
      (rest = [] \/ exists c r, rest = c :: r /\ Py.isspace c = true) ->
      Aligned (literal_tail (w :: lits)) (m ++ rest)%list [].
Proof.
  induction 1 as [|w2 m2 lits ms Hw2 _ IH]; intros w m rest Hw Hsplit Hrest.
  - apply split_chars_nil in Hsplit as [_ Hsp].
    unfold literal_tail. simpl. constructor; [assumption|].
    rewrite <- (app_nil_r rest). constructor; [assumption|].
    constructor; [reflexivity | constructor].
  - apply split_chars_peel in Hsplit
      as (sp & rest2 & -> & Hsp & Hm2 & Hsplit2 & Hrest2).
    rewrite literal_tail_cons2. constructor; [assumption|].
    constructor; [| assumption | now apply IH].
    intros E. subst sp. simpl in Hrest.
    destruct Hrest as [E|(c & r & E & Hc)].
    + destruct Hm2 as [Hne _]. destruct m2; [contradiction | simpl in E; discriminate].
    + destruct Hm2 as [Hne Hm2]. destruct m2 as [|a m2]; [contradiction|].
      simpl in E. injection E as -> _. inversion Hm2; subst. congruence.
Qed.

Lemma literal_regex_parts :
  forall parts,
    Forall (fun part => is_wildcard part = false) parts ->
    regex_parts parts = map Re.Literal (map Py.of_str parts).
Proof.
  induction 1 as [|p parts Hp _ IH]; [reflexivity|].
  unfold regex_parts in *. simpl. rewrite IH.
  now rewrite compile_part_literal.
Qed.

Lemma literal_pattern_score :
  forall parts,
    Forall (fun part => is_wildcard part = false) parts ->
    forall start,
      fold_left (fun score part => (score + part_score part)%Z) parts start
      = (start + 10 * Z.of_nat (List.length parts))%Z.
Proof.
  induction 1 as [|p parts Hp _ IH]; intros start; simpl fold_left.
  - simpl. lia.
  - rewrite IH. unfold part_score. rewrite compile_part_literal by assumption.
    simpl snd. simpl List.length. lia.
Qed.

Lemma Forall2_map_r (A B C : Type) (R : A -> C -> Prop) (f : B -> C) :
  forall l l', Forall2 R l (map f l') <-> Forall2 (fun a b => R a (f b)) l l'.
Proof.
  intros l l'. split.
  - revert l. induction l' as [|b l' IH]; intros l H; inversion H; subst;
      constructor; auto.
  - induction 1; simpl; constructor; auto.
Qed.

Lemma Forall2_map_l (A B C : Type) (R : C -> B -> Prop) (f : A -> C) :
  forall l l', Forall2 R (map f l) l' <-> Forall2 (fun a b => R (f a) b) l l'.
Proof.
  intros l l'. split.
  - revert l'. induction l as [|a l IH]; intros l' H; inversion H; subst;
      constructor; auto.
  - induction 1; simpl; constructor; auto.
Qed.

(** X4. A pattern of literal words matches exactly the inputs whose
    words are those words, up to the case of the letters; the match then
    has no captured span and scores ten per word. *)
Theorem literal_pattern_matches_same_words :
  forall pattern input_text,
    literal_only pattern ->
    (fst (_pattern_match pattern input_text) <> None
     <-> Forall2 same_text (Py.split pattern) (Py.split input_text))
    /\ (fst (_pattern_match pattern input_text) <> None ->
        _pattern_match pattern input_text
        = (Some [], (10 * Z.of_nat (List.length (Py.split pattern)))%Z)).
Proof.
  intros pattern input_text Hlit. unfold literal_only in Hlit.
  assert (Hwords : Forall solid (map Py.of_str (Py.split pattern))).
  { unfold Py.split. rewrite map_map.
    rewrite (map_ext _ _ of_to_str), map_id. apply split_chars_words. }
  assert (Hregex : pattern_regex (Py.split pattern)
                   = Re.Spaces0 :: literal_tail (map Py.of_str (Py.split pattern))).
  { unfold pattern_regex, literal_tail. now rewrite literal_regex_parts. }
  assert (Hrel : Forall2 same_text (Py.split pattern) (Py.split input_text)
                 <-> Forall2 same_word (map Py.of_str (Py.split pattern))
                       (Py.split_chars [] (Py.of_str input_text))).
  { unfold Py.split at 2. rewrite Forall2_map_r, Forall2_map_l.
    unfold same_text. split; intros H; (eapply Forall2_impl; [|exact H]);
      intros a b; cbv beta; rewrite of_to_str; auto. }
  split.
  - rewrite Hrel. unfold _pattern_match, Re.match_groups. rewrite Hregex.
    clear Hregex Hrel Hlit. revert Hwords.
    generalize (map Py.of_str (Py.split pattern)) as lits.
    generalize (Py.of_str input_text) as s. intros s lits Hwords. split.
    + destruct (Re.run _ s) as [found|] eqn:Hrun; [|intros []; reflexivity].
      intros _. apply run_sound in Hrun.
      inversion Hrun as [|sp ? s1 ? Hsp H1| | | | |]; subst.
      rewrite split_chars_spaces by assumption.
      destruct lits as [|w lits].
      * unfold literal_tail in H1. simpl in H1.
        inversion H1 as [|sp1 ? s2 ? Hsp1 H2| | | | |]; subst.
        inversion H2 as [| | | | | |? ? ? Hend _]; subst.
        apply at_end_spaces in Hend.
        rewrite split_chars_spaces by assumption.
        rewrite <- (app_nil_r s2). rewrite split_chars_spaces by assumption.
        constructor.
      * eapply literal_tail_words; [discriminate | assumption | eassumption].
    + intros H.
      assert (Hal : exists found, Aligned (Re.Spaces0 :: literal_tail lits) s found).
      { remember (Py.split_chars [] s) as words eqn:Hsplit. symmetry in Hsplit.
        destruct H as [|w m lits' ms Hw Hrest].
        - apply split_chars_nil in Hsplit as [_ Hsp].
          exists []. rewrite <- (app_nil_r s). constructor; [assumption|].
          unfold literal_tail. simpl. change (@nil ascii) with ([] ++ @nil ascii)%list.
          constructor; [constructor|]. constructor; [reflexivity | constructor].
        - apply split_chars_peel in Hsplit
            as (sp & rest & -> & Hsp & Hm & Hsplit & Hshape).
          exists []. constructor; [assumption|].
          eapply words_literal_tail; eassumption. }
      destruct Hal as [found Hal]. apply run_complete in Hal.
      destruct (Re.run _ s); [discriminate | contradiction].
  - unfold _pattern_match, Re.match_groups.
    destruct (Re.run _ _) as [found|] eqn:Hrun; [|intros []; reflexivity].
    intros _. apply run_sound in Hrun.
    pose proof (Aligned_groups Hrun) as Hlen.
    rewrite groups_pattern_regex in Hlen. unfold wildcard_count in Hlen.
    assert (Hnone : filter is_wildcard (Py.split pattern) = []).
    { clear - Hlit. induction Hlit as [|p parts Hp _ IH]; [reflexivity|].
      simpl. now rewrite Hp. }
    rewrite Hnone in Hlen. destruct found; [|discriminate].
    unfold pattern_score. rewrite literal_pattern_score by assumption.
    reflexivity.
Qed.

Lemma literal_pattern_matches_same_words_witness :
  (fst (_pattern_match "HELLO WORLD" "hello   World") <> None
   <-> Forall2 same_text (Py.split "HELLO WORLD") (Py.split "hello   World"))
  /\ (fst (_pattern_match "HELLO WORLD" "hello   World") <> None ->
      _pattern_match "HELLO WORLD" "hello   World"
      = (Some [], (10 * Z.of_nat (List.length (Py.split "HELLO WORLD")))%Z)).
Proof.
  apply (@literal_pattern_matches_same_words "HELLO WORLD" "hello   World").
  vm_compute. repeat constructor.
Defined.

(* ------------------------------------------------------------------ *)
(** ** Wildcards of the same breadth *)

Lemma same_breadth_regex :
  forall parts1 parts2,
    Forall2 same_breadth parts1 parts2 ->
    pattern_regex parts1 = pattern_regex parts2.
Proof.
  intros parts1 parts2 H. unfold pattern_regex. f_equal. f_equal. f_equal.
  unfold regex_parts. induction H as [|a b l1 l2 Hab _ IH]; simpl; congruence.
Qed.

(** The loop of [_match_pattern], with the score it ends with. *)
Lemma match_loop_scored :
  forall self input_text rest seen best best_score,
    loop_invariant self input_text seen best best_score ->
    loop_invariant self input_text (seen ++ rest)
      (match_loop self input_text rest best best_score)
      (score_loop self input_text rest best_score).
Proof.
  intros self input_text. induction rest as [|c rest IH]; intros seen best best_score Inv.
  - simpl. now rewrite app_nil_r.
  - replace (seen ++ c :: rest)%list with ((seen ++ [c]) ++ rest)%list
      by (rewrite <- app_assoc; reflexivity).
    simpl.
    destruct (topic_differs self c) eqn:Ht.
    { apply IH, loop_invariant_skip; [|assumption].
      intros found score [He _]. rewrite eligible_false in He; auto. discriminate. }
    destruct (that_differs self c) eqn:Hth.
    { apply IH, loop_invariant_skip; [|assumption].
      intros found score [He _]. rewrite eligible_false in He; auto. discriminate. }
    assert (He : eligible self c = true) by (unfold eligible; now rewrite Ht, Hth).
    destruct (_pattern_match (pattern c) input_text) as [[found|] score] eqn:Hpm.
    2:{ apply IH, loop_invariant_skip; [|assumption].
        intros found' score' [_ Hc]. congruence. }
    assert (Hcand : candidate self input_text c found score) by (split; assumption).
    destruct (best_score <? score)%Z eqn:Hlt.
    + apply Z.ltb_lt in Hlt. apply IH.
      eapply loop_invariant_better; eassumption.
    + apply Z.ltb_ge in Hlt. apply IH.
      eapply loop_invariant_not_better; eassumption.
Qed.

Lemma loop_invariant_start :
  forall self input_text,
    loop_invariant self input_text [] (mkPatternMatch false [] None) (-1)%Z.
Proof.
  intros. left. split; [reflexivity|]. split; [reflexivity|].
  intros c found score [].
Qed.

Lemma _match_pattern_invariant :
  forall self input_text,
    loop_invariant self input_text (categories self)
      (_match_pattern self input_text)
      (score_loop self input_text (categories self) (-1)%Z).
Proof.
  intros self input_text. unfold _match_pattern.
  apply (@match_loop_scored self input_text (categories self) []).
  apply loop_invariant_start.
Qed.

(** X5. Two patterns that differ only in the priority of their wildcards
    ([*] against [_], [#] against [^]) accept the same inputs with the same
    captured spans; and of two such categories that pass the filters, the
    one of lower score is never the one [_match_pattern] returns. *)
Theorem high_priority_wildcard_wins :
  forall self input_text c_low c_high,
    In c_low (categories self) ->
    In c_high (categories self) ->
    eligible self c_high = true ->
    Forall2 same_breadth (Py.split (pattern c_low)) (Py.split (pattern c_high)) ->
    (pattern_score (Py.split (pattern c_low))
     < pattern_score (Py.split (pattern c_high)))%Z ->
    fst (_pattern_match (pattern c_low) input_text)
    = fst (_pattern_match (pattern c_high) input_text)
    /\ category (_match_pattern self input_text) <> Some c_low.
Proof.
  intros self input_text c_low c_high Hlow Hhigh Helig Hsame Hscore.
  assert (Hfst : fst (_pattern_match (pattern c_low) input_text)
                 = fst (_pattern_match (pattern c_high) input_text)).
  { unfold _pattern_match. rewrite (same_breadth_regex Hsame).
    destruct (Re.match_groups _ _); reflexivity. }
  split; [exact Hfst|].
  destruct (_match_pattern_invariant self input_text)
    as [(-> & _ & _)|(i & c & found & -> & Hi & [_ Hc] & Hmax)];
    [discriminate|].
  simpl. intros E. injection E as ->.
  pose proof (_pattern_match_found _ _ Hc) as [_ Hs].
  rewrite Hc in Hfst. simpl in Hfst.
  destruct (_pattern_match (pattern c_high) input_text) as [found' score'] eqn:Hh.
  simpl in Hfst. subst found'.
  pose proof (_pattern_match_found _ _ Hh) as [_ Hs'].
  apply In_nth_error in Hhigh as [j Hj].
  destruct (Hmax j c_high found score' Hj (conj Helig Hh)) as [Hle _].
  lia.
Qed.

Lemma high_priority_wildcard_wins_witness :
  fst (_pattern_match "CREATE * USERS" "CREATE TEN USERS")
  = fst (_pattern_match "CREATE _ USERS" "CREATE TEN USERS")
  /\ category
       (_match_pattern
          (fresh_engine [mkCategory "CREATE * USERS" "low" None (Some "*");
                         mkCategory "CREATE _ USERS" "high" None (Some "*")])
          "CREATE TEN USERS")
     <> Some (mkCategory "CREATE * USERS" "low" None (Some "*")).
Proof.
  apply (@high_priority_wildcard_wins
           (fresh_engine [mkCategory "CREATE * USERS" "low" None (Some "*");
                          mkCategory "CREATE _ USERS" "high" None (Some "*")])
           "CREATE TEN USERS"
           (mkCategory "CREATE * USERS" "low" None (Some "*"))
           (mkCategory "CREATE _ USERS" "high" None (Some "*"))).
  - simpl. auto.
  - simpl. auto.
  - reflexivity.
  - vm_compute. repeat constructor.
  - vm_compute. reflexivity.
Defined.

(* ------------------------------------------------------------------ *)
(** ** Variables and topics *)

Lemma variables_get_set_same :
  forall vars name value, variables_get (variables_set vars name value) name = Some value.
Proof.
  unfold variables_get.
  induction vars as [|[k old] vars IH]; intros name value; simpl.
  - now rewrite String.eqb_refl.
  - destruct (String.eqb k name) eqn:E; simpl; rewrite E; [reflexivity | apply IH].
Qed.

Lemma variables_get_set_other :
  forall vars name value other,
    other <> name ->
    variables_get (variables_set vars name value) other = variables_get vars other.
Proof.
  unfold variables_get.
  induction vars as [|[k old] vars IH]; intros name value other Hne; simpl.
  - destruct (String.eqb name other) eqn:E; [|reflexivity].
    apply String.eqb_eq in E. congruence.
  - destruct (String.eqb k name) eqn:E; simpl.
    + apply String.eqb_eq in E. subst k.
      destruct (String.eqb name other) eqn:E'; [|reflexivity].
      apply String.eqb_eq in E'. congruence.
    + destruct (String.eqb k other); [reflexivity | now apply IH].
Qed.

(** X6. A variable that was set reads back as the value it was set to,
    every other variable reads as before, and setting a variable touches
    nothing else of the engine. *)
Theorem get_variable_after_set_variable :
  forall self name value other,
    Engine.get_variable (Engine.set_variable self name value) name = value
    /\ (other <> name ->
        Engine.get_variable (Engine.set_variable self name value) other
        = Engine.get_variable self other)
    /\ categories (Engine.set_variable self name value) = categories self
    /\ self_topic (Engine.set_variable self name value) = self_topic self
    /\ self_that (Engine.set_variable self name value) = self_that self
    /\ history (Engine.set_variable self name value) = history self.
Proof.
  intros self name value other. unfold Engine.get_variable, Engine.set_variable.
  simpl. rewrite variables_get_set_same.
  repeat split; try reflexivity.
  intros Hne. now rewrite variables_get_set_other.
Qed.

Lemma upper_has_no_lower :
  forall s, Forall (fun c => Py.islower c = false) (Py.of_str (Py.upper s)).
Proof.
  intros s. unfold Py.upper. rewrite of_to_str.
  apply Forall_forall. intros c Hc. apply in_map_iff in Hc as (c0 & <- & _).
  revert c0. each_ascii.
Qed.

Lemma _match_pattern_eligible :
  forall self input_text c,
    category (_match_pattern self input_text) = Some c -> eligible self c = true.
Proof.
  intros self input_text c H.
  destruct (_match_pattern_invariant self input_text)
    as [(E & _ & _)|(i & c' & found & E & _ & [He _] & _)];
    rewrite E in H; simpl in H; [discriminate|].
  now injection H as <-.
Qed.

(** X8. [set_topic] upper-cases the topic it is given, while a category
    keeps its topic as it was stored: a category whose topic holds a
    lower-case letter passes the topic filter for no topic that is set,
    and [_match_pattern] never selects it. *)
Theorem lower_case_topic_unreachable :
  forall self new_topic c name input_text,
    topic c = Some name ->
    has_lower name ->
    eligible (Engine.set_topic self new_topic) c = false
    /\ category (_match_pattern (Engine.set_topic self new_topic) input_text)
       <> Some c.
Proof.
  intros self new_topic c name input_text Htopic (ch & Hin & Hlow).
  assert (Hdiff : forall s,
             Forall (fun c => Py.islower c = false) (Py.of_str s) ->
             String.eqb name s = false).
  { intros s Hs. apply String.eqb_neq. intros ->.
    rewrite Forall_forall in Hs. rewrite (Hs _ Hin) in Hlow. discriminate. }
  assert (Hel : eligible (Engine.set_topic self new_topic) c = false).
  { unfold eligible, topic_differs. rewrite Htopic. simpl.
    rewrite (Hdiff "*") by (repeat constructor).
    rewrite (Hdiff (Py.upper new_topic)) by apply upper_has_no_lower.
    reflexivity. }
  split; [exact Hel|].
  intros H. apply _match_pattern_eligible in H. congruence.
Qed.

Lemma lower_case_topic_unreachable_witness :
  eligible (Engine.set_topic (fresh_engine []) "devops")
    (mkCategory "DEPLOY" "ok" None (Some "devops")) = false
  /\ category
       (_match_pattern (Engine.set_topic (fresh_engine []) "devops") "DEPLOY")
     <> Some (mkCategory "DEPLOY" "ok" None (Some "devops")).
Proof.
  apply (@lower_case_topic_unreachable (fresh_engine []) "devops"
           (mkCategory "DEPLOY" "ok" None (Some "devops")) "devops" "DEPLOY").
  - reflexivity.
  - exists "d"%char. vm_compute. auto.
Defined.

(* ------------------------------------------------------------------ *)
(** ** Categories added at run time *)

Lemma match_loop_same_filters :
  forall self self' input_text cats best best_score,
    self_topic self' = self_topic self ->
    self_that self' = self_that self ->
    match_loop self' input_text cats best best_score
    = match_loop self input_text cats best best_score.
Proof.
  intros self self' input_text cats best best_score Ht Hth. revert best best_score.
  induction cats as [|c cats IH]; intros best best_score; [reflexivity|].
  simpl. unfold topic_differs, that_differs. rewrite Ht, Hth.
  destruct (_ && _); [apply IH|].
  destruct (_ && _); [apply IH|].
  destruct (_pattern_match (pattern c) input_text) as [[found|] score];
    [|apply IH].
  destruct (best_score <? score)%Z; apply IH.
Qed.

Lemma match_loop_app :
  forall self input_text cats more best best_score,
    match_loop self input_text (cats ++ more) best best_score
    = match_loop self input_text more
        (match_loop self input_text cats best best_score)
        (score_loop self input_text cats best_score).
Proof.
  intros self input_text. induction cats as [|c cats IH]; intros more best best_score.
  - reflexivity.
  - simpl.
    destruct (topic_differs self c); [apply IH|].
    destruct (that_differs self c); [apply IH|].
    destruct (_pattern_match (pattern c) input_text) as [[found|] score];
      [|apply IH].
    destruct (best_score <? score)%Z; apply IH.
Qed.

Lemma _match_pattern_add_category :
  forall e p tpl tp input_text,
    _match_pattern (Engine.add_category e p tpl tp) input_text
    = match_loop e input_text [Engine.new_category p tpl tp]
        (_match_pattern e input_text)
        (score_loop e input_text (categories e) (-1)%Z).
Proof.
  intros e p tpl tp input_text.
  unfold _match_pattern, Engine.add_category. simpl categories.
  rewrite (@match_loop_same_filters e) by reflexivity.
  apply match_loop_app.
Qed.

Lemma winner_score :
  forall self input_text found c,
    _match_pattern self input_text = mkPatternMatch true found (Some c) ->
    score_loop self input_text (categories self) (-1)%Z
    = pattern_score (Py.split (pattern c))
    /\ candidate self input_text c found (pattern_score (Py.split (pattern c))).
Proof.
  intros self input_text found c H.
  destruct (_match_pattern_invariant self input_text)
    as [(E & _ & _)|(i & c' & found' & E & _ & Hc & _)];
    rewrite E in H; [discriminate|].
  injection H as -> ->. destruct Hc as [He Hc].
  pose proof (_pattern_match_found _ _ Hc) as [_ Hs].
  rewrite Hs in *. split; [reflexivity | split; assumption].
Qed.

Lemma unmatched_score :
  forall self input_text,
    _match_pattern self input_text = mkPatternMatch false [] None ->
    score_loop self input_text (categories self) (-1)%Z = (-1)%Z.
Proof.
  intros self input_text H.
  destruct (_match_pattern_invariant self input_text)
    as [(_ & E & _)|(i & c' & found' & E & _)]; [exact E|].
  rewrite E in H. discriminate.
Qed.

(** X9. A category added at run time goes to the end of the store: it
    answers an input only if it passes the filters, matches and scores
    strictly more than the category that answered before.  An earlier
    category of equal or higher score keeps the input; an input that had
    no match goes to the new category as soon as it matches. *)
Theorem add_category_effect :
  forall self p tpl tp input_text,
    let added := Engine.new_category p tpl tp in
    let self' := Engine.add_category self p tpl tp in
    (forall found c,
        _match_pattern self input_text = mkPatternMatch true found (Some c) ->
        (pattern_score (Py.split (Py.upper p))
         <= pattern_score (Py.split (pattern c)))%Z ->
        _match_pattern self' input_text = mkPatternMatch true found (Some c))
    /\ (forall found score,
           _match_pattern self input_text = mkPatternMatch false [] None ->
           candidate self input_text added found score ->
           _match_pattern self' input_text = mkPatternMatch true found (Some added))
    /\ (forall found c found' score',
           _match_pattern self input_text = mkPatternMatch true found (Some c) ->
           candidate self input_text added found' score' ->
           (pattern_score (Py.split (pattern c)) < score')%Z ->
           _match_pattern self' input_text = mkPatternMatch true found' (Some added)).
Proof.
  intros self p tpl tp input_text added self'. unfold self'.
  rewrite _match_pattern_add_category. fold added.
  assert (Hstep : forall best best_score,
    match_loop self input_text [added] best best_score
    = if eligible self added
      then match _pattern_match (pattern added) input_text with
           | (Some found, score) =>
               if (best_score <? score)%Z
               then mkPatternMatch true found (Some added)
               else best
           | (None, _) => best
           end
      else best).
  { intros best best_score. unfold eligible.
    change (that_differs self added) with false. simpl.
    destruct (topic_differs self added); [reflexivity|]. simpl.
    destruct (_pattern_match (pattern added) input_text) as [[found|] score];
      [|reflexivity].
    destruct (best_score <? score)%Z; reflexivity. }
  rewrite Hstep. split; [|split].
  - intros found c Hold Hle.
    destruct (winner_score _ _ Hold) as [-> _]. rewrite Hold.
    destruct (eligible self added); [|reflexivity].
    destruct (_pattern_match (pattern added) input_text) as [[found'|] score] eqn:Hpm;
      [|reflexivity].
    apply _pattern_match_found in Hpm as [_ ->].
    change (pattern added) with (Py.upper p).
    destruct (_ <? _)%Z eqn:Hlt; [|reflexivity].
    apply Z.ltb_lt in Hlt. lia.
  - intros found score Hold [He Hpm].
    rewrite (unmatched_score _ _ Hold), He, Hpm.
    pose proof (_pattern_match_score_nonneg _ _ Hpm) as Hnonneg.
    destruct (-1 <? score)%Z eqn:Hlt; [reflexivity|].
    apply Z.ltb_ge in Hlt. lia.
  - intros found c found' score' Hold [He Hpm] Hlt.
    destruct (winner_score _ _ Hold) as [-> _]. rewrite He, Hpm.
    apply Z.ltb_lt in Hlt. now rewrite Hlt.
Qed.

Lemma add_category_effect_witness :
  _match_pattern
    (Engine.add_category (fresh_engine [either_category]) "cat or *" "Pets." "*")
    "CAT OR DOG"
  = mkPatternMatch true ["DOG"]
      (Some (Engine.new_category "cat or *" "Pets." "*")).
Proof.
  apply (proj2 (proj2 (@add_category_effect (fresh_engine [either_category])
                         "cat or *" "Pets." "*" "CAT OR DOG"))
           ["CAT"; "DOG"] either_category ["DOG"] 21%Z).
  - reflexivity.
  - split; reflexivity.
  - reflexivity.
Defined.

(** *** A learned pattern and its own text *)

Lemma kept_upper_char : forall c, kept (Py.upper_char c) = kept c.
Proof. each_ascii. Qed.

Lemma spaceless_dot :
  forall w, spaceless w -> Forall (fun c => Re.dot c = true) w.
Proof.
  intros w H. eapply Forall_impl; [|exact H].
  each_ascii.
Qed.

Lemma same_word_refl : forall w, same_word w w.
Proof.
  induction w; constructor; [apply same_letter_refl | assumption].
Qed.

(** A word is aligned with the token it spells, whatever the token is. *)
Lemma token_self_aligned :
  forall w r s found,
    solid w -> Aligned r s found ->
    exists found',
      Aligned (fst (compile_part (Py.to_str w)) :: r) (w ++ s)%list found'.
Proof.
  intros w r s found [Hne Hw] H.
  destruct (compile_part_cases (Py.to_str w)) as [E|[E|E]]; rewrite E.
  - eexists. constructor; [assumption | now apply spaceless_dot | eassumption].
  - eexists. constructor; [now apply spaceless_dot | eassumption].
  - rewrite of_to_str. eexists.
    constructor; [apply same_word_refl | eassumption].
Qed.

Lemma words_self_aligned :
  forall words,
    Forall solid words ->
    exists found,
      Aligned (pattern_regex (map Py.to_str words)) (join_chars [space] words) found.
Proof.
  intros words Hsolid.
  assert (Htail : exists found,
             Aligned (Re.join_atoms Re.Spaces1 (regex_parts (map Py.to_str words))
                        ++ [Re.Spaces0; Re.EndAnchor])%list
               (join_chars [space] words) found).
  { induction words as [|w [|w' words] IH].
    - exists []. simpl. change (@nil ascii) with ([] ++ @nil ascii)%list.
      constructor; [constructor|]. constructor; [reflexivity | constructor].
    - inversion Hsolid as [|? ? Hw _]; subst.
      assert (Hend : Aligned [Re.Spaces0; Re.EndAnchor] [] []).
      { change (@nil ascii) with ([] ++ @nil ascii)%list.
        constructor; [constructor|]. constructor; [reflexivity | constructor]. }
      destruct (token_self_aligned Hw Hend) as [found Hfound].
      rewrite app_nil_r in Hfound. exists found. exact Hfound.
    - inversion Hsolid as [|? ? Hw Hrest]; subst.
      destruct (IH Hrest) as [found Hfound].
      change (join_chars [space] (w :: w' :: words))
        with (w ++ [space] ++ join_chars [space] (w' :: words))%list.
      change (Re.join_atoms Re.Spaces1 (regex_parts (map Py.to_str (w :: w' :: words)))
                ++ [Re.Spaces0; Re.EndAnchor])%list
        with (fst (compile_part (Py.to_str w)) :: Re.Spaces1
                :: (Re.join_atoms Re.Spaces1
                      (regex_parts (map Py.to_str (w' :: words)))
                    ++ [Re.Spaces0; Re.EndAnchor])%list).
      eapply token_self_aligned; [assumption|].
      constructor; [discriminate | repeat constructor | eassumption]. }
  destruct Htail as [found Hfound]. exists found.
  unfold pattern_regex.
  change (join_chars [space] words) with ([] ++ join_chars [space] words)%list.
  constructor; [constructor | exact Hfound].
Qed.

Lemma candidate_is_matched :
  forall self input_text c found score,
    In c (categories self) ->
    candidate self input_text c found score ->
    matched (_match_pattern self input_text) = true.
Proof.
  intros self input_text c found score Hin Hc.
  destruct (_match_pattern_invariant self input_text)
    as [(_ & _ & Hnone)|(i & c' & found' & -> & _)]; [|reflexivity].
  destruct (Hnone _ _ _ Hin Hc).
Qed.

(** X10. A pattern added with [add_category] for every topic, and
    spelled only with characters the normalizer keeps, is matched by its
    own text: after the addition [_match_pattern] finds a category for
    it, whatever the engine held before. *)
Theorem added_pattern_matches_its_text :
  forall self p tpl,
    Forall (fun c => kept c = true) (Py.of_str p) ->
    matched (_match_pattern (Engine.add_category self p tpl "*") (_normalize p))
    = true.
Proof.
  intros self p tpl Hkept.
  set (words := Py.split_chars [] (map Py.upper_char (Py.of_str p))).
  assert (Hnorm : Py.of_str (_normalize p) = join_chars [space] words).
  { rewrite normalize_chars. unfold words. f_equal. f_equal.
    apply filter_all. apply Forall_forall. intros c Hc.
    apply in_map_iff in Hc as (c0 & <- & Hc0).
    rewrite kept_upper_char. rewrite Forall_forall in Hkept. auto. }
  assert (Hparts : Py.split (Py.upper p) = map Py.to_str words).
  { unfold Py.split, Py.upper. now rewrite of_to_str. }
  destruct (words_self_aligned (split_chars_words _ : Forall solid words))
    as [found Hal].
  apply run_complete in Hal.
  destruct (Re.run (pattern_regex (map Py.to_str words)) (join_chars [space] words))
    as [found'|] eqn:Hrun; [|contradiction].
  apply (@candidate_is_matched _ _ (Engine.new_category p tpl "*") found'
           (pattern_score (Py.split (Py.upper p)))).
  - unfold Engine.add_category. simpl. apply in_or_app. right. now left.
  - split; [reflexivity|].
    unfold _pattern_match, Re.match_groups. simpl pattern.
    rewrite Hparts, Hnorm, Hrun. reflexivity.
Qed.

Lemma added_pattern_matches_its_text_witness :
  matched (_match_pattern
             (Engine.add_category (fresh_engine []) "restart * now" "Restarting." "*")
             (_normalize "restart * now"))
  = true.
Proof.
  apply (@added_pattern_matches_its_text (fresh_engine []) "restart * now"
           "Restarting.").
  vm_compute. repeat constructor.
Defined.

(* ------------------------------------------------------------------ *)
(** ** What an evaluation leaves in place *)

Section Kept.

Variable RE : AIMLEngine -> AIMLEngine -> Prop.
Variable RR : ActionResult -> ActionResult -> Prop.
Variable sides : bool.

Hypothesis RE_refl : forall e, RE e e.
Hypothesis RE_trans : forall a b c, RE a b -> RE b c -> RE a c.
Hypothesis RR_refl : forall r, RR r r.
Hypothesis RR_trans : forall a b c, RR a b -> RR b c -> RR a c.
Hypothesis RE_set_variable :
  forall name v st, RE (self st) (self (set_variable name v st)).
Hypothesis RR_sides : sides = true -> forall r r', RR r r'.

Lemma keeps_ret : forall (A : Type) (a : A), Keeps RE RR (ret a).
Proof. intros A a st a' st' H. injection H as _ <-. auto. Qed.

Lemma keeps_bind :
  forall (A B : Type) (m : M A) (f : A -> M B),
    Keeps RE RR m -> (forall a, Keeps RE RR (f a)) -> Keeps RE RR (bind m f).
Proof.
  intros A B m f Hm Hf st b st' H. unfold bind in H.
  destruct (m st) as [[a st1]|e] eqn:E; [|discriminate].
  destruct (Hm _ _ _ E) as [H1 H2]. destruct (Hf _ _ _ _ H) as [H3 H4].
  split; eauto.
Qed.

Lemma keeps_read : Keeps RE RR read.
Proof. intros st a st' H. injection H as _ <-. auto. Qed.

Lemma keeps_raise : forall (A : Type) e, Keeps RE RR (@raise A e).
Proof. intros A e st a st' H. discriminate. Qed.

Lemma keeps_load_inputs : forall decoded, Keeps RE RR (load_inputs decoded).
Proof.
  intros [parsed| | |]; simpl;
    [apply keeps_ret | apply keeps_ret | apply keeps_raise | apply keeps_raise].
Qed.

Lemma keeps_set_variable :
  forall name v, Keeps RE RR (update (set_variable name v)).
Proof.
  intros name v st a st' H. injection H as _ <-. split; [apply RE_set_variable|].
  apply RR_refl.
Qed.

Lemma keeps_update_result :
  forall f,
    sides = true ->
    (forall st, self (f st) = self st) ->
    Keeps RE RR (update f).
Proof.
  intros f Hs Hf st a st' H. injection H as _ <-. rewrite Hf.
  split; [apply RE_refl | now apply RR_sides].
Qed.

Lemma keeps_random_choice :
  forall (A B : Type) (items : list A) (f : option A -> M B),
    (forall x, In x items -> Keeps RE RR (f (Some x))) ->
    Keeps RE RR (f None) ->
    Keeps RE RR (bind (random_choice items) f).
Proof.
  intros A B items f Hsome Hnone st b st' H. unfold bind, random_choice in H.
  destruct (draws st) as [|d rest].
  - destruct (nth_error items 0) as [x|] eqn:E.
    + apply (Hsome x (nth_error_In _ _ E) _ _ _ H).
    + apply (Hnone _ _ _ H).
  - destruct (nth_error items (d mod List.length items)) as [x|] eqn:E.
    + apply (Hsome x (nth_error_In _ _ E) _ _ _ H).
    + apply (Hnone _ _ _ H).
Qed.

Lemma keeps_call_respond :
  forall respond_rec redirect,
    RespondKeeps RE respond_rec ->
    Keeps RE RR (call_respond respond_rec redirect).
Proof.
  intros respond_rec redirect Hr st a st' H. unfold call_respond in H.
  destruct (respond_rec _ redirect) as [[out w]|e] eqn:E; [|discriminate].
  injection H as _ <-. simpl. split; [|apply RR_refl].
  apply (Hr _ _ _ _ E).
Qed.

Lemma li_runs_keep :
  forall runs, RunsKeep RE RR runs -> RunsKeep RE RR (li_runs runs).
Proof.
  intros runs H. unfold RunsKeep, li_runs in *. rewrite Forall_forall in *.
  intros r Hr. apply filter_In in Hr as [Hr _]. auto.
Qed.

Lemma runs_keep_in :
  forall runs e m, RunsKeep RE RR runs -> In (e, m) runs -> Keeps RE RR m.
Proof.
  intros runs e m H Hin. unfold RunsKeep in H. rewrite Forall_forall in H.
  apply (H _ Hin).
Qed.

Lemma keeps_condition_loop :
  forall name lis output,
    RunsKeep RE RR lis -> Keeps RE RR (condition_loop name lis output).
Proof.
  intros name lis output H. induction H as [|[li run_li] lis Hli _ IH]; simpl.
  - apply keeps_ret.
  - apply keeps_bind; [apply keeps_read|]. intros st.
    destruct (_ || _).
    + apply keeps_bind; [exact Hli|]. intros v. apply keeps_ret.
    + exact IH.
Qed.

Ltac keeps :=
  repeat first
    [ apply keeps_ret
    | apply keeps_read
    | apply keeps_raise
    | apply keeps_load_inputs
    | assumption
    | apply keeps_set_variable
    | apply keeps_update_result; [assumption | reflexivity]
    | apply keeps_call_respond; assumption
    | apply keeps_condition_loop; assumption
    | eapply runs_keep_in; eassumption
    | apply keeps_random_choice; [intros [? ?] ?|]
    | apply keeps_bind; [|intros ?]
    | match goal with
      | |- Keeps _ _ (if ?c then _ else _) => destruct c
      | |- Keeps _ _ (match ?x with Some _ => _ | None => _ end) => destruct x
      end ].

Variable json_loads : string -> Decoded.
Variable py_eval : string -> option string.

Lemma process_tag_keeps :
  forall respond_rec stars child run_child run_kids output,
    RespondKeeps RE respond_rec ->
    Keeps RE RR run_child ->
    RunsKeep RE RR run_kids ->
    sides || negb (writes_result child) = true ->
    Keeps RE RR
      (process_tag json_loads py_eval respond_rec stars child run_child run_kids
         output).
Proof.
  intros respond_rec stars child run_child run_kids output Hrec Hchild Hkids Hok.
  assert (Hli := li_runs_keep Hkids).
  apply orb_true_iff in Hok as [Hs|Hplain].
  - unfold process_tag.
    destruct (li_runs run_kids) as [|item items]; keeps.
  - unfold writes_result in Hplain. apply negb_true_iff in Hplain.
    repeat (apply orb_false_iff in Hplain as [Hplain ?]).
    unfold process_tag.
    repeat match goal with
           | H : String.eqb _ _ = false |- _ => rewrite H; clear H
           end.
    cbv iota.
    destruct (li_runs run_kids) as [|item items]; keeps.
Qed.

Lemma process_child_keeps :
  forall respond_rec stars child run_child run_kids output,
    RespondKeeps RE respond_rec ->
    Keeps RE RR run_child ->
    RunsKeep RE RR run_kids ->
    sides || negb (writes_result child) = true ->
    Keeps RE RR
      (process_child json_loads py_eval respond_rec stars child run_child run_kids
         output).
Proof.
  intros. unfold process_child.
  apply keeps_bind; [now apply process_tag_keeps|].
  intros. apply keeps_ret.
Qed.

Lemma _process_element_keeps_children :
  forall respond_rec,
    RespondKeeps RE respond_rec ->
    forall element,
      (template_plain sides element = true ->
       forall stars,
         Keeps RE RR (_process_element json_loads py_eval respond_rec element stars))
      /\ Forall (fun k =>
                   template_plain sides k = true ->
                   forall stars,
                     Keeps RE RR
                       (_process_element json_loads py_eval respond_rec k stars))
           (ET.children element).
Proof.
  intros respond_rec Hrec.
  induction element as [t a x kids tl IH] using Element_children_ind.
  assert (Hkids : Forall (fun k =>
                   template_plain sides k = true ->
                   forall stars,
                     Keeps RE RR
                       (_process_element json_loads py_eval respond_rec k stars))
                    kids).
  { rewrite Forall_forall in *. intros k Hk. apply (IH k Hk). }
  split; [|exact Hkids].
  intros Hok stars. simpl in Hok. simpl.
  generalize (initial_output (ET.Elem t a x kids tl)).
  induction kids as [|child kids IHkids]; intros output.
  - apply keeps_ret.
  - simpl in Hok. apply andb_true_iff in Hok as [Hchild Hok].
    apply andb_true_iff in Hchild as [Htag Hchild].
    inversion IH as [|? ? [Hself Hgrand] IHrest]; subst.
    inversion Hkids as [|? ? _ Hkids']; subst.
    apply keeps_bind.
    + apply process_child_keeps; auto.
      destruct child as [ct ca cx grandkids ctl]. simpl in Hchild, Hgrand.
      clear - Hchild Hgrand.
      induction grandkids as [|g gs IHg]; [constructor|].
      simpl in Hchild. apply andb_true_iff in Hchild as [Hg Hgs].
      apply andb_true_iff in Hg as [_ Hg].
      inversion Hgrand; subst.
      constructor; [simpl; auto | apply IHg; assumption].
    + intros output'. apply IHkids; assumption.
Qed.

Lemma _process_element_keeps :
  forall respond_rec element stars,
    RespondKeeps RE respond_rec ->
    template_plain sides element = true ->
    Keeps RE RR (_process_element json_loads py_eval respond_rec element stars).
Proof.
  intros respond_rec element stars Hrec Hok.
  now apply (_process_element_keeps_children Hrec element).
Qed.

End Kept.

(* ------------------------------------------------------------------ *)
(** ** The engine across a turn *)

Lemma variables_set_keeps_names :
  forall vars name v other,
    variables_get vars other <> None ->
    variables_get (variables_set vars name v) other <> None.
Proof.
  intros vars name v other H.
  destruct (String.eqb other name) eqn:E.
  - apply String.eqb_eq in E. subst other.
    rewrite variables_get_set_same. discriminate.
  - apply String.eqb_neq in E. now rewrite variables_get_set_other.
Qed.

Lemma engine_grows_refl : forall e, engine_grows e e.
Proof.
  intros e. repeat split; auto. exists []. now rewrite app_nil_r.
Qed.

Lemma engine_grows_trans :
  forall a b c, engine_grows a b -> engine_grows b c -> engine_grows a c.
Proof.
  intros a b c (Hc1 & Ht1 & [m1 Hh1] & Hv1) (Hc2 & Ht2 & [m2 Hh2] & Hv2).
  repeat split; try congruence; auto.
  exists (m1 ++ m2)%list. now rewrite Hh2, Hh1, app_assoc.
Qed.

Lemma engine_grows_set_variable :
  forall name v st, engine_grows (self st) (self (set_variable name v st)).
Proof.
  intros name v st. repeat split; simpl.
  - exists []. now rewrite app_nil_r.
  - intros other. apply variables_set_keeps_names.
Qed.

Lemma template_plain_sides : forall element, template_plain true element = true.
Proof.
  induction element as [t a x kids tl IH] using Element_children_ind. simpl.
  apply forallb_forall. intros k Hk. rewrite Forall_forall in IH.
  now rewrite (IH k Hk).
Qed.

Section Turn.

Variable ET_fromstring : string -> option ET.Element.
Variable json_loads : string -> Decoded.
Variable py_eval : string -> option string.

Lemma _process_template_grows :
  forall respond_rec w template found r w',
    RespondKeeps engine_grows respond_rec ->
    _process_template ET_fromstring json_loads py_eval respond_rec w template found
    = Ok (r, w') ->
    engine_grows (engine w) (engine w').
Proof.
  intros respond_rec w template found r w' Hrec H. unfold _process_template in H.
  destruct (ET_fromstring template) as [root|].
  - destruct (_process_element _ _ _ _ _ _) as [[v st]|e] eqn:E; [|discriminate].
    injection H as _ <-.
    apply (@_process_element_keeps engine_grows (fun _ _ => True) true) in E;
      auto using engine_grows_refl, engine_grows_set_variable,
        template_plain_sides.
    + apply E.
    + apply engine_grows_trans.
  - injection H as _ <-. apply engine_grows_refl.
Qed.

(** What one call of [respond] does to the engine, given what the calls
    it makes through [srai] do. *)
Lemma respond_body_turn :
  forall respond_rec w input_text out w',
    RespondKeeps engine_grows respond_rec ->
    respond_body ET_fromstring json_loads py_eval respond_rec w input_text
    = Ok (out, w') ->
    engine_grows (engine w) (engine w')
    /\ match out with
       | None => w' = w
       | Some r =>
           (exists nested,
               history (engine w')
               = (history (engine w) ++ nested ++ [(input_text, text r)])%list)
           /\ self_that (engine w') = Py.upper (text r)
       end.
Proof.
  intros respond_rec w input_text out w' Hrec H. unfold respond_body in H.
  destruct (negb _).
  { injection H as <- <-. split; [apply engine_grows_refl | reflexivity]. }
  destruct (category _) as [c|]; [|discriminate].
  destruct (_process_template _ _ _ _ _ _ _) as [[r w1]|e] eqn:E; [|discriminate].
  injection H as <- <-.
  destruct (_process_template_grows _ _ _ Hrec E) as (Hc & Ht & [nested Hh] & Hv).
  simpl. repeat split; auto.
  - exists (nested ++ [(input_text, text r)])%list. now rewrite Hh, app_assoc.
  - exists nested. now rewrite Hh, app_assoc.
  - now destruct (text r).
Qed.

Lemma respond_nested_grows :
  forall limit,
    RespondKeeps engine_grows
      (respond_nested ET_fromstring json_loads py_eval limit).
Proof.
  induction limit as [|limit IH]; intros w s out w' H; [discriminate|].
  apply (respond_body_turn _ _ IH H).
Qed.

End Turn.

(** X11. A call of [respond] that returns leaves the categories and the
    topic as they were and loses no variable.  Without a match the engine
    is untouched; with one, the history is extended, the entries of the
    calls nested through [srai] first and the entry of this turn last,
    and the preceding response becomes the upper-cased text of this
    turn's result, not that of a nested call. *)
Theorem respond_keeps_store :
  forall ET_fromstring json_loads py_eval limit w input_text out w',
    respond ET_fromstring json_loads py_eval limit w input_text = Ok (out, w') ->
    engine_grows (engine w) (engine w')
    /\ match out with
       | None => w' = w
       | Some r =>
           (exists nested,
               history (engine w')
               = (history (engine w) ++ nested ++ [(input_text, text r)])%list)
           /\ self_that (engine w') = Py.upper (text r)
       end.
Proof.
  intros ET_fromstring json_loads py_eval limit w input_text out w' H.
  eapply respond_body_turn; [apply respond_nested_grows | exact H].
Qed.

Lemma respond_keeps_store_witness :
  engine_grows (fresh_engine [forward_category; deploy_category])
    (mkAIMLEngine [forward_category; deploy_category] [] "*" "DEPLOYING."
       [("DEPLOY", "Deploying."); ("ship it!", "Deploying.")])
  /\ (exists nested,
         [("DEPLOY", "Deploying."); ("ship it!", "Deploying.")]
         = ([] ++ nested ++ [("ship it!", "Deploying.")])%list)
     /\ "DEPLOYING." = Py.upper "Deploying.".
Proof.
  apply (@respond_keeps_store forward_fromstring example_loads example_eval 5
           (example_world [forward_category; deploy_category]) "ship it!"
           (Some (mkActionResult "Deploying." None None None None None None))
           (mkWorld
              (mkAIMLEngine [forward_category; deploy_category] [] "*" "DEPLOYING."
                 [("DEPLOY", "Deploying."); ("ship it!", "Deploying.")])
              [])).
  vm_compute. reflexivity.
Defined.

(* ------------------------------------------------------------------ *)
(** ** The result of a template without result-writing tags *)

(** X12. A template in which no tag is [action], [choice], [confirm],
    [llm] or [learn-action] yields a result that carries a text and
    nothing else, whatever the calls it makes through [srai] do: the
    workflow, choices or confirmation of the category an [srai] hands
    over to stay with the nested call, only its text comes back. *)
Theorem plain_template_result :
  forall ET_fromstring json_loads py_eval respond_rec w template found root r w',
    ET_fromstring template = Some root ->
    template_plain false root = true ->
    _process_template ET_fromstring json_loads py_eval respond_rec w template found
    = Ok (r, w') ->
    r = mkActionResult (text r) None None None None None None.
Proof.
  intros ET_fromstring json_loads py_eval respond_rec w template found root r w'
    Hparse Hplain H.
  unfold _process_template in H. rewrite Hparse in H.
  destruct (_process_element _ _ _ _ _ _) as [[v st]|e] eqn:E; [|discriminate].
  injection H as <- _.
  apply (@_process_element_keeps (fun _ _ => True) eq false) in E;
    auto; try congruence.
  - destruct E as [_ <-]. reflexivity.
  - intros rec_w s out rec_w' _. exact I.
Qed.

Lemma plain_template_result_witness :
  mkActionResult "Deploying." None None None None None None
  = mkActionResult
      (text (mkActionResult "Deploying." None None None None None None))
      None None None None None None.
Proof.
  apply (@plain_template_result forward_fromstring example_loads example_eval
           (respond forward_fromstring example_loads example_eval 5)
           (example_world [forward_category; deploy_category])
           forward_template [] forward_tree
           (mkActionResult "Deploying." None None None None None None)
           (mkWorld
              (mkAIMLEngine [forward_category; deploy_category] [] "*" "DEPLOYING."
                 [("DEPLOY", "Deploying.")])
              [])).
  - reflexivity.
  - reflexivity.
  - vm_compute. reflexivity.
Defined.

(* ------------------------------------------------------------------ *)
(** ** Variables in templates *)

Section Tags.
Variable json_loads : string -> Decoded.
Variable py_eval : string -> option string.

Lemma process_tag_get :
  forall respond_rec found child run_child run_kids output st,
    Py.lower (ET.tag child) = "get" ->
    process_tag json_loads py_eval respond_rec found child run_child run_kids
      output st
    = Ok ((output ++ [Engine.get_variable (self st) (ET.get_default child "name" "")])%list,
          st).
Proof.
  intros respond_rec found child run_child run_kids output st H.
  unfold process_tag. rewrite H. reflexivity.
Qed.

Lemma process_tag_set :
  forall respond_rec found child run_child run_kids output st v st',
    Py.lower (ET.tag child) = "set" ->
    run_child st = Ok (v, st') ->
    process_tag json_loads py_eval respond_rec found child run_child run_kids
      output st
    = Ok ((output ++ [v])%list,
          set_variable (ET.get_default child "name" "") v st').
Proof.
  intros respond_rec found child run_child run_kids output st v st' H Hrun.
  unfold process_tag. rewrite H. cbn [String.eqb Ascii.eqb Bool.eqb].
  unfold bind. rewrite Hrun. reflexivity.
Qed.

Lemma process_tag_think :
  forall respond_rec found child run_child run_kids output st v st',
    Py.lower (ET.tag child) = "think" ->
    run_child st = Ok (v, st') ->
    process_tag json_loads py_eval respond_rec found child run_child run_kids
      output st
    = Ok (output, st').
Proof.
  intros respond_rec found child run_child run_kids output st v st' H Hrun.
  unfold process_tag. rewrite H. cbn [String.eqb Ascii.eqb Bool.eqb].
  unfold bind. rewrite Hrun. reflexivity.
Qed.

(** X7. A [set] tag stores the text of its body with the white space
    around it removed and puts the same text out; a [get] tag of that
    name placed after it reads the stored text back.  Inside [think] the
    text is dropped and the variable is stored all the same. *)
Theorem set_then_get_in_template :
  forall respond_rec t a tl name v found st,
    let stored := set_variable name (Py.strip v) st in
    let set_tag := ET.Elem "set" [("name", name)] (Some v) [] None in
    let get_tag := ET.Elem "get" [("name", name)] None [] None in
    _process_element json_loads py_eval respond_rec
      (ET.Elem t a None [set_tag; get_tag] tl) found st
    = Ok (Py.strip (Py.strip v ++ Py.strip v), stored)
    /\ _process_element json_loads py_eval respond_rec
         (ET.Elem t a None [ET.Elem "think" [] None [set_tag] None; get_tag] tl)
         found st
       = Ok (Py.strip (Py.strip v), stored)
    /\ Engine.get_variable (self stored) name = Py.strip v.
Proof.
  intros respond_rec t a tl name v found st stored set_tag get_tag.
  assert (Hbody : forall st0,
             _process_element json_loads py_eval respond_rec set_tag found st0
             = Ok (Py.strip v, st0)).
  { intros st0. simpl. unfold ret, finish, initial_output. simpl.
    destruct v; reflexivity. }
  assert (Hget : Engine.get_variable (self stored) name = Py.strip v).
  { unfold Engine.get_variable, stored. simpl.
    now rewrite variables_get_set_same. }
  assert (Hset : forall output st0,
             process_child json_loads py_eval respond_rec found set_tag
               (_process_element json_loads py_eval respond_rec set_tag found)
               [] output st0
             = Ok ((output ++ [Py.strip v])%list,
                   set_variable name (Py.strip v) st0)).
  { intros output st0. unfold process_child, bind.
    rewrite (@process_tag_set _ _ _ _ _ _ _ (Py.strip v) st0);
      [reflexivity | reflexivity | apply Hbody]. }
  assert (Hread : forall kids output,
             process_child json_loads py_eval respond_rec found get_tag
               (_process_element json_loads py_eval respond_rec get_tag found)
               kids output stored
             = Ok ((output ++ [Py.strip v])%list, stored)).
  { intros kids output. unfold process_child, bind.
    rewrite process_tag_get by reflexivity.
    change (ET.get_default get_tag "name" "") with name.
    now rewrite Hget. }
  split; [|split; [|exact Hget]].
  - change (_process_element json_loads py_eval respond_rec
              (ET.Elem t a None [set_tag; get_tag] tl) found)
      with (bind (process_child json_loads py_eval respond_rec found set_tag
                    (_process_element json_loads py_eval respond_rec set_tag found)
                    [] [])
              (fun output =>
                 bind (process_child json_loads py_eval respond_rec found get_tag
                         (_process_element json_loads py_eval respond_rec get_tag
                            found) [] output)
                   (fun output => ret (finish output)))).
    unfold bind at 1. rewrite Hset. fold stored.
    unfold bind. rewrite Hread. reflexivity.
  - set (think_tag := ET.Elem "think" [] None [set_tag] None).
    assert (Hthink : _process_element json_loads py_eval respond_rec think_tag
                       found st
                     = Ok (Py.strip (Py.strip v), stored)).
    { change (_process_element json_loads py_eval respond_rec think_tag found)
        with (bind (process_child json_loads py_eval respond_rec found set_tag
                      (_process_element json_loads py_eval respond_rec set_tag
                         found) [] [])
                (fun output => ret (finish output))).
      unfold bind. rewrite Hset. reflexivity. }
    change (_process_element json_loads py_eval respond_rec
              (ET.Elem t a None [think_tag; get_tag] tl) found)
      with (bind (process_child json_loads py_eval respond_rec found think_tag
                    (_process_element json_loads py_eval respond_rec think_tag
                       found)
                    [(set_tag,
                      _process_element json_loads py_eval respond_rec set_tag
                        found)] [])
              (fun output =>
                 bind (process_child json_loads py_eval respond_rec found get_tag
                         (_process_element json_loads py_eval respond_rec get_tag
                            found) [] output)
                   (fun output => ret (finish output)))).
    unfold bind at 1. unfold process_child at 1. unfold bind at 1.
    rewrite (@process_tag_think _ _ _ _ _ _ _ _ _ (eq_refl : Py.lower (ET.tag think_tag) = "think") Hthink).
    unfold ret at 1. cbv beta iota.
    change (append_tail think_tag []) with (@nil string).
    unfold bind. rewrite Hread. reflexivity.
Qed.
End Tags.

(* ------------------------------------------------------------------ *)
(** ** The intent of an input *)

Lemma strip_prefix_app :
  forall needle s rest b,
    Py.strip_prefix needle s = Some rest ->
    Py.strip_prefix needle (s ++ b)%list = Some (rest ++ b)%list.
Proof.
  induction needle as [|a needle IH]; intros s rest b H; simpl in *.
  - now injection H as <-.
  - destruct s as [|c s]; [discriminate|]. simpl.
    destruct (Ascii.eqb a c); [now apply IH | discriminate].
Qed.

Lemma contains_chars_app_r :
  forall needle s b,
    LLM.contains_chars needle s = true ->
    LLM.contains_chars needle (s ++ b)%list = true.
Proof.
  intros needle s b. induction s as [|c s IH]; intros H.
  - simpl in H. destruct (Py.strip_prefix needle []) as [rest|] eqn:E;
      [|discriminate].
    destruct needle; [|discriminate]. destruct b; reflexivity.
  - simpl in H. simpl.
    destruct (Py.strip_prefix needle (c :: s)) as [rest|] eqn:E.
    + change (c :: (s ++ b)%list) with ((c :: s) ++ b)%list.
      now rewrite (@strip_prefix_app _ _ _ b E).
    + destruct (Py.strip_prefix needle (c :: (s ++ b)%list)); auto.
Qed.

Lemma contains_chars_app_l :
  forall needle a s,
    LLM.contains_chars needle s = true ->
    LLM.contains_chars needle (a ++ s)%list = true.
Proof.
  intros needle a s H. induction a as [|c a IH]; [exact H|].
  simpl. destruct (Py.strip_prefix needle (c :: (a ++ s)%list)); auto.
Qed.

Lemma lower_app : forall a b, Py.lower (a ++ b) = Py.lower a ++ Py.lower b.
Proof.
  intros a b. apply of_str_inj. unfold Py.lower.
  rewrite !of_str_app, !of_to_str. apply map_app.
Qed.

Lemma contains_inside :
  forall keyword before text after,
    LLM.contains keyword text = true ->
    LLM.contains keyword (before ++ text ++ after) = true.
Proof.
  intros keyword before text after H. unfold LLM.contains in *.
  rewrite !of_str_app. now apply contains_chars_app_l, contains_chars_app_r.
Qed.

Lemma lower_upper_char : forall c, Py.lower_char (Py.upper_char c) = Py.lower_char c.
Proof. each_ascii. Qed.

Lemma lower_upper : forall s, Py.lower (Py.upper s) = Py.lower s.
Proof.
  intros s. unfold Py.lower, Py.upper. rewrite of_to_str, map_map.
  f_equal. apply map_ext. apply lower_upper_char.
Qed.

(** The keywords of [keywords] that occur in [lower]. *)
Lemma intent_loop_none :
  forall lower intents,
    LLM.intent_loop lower intents = None
    <-> (forall intent keywords keyword,
            In (intent, keywords) intents -> In keyword keywords ->
            LLM.contains keyword lower = false).
Proof.
  intros lower. induction intents as [|[name keywords] intents IH]; simpl.
  - split; [intros _ ? ? ? []|reflexivity].
  - destruct (existsb _ keywords) eqn:E.
    + split; [discriminate|]. intros H.
      apply existsb_exists in E as (k & Hk & Hc).
      rewrite (H name keywords k) in Hc; auto. discriminate.
    + rewrite IH. split.
      * intros H intent ks k [Heq|Hin] Hk.
        -- injection Heq as <- <-.
           destruct (LLM.contains k lower) eqn:Hc; [|reflexivity].
           assert (existsb (fun keyword => LLM.contains keyword lower) keywords
                   = true) by (apply existsb_exists; eauto).
           congruence.
        -- eapply H; eassumption.
      * intros H intent ks k Hin Hk. eapply H; [right|]; eassumption.
Qed.

Lemma intent_loop_some :
  forall lower intents intent,
    LLM.intent_loop lower intents = Some intent ->
    exists before keywords after keyword,
      intents = (before ++ (intent, keywords) :: after)%list
      /\ In keyword keywords
      /\ LLM.contains keyword lower = true
      /\ LLM.intent_loop lower before = None.
Proof.
  intros lower. induction intents as [|[name keywords] intents IH]; simpl;
    intros intent H; [discriminate|].
  destruct (existsb _ keywords) eqn:E.
  - injection H as <-. apply existsb_exists in E as (k & Hk & Hc).
    exists [], keywords, intents, k. auto.
  - destruct (IH _ H) as (before & ks & after & k & -> & Hk & Hc & Hb).
    exists ((name, keywords) :: before), ks, after, k.
    repeat split; auto. simpl. now rewrite E.
Qed.

(** X13. [_classify_intent] returns the first intent of the table, in
    its order, one of whose keywords occurs in the lower-cased input, and
    [None] exactly when no keyword of the table occurs in it. *)
Theorem classify_intent_first_keyword :
  forall intents input_text,
    (LLM._classify_intent intents input_text = None
     <-> (forall intent keywords keyword,
             In (intent, keywords) intents -> In keyword keywords ->
             LLM.contains keyword (Py.lower input_text) = false))
    /\ (forall intent,
          LLM._classify_intent intents input_text = Some intent ->
          exists before keywords after keyword,
            intents = (before ++ (intent, keywords) :: after)%list
            /\ In keyword keywords
            /\ LLM.contains keyword (Py.lower input_text) = true
            /\ LLM._classify_intent before input_text = None).
Proof.
  intros intents input_text. split.
  - apply intent_loop_none.
  - intros intent. apply intent_loop_some.
Qed.

(** X14. The keywords are looked for as substrings of the lower-cased
    input, with no regard for word boundaries or for case: an input that
    contains a classified text is classified too, and the upper-cased
    input gets the intent of the input. *)
Theorem classify_intent_substring :
  forall intents input_text,
    (forall before after,
        LLM._classify_intent intents input_text <> None ->
        LLM._classify_intent intents (before ++ input_text ++ after) <> None)
    /\ LLM._classify_intent intents (Py.upper input_text)
       = LLM._classify_intent intents input_text.
Proof.
  intros intents input_text. split.
  - intros before after H Hnone. apply H.
    apply intent_loop_none. intros intent keywords keyword Hin Hk.
    destruct (LLM.contains keyword (Py.lower input_text)) eqn:Hc; [|reflexivity].
    unfold LLM._classify_intent in Hnone.
    rewrite intent_loop_none in Hnone.
    specialize (Hnone _ _ _ Hin Hk).
    rewrite !lower_app in Hnone.
    now rewrite contains_inside in Hnone.
  - unfold LLM._classify_intent. now rewrite lower_upper.
Qed.

(* ------------------------------------------------------------------ *)
(** ** The pattern suggested for an input *)

Lemma pattern_word_cases :
  forall keywords word,
    LLM.pattern_word keywords word = word \/ LLM.pattern_word keywords word = "*".
Proof.
  intros keywords word. unfold LLM.pattern_word.
  destruct (existsb _ keywords); auto.
  destruct (LLM.isdigit word); auto.
  destruct (3 <? String.length word)%nat; auto.
Qed.

Lemma collapse_covers :
  forall keywords words,
    Covers (LLM.collapse false
              (map (LLM.pattern_word keywords) (map Py.to_str words))) words
    /\ (forall run,
          run <> [] ->
          Covers ("*" :: LLM.collapse true
                           (map (LLM.pattern_word keywords) (map Py.to_str words)))
            (run ++ words)%list).
Proof.
  intros keywords. induction words as [|w words [IHf IHt]].
  - split; [constructor|]. intros run Hrun. simpl.
    constructor; [assumption | constructor].
  - simpl.
    destruct (String.eqb (LLM.pattern_word keywords (Py.to_str w)) "*") eqn:E.
    + split.
      * apply (IHt [w]). discriminate.
      * intros run Hrun.
        replace (run ++ w :: words)%list with ((run ++ [w]) ++ words)%list
          by now rewrite <- app_assoc.
        apply IHt. intros H. apply app_eq_nil in H as [_ H]. discriminate.
    + assert (Hw : LLM.pattern_word keywords (Py.to_str w) = Py.to_str w).
      { destruct (pattern_word_cases keywords (Py.to_str w)) as [H|H]; [exact H|].
        rewrite H in E. discriminate. }
      rewrite Hw. split.
      * now constructor.
      * intros run Hrun. constructor; [assumption|]. now constructor.
Qed.

Lemma regex_after_cons :
  forall token tokens,
    (Re.join_atoms Re.Spaces1 (regex_parts (token :: tokens))
       ++ [Re.Spaces0; Re.EndAnchor])%list
    = fst (compile_part token) :: regex_after tokens.
Proof. intros token [|t tokens]; reflexivity. Qed.

Lemma text_after_cons :
  forall w words, join_chars [space] (w :: words) = (w ++ text_after words)%list.
Proof.
  intros w [|w' words]; simpl; [now rewrite app_nil_r | reflexivity].
Qed.

Lemma text_after_app :
  forall run words,
    run <> [] ->
    join_chars [space] (run ++ words)
    = (join_chars [space] run ++ text_after words)%list.
Proof.
  induction run as [|w [|w' run] IH]; intros words Hrun.
  - contradiction.
  - apply text_after_cons.
  - change (join_chars [space] ((w :: w' :: run) ++ words))
      with (w ++ space :: join_chars [space] ((w' :: run) ++ words))%list.
    rewrite IH by discriminate.
    change (join_chars [space] (w :: w' :: run))
      with (w ++ space :: join_chars [space] (w' :: run))%list.
    now rewrite <- app_assoc.
Qed.

Lemma dot_space : Re.dot space = true.
Proof. reflexivity. Qed.

(** The words of a run, one space apart, are a span a broad wildcard
    can take. *)
Lemma run_span :
  forall run,
    run <> [] -> Forall solid run ->
    join_chars [space] run <> []
    /\ Forall (fun c => Re.dot c = true) (join_chars [space] run).
Proof.
  intros run Hrun Hsolid. split.
  - destruct run as [|w run]; [contradiction|].
    inversion Hsolid as [|? ? [Hne _] _]; subst.
    rewrite text_after_cons. intros H. apply app_eq_nil in H as [H _]. contradiction.
  - apply join_chars_Forall; [reflexivity|].
    eapply Forall_impl; [|exact Hsolid].
    intros w [_ Hw]. now apply spaceless_dot.
Qed.

Lemma end_aligned : Aligned [Re.Spaces0; Re.EndAnchor] [] [].
Proof.
  change (@nil ascii) with ([] ++ @nil ascii)%list.
  constructor; [constructor|]. constructor; [reflexivity | constructor].
Qed.

Lemma covers_after :
  forall tokens words,
    Covers tokens words -> Forall solid words ->
    exists found, Aligned (regex_after tokens) (text_after words) found.
Proof.
  induction 1 as [|w tokens words _ IH|run tokens words Hrun _ IH]; intros Hsolid.
  - exists []. apply end_aligned.
  - inversion Hsolid as [|? ? Hw Hrest]; subst.
    destruct (IH Hrest) as [found Hfound].
    destruct (token_self_aligned Hw Hfound) as [found' Hfound'].
    exists found'. unfold regex_after. rewrite regex_after_cons.
    unfold text_after. rewrite text_after_cons.
    change (space :: (w ++ text_after words)%list)
      with ([space] ++ (w ++ text_after words))%list.
    constructor; [discriminate | repeat constructor | exact Hfound'].
  - apply Forall_app in Hsolid as [Hsolid_run Hsolid].
    destruct (IH Hsolid) as [found Hfound].
    destruct (@run_span run Hrun Hsolid_run) as [Hne Hdot].
    eexists. unfold regex_after. rewrite regex_after_cons.
    unfold text_after.
    destruct (run ++ words)%list eqn:E.
    { apply app_eq_nil in E as [E _]. contradiction. }
    rewrite <- E. rewrite text_after_app by assumption.
    change (space :: (join_chars [space] run ++ text_after words)%list)
      with ([space] ++ (join_chars [space] run ++ text_after words))%list.
    constructor; [discriminate | repeat constructor |].
    change (fst (compile_part "*")) with Re.Lazy1.
    constructor; eassumption.
Qed.

Lemma covers_aligned :
  forall tokens words,
    Covers tokens words -> Forall solid words ->
    exists found,
      Aligned (pattern_regex tokens) (join_chars [space] words) found.
Proof.
  intros tokens words H Hsolid.
  assert (Hrest : exists found,
             Aligned (Re.join_atoms Re.Spaces1 (regex_parts tokens)
                        ++ [Re.Spaces0; Re.EndAnchor])%list
               (join_chars [space] words) found).
  { destruct H as [|w tokens words H|run tokens words Hrun H].
    - exists []. apply end_aligned.
    - inversion Hsolid as [|? ? Hw Hrest]; subst.
      destruct (covers_after H Hrest) as [found Hfound].
      rewrite regex_after_cons, text_after_cons.
      apply (token_self_aligned Hw Hfound).
    - apply Forall_app in Hsolid as [Hsolid_run Hsolid].
      destruct (covers_after H Hsolid) as [found Hfound].
      destruct (@run_span run Hrun Hsolid_run) as [Hne Hdot].
      rewrite regex_after_cons, text_after_app by assumption.
      change (fst (compile_part "*")) with Re.Lazy1.
      eexists. constructor; eassumption. }
  destruct Hrest as [found Hfound]. exists found. unfold pattern_regex.
  change (join_chars [space] words) with ([] ++ join_chars [space] words)%list.
  constructor; [constructor | exact Hfound].
Qed.

Lemma collapse_Forall (Q : string -> Prop) :
  forall pattern_words prev,
    Forall Q pattern_words -> Forall Q (LLM.collapse prev pattern_words).
Proof.
  induction pattern_words as [|word rest IH]; intros prev H; [constructor|].
  inversion H as [|? ? Hword Hrest]; subst. simpl.
  destruct (String.eqb word "*") eqn:E.
  - apply String.eqb_eq in E. subst word.
    destruct prev; [apply IH, Hrest|]. constructor; [assumption | apply IH, Hrest].
  - constructor; [assumption | apply IH, Hrest].
Qed.

Lemma collapse_length :
  forall pattern_words prev,
    (List.length (LLM.collapse prev pattern_words) <= List.length pattern_words)%nat.
Proof.
  induction pattern_words as [|word rest IH]; intros prev; simpl; [lia|].
  destruct (String.eqb word "*").
  - destruct prev; simpl; [specialize (IH true) | specialize (IH true)]; lia.
  - simpl. specialize (IH false). lia.
Qed.

Lemma collapse_not_adjacent :
  forall pattern_words prev,
    adjacent_wildcards (LLM.collapse prev pattern_words) = false
    /\ (prev = true ->
        match LLM.collapse prev pattern_words with
        | first :: _ => String.eqb first "*" = false
        | [] => True
        end).
Proof.
  induction pattern_words as [|word rest IH]; intros prev; [simpl; auto|].
  simpl. destruct (String.eqb word "*") eqn:E.
  - destruct prev.
    + apply IH.
    + split; [|discriminate].
      destruct (IH true) as [Hadj Hfirst]. specialize (Hfirst eq_refl).
      simpl. destruct (LLM.collapse true rest) as [|first others]; [reflexivity|].
      rewrite Hfirst. simpl in *. exact Hadj.
  - split; [|intros _; exact E].
    destruct (IH false) as [Hadj _].
    simpl. destruct (LLM.collapse false rest) as [|first others]; [reflexivity|].
    rewrite E. simpl in *. exact Hadj.
Qed.

Lemma as_words : forall tokens, tokens = map Py.to_str (map Py.of_str tokens).
Proof.
  intros tokens. rewrite map_map. rewrite <- (map_id tokens) at 1.
  apply map_ext. intros t. now rewrite to_of_str.
Qed.

Lemma split_join_tokens :
  forall tokens,
    Forall (fun t => solid (Py.of_str t)) tokens ->
    Py.split (Py.join " " tokens) = tokens.
Proof.
  intros tokens H. rewrite (as_words tokens) at 1. unfold Py.split.
  rewrite of_str_join. change (Py.of_str " ") with [space].
  rewrite split_join_chars; [symmetry; apply as_words|].
  apply Forall_map. exact H.
Qed.

Lemma upper_join_tokens :
  forall tokens,
    Forall (fun t => Forall (fun c => Py.upper_char c = c) (Py.of_str t)) tokens ->
    Py.upper (Py.join " " tokens) = Py.join " " tokens.
Proof.
  intros tokens H. apply of_str_inj. unfold Py.upper. rewrite of_to_str.
  apply map_fixed. rewrite (as_words tokens), of_str_join.
  apply join_chars_Forall; [reflexivity|]. apply Forall_map. exact H.
Qed.

Section Suggestion.

Variable intents : list (string * list string).
Variable input_text intent : string.

Lemma suggested_words_are :
  LLM.suggested_words intents input_text intent
  = LLM.collapse false
      (map (LLM.pattern_word (LLM.keywords_of intents intent))
         (map Py.to_str (upper_words input_text))).
Proof.
  unfold LLM.suggested_words, Py.split, Py.upper, upper_words.
  now rewrite of_to_str.
Qed.

Lemma suggested_words_from (Q : string -> Prop) :
  Q "*" -> Forall (fun w => Q (Py.to_str w)) (upper_words input_text) ->
  Forall Q (LLM.suggested_words intents input_text intent).
Proof.
  intros Hstar Hwords. rewrite suggested_words_are.
  apply collapse_Forall. apply Forall_map, Forall_map.
  eapply Forall_impl; [|exact Hwords]. intros w Hw.
  destruct (pattern_word_cases (LLM.keywords_of intents intent) (Py.to_str w))
    as [-> | ->]; assumption.
Qed.

Lemma suggested_words_solid :
  Forall (fun t => solid (Py.of_str t))
    (LLM.suggested_words intents input_text intent).
Proof.
  apply suggested_words_from.
  - split; [discriminate | repeat constructor].
  - eapply Forall_impl; [|apply split_chars_words].
    intros w Hw. now rewrite of_to_str.
Qed.

Lemma suggested_words_upper :
  Forall (fun t => Forall (fun c => Py.upper_char c = c) (Py.of_str t))
    (LLM.suggested_words intents input_text intent).
Proof.
  apply suggested_words_from.
  - repeat constructor.
  - assert (H : Forall (Forall (fun c => Py.upper_char c = c))
                 (upper_words input_text)).
    { apply split_chars_Forall; [|constructor].
      apply Forall_forall. intros c Hc. apply in_map_iff in Hc as (c0 & <- & _).
      apply upper_char_idem. }
    eapply Forall_impl; [|exact H]. intros w Hw. now rewrite of_to_str.
Qed.

Lemma suggested_pattern_split :
  Py.split (Py.upper (LLM._suggest_pattern intents input_text intent))
  = LLM.suggested_words intents input_text intent.
Proof.
  unfold LLM._suggest_pattern.
  rewrite (upper_join_tokens suggested_words_upper).
  apply split_join_tokens, suggested_words_solid.
Qed.

(** The suggested pattern accepts the normal form of the input it was
    suggested for, when the normalizer removes nothing from that input. *)
Lemma suggested_pattern_accepts :
  Forall (fun c => kept c = true) (Py.of_str input_text) ->
  exists found,
    _pattern_match (Py.upper (LLM._suggest_pattern intents input_text intent))
      (_normalize input_text)
    = (Some found,
       pattern_score (LLM.suggested_words intents input_text intent)).
Proof.
  intros Hkept.
  assert (Hnorm : Py.of_str (_normalize input_text)
                  = join_chars [space] (upper_words input_text)).
  { rewrite normalize_chars. unfold upper_words. f_equal. f_equal.
    apply filter_all. apply Forall_forall. intros c Hc.
    apply in_map_iff in Hc as (c0 & <- & Hc0).
    rewrite kept_upper_char. rewrite Forall_forall in Hkept. auto. }
  pose proof (proj1 (collapse_covers (LLM.keywords_of intents intent)
                       (upper_words input_text)))
    as Hcov.
  rewrite <- suggested_words_are in Hcov.
  destruct (covers_aligned Hcov (split_chars_words _)) as [found Hal].
  apply run_complete in Hal.
  destruct (Re.run _ _) as [found'|] eqn:Hrun; [|contradiction].
  exists found'. unfold _pattern_match, Re.match_groups.
  rewrite suggested_pattern_split, Hnorm, Hrun. reflexivity.
Qed.

End Suggestion.

(** X15. The pattern [_suggest_pattern] returns is upper-case and reads
    back, token by token, as the words it was joined from; no two
    wildcards follow each other in it, it has at most as many tokens as
    the input has words, and each token is the star or a word of the
    upper-cased input. *)
Theorem suggest_pattern_shape :
  forall intents input_text intent,
    let pattern := LLM._suggest_pattern intents input_text intent in
    let tokens := LLM.suggested_words intents input_text intent in
    Py.upper pattern = pattern
    /\ Py.split pattern = tokens
    /\ adjacent_wildcards tokens = false
    /\ (List.length tokens <= List.length (Py.split (Py.upper input_text)))%nat
    /\ Forall (fun token =>
                 token = "*" \/ In token (Py.split (Py.upper input_text)))
         tokens.
Proof.
  intros intents input_text intent pattern tokens.
  split; [|split; [|split; [|split]]].
  - apply upper_join_tokens, suggested_words_upper.
  - apply split_join_tokens, suggested_words_solid.
  - apply collapse_not_adjacent.
  - unfold tokens, LLM.suggested_words.
    etransitivity; [apply collapse_length|]. now rewrite length_map.
  - unfold tokens, LLM.suggested_words. apply collapse_Forall.
    apply Forall_map. apply Forall_forall. intros word Hword.
    destruct (pattern_word_cases (LLM.keywords_of intents intent) word)
      as [-> | ->]; auto.
Qed.

Lemma suggested_category_answers :
  forall self intents input_text intent tpl,
    Forall (fun c => kept c = true) (Py.of_str input_text) ->
    exists found,
      candidate (Engine.add_category self
                   (LLM._suggest_pattern intents input_text intent) tpl "*")
        (_normalize input_text)
        (Engine.new_category (LLM._suggest_pattern intents input_text intent)
           tpl "*")
        found
        (pattern_score (LLM.suggested_words intents input_text intent)).
Proof.
  intros self intents input_text intent tpl Hkept.
  destruct (@suggested_pattern_accepts intents input_text intent Hkept)
    as [found Hfound].
  exists found. split; [reflexivity | exact Hfound].
Qed.

(** X16. Once the pattern suggested for an input is added for every
    topic, [_match_pattern] finds a category for the normal form of that
    input, provided the input holds no character the normalizer
    removes. *)
Theorem suggested_pattern_matches_its_input :
  forall self intents input_text intent tpl,
    Forall (fun c => kept c = true) (Py.of_str input_text) ->
    matched (_match_pattern
               (Engine.add_category self
                  (LLM._suggest_pattern intents input_text intent) tpl "*")
               (_normalize input_text))
    = true.
Proof.
  intros self intents input_text intent tpl Hkept.
  destruct (@suggested_category_answers self intents input_text intent tpl Hkept)
    as [found Hcand].
  eapply candidate_is_matched; [|exact Hcand].
  unfold Engine.add_category. simpl. apply in_or_app. right. now left.
Qed.

Lemma suggested_pattern_matches_its_input_witness :
  matched (_match_pattern
             (Engine.add_category (fresh_engine [either_category])
                (LLM._suggest_pattern LLM.known_intents
                   "deploy the frontend 42" "deploy")
                "Deploying." "*")
             (_normalize "deploy the frontend 42"))
  = true.
Proof.
  apply (@suggested_pattern_matches_its_input (fresh_engine [either_category])
           LLM.known_intents "deploy the frontend 42" "deploy" "Deploying.").
  vm_compute. repeat constructor.
Defined.

(* ------------------------------------------------------------------ *)
(** ** Learning a suggested pattern *)

Lemma eligible_add_category :
  forall self p tpl tp c,
    eligible (Engine.add_category self p tpl tp) c = eligible self c.
Proof. reflexivity. Qed.

Lemma match_loop_single :
  forall self input_text c best best_score,
    match_loop self input_text [c] best best_score
    = if eligible self c
      then match _pattern_match (pattern c) input_text with
           | (Some found, score) =>
               if (best_score <? score)%Z
               then mkPatternMatch true found (Some c)
               else best
           | (None, _) => best
           end
      else best.
Proof.
  intros self input_text c best best_score. simpl. unfold eligible.
  destruct (topic_differs self c); [reflexivity|].
  destruct (that_differs self c); [reflexivity|]. simpl.
  destruct (_pattern_match (pattern c) input_text) as [[found|] score];
    [|reflexivity].
  destruct (best_score <? score)%Z; reflexivity.
Qed.

Lemma add_category_takes_unmatched :
  forall self p tpl tp input_text found score,
    matched (_match_pattern self input_text) = false ->
    candidate (Engine.add_category self p tpl tp) input_text
      (Engine.new_category p tpl tp) found score ->
    _match_pattern (Engine.add_category self p tpl tp) input_text
    = mkPatternMatch true found (Some (Engine.new_category p tpl tp)).
Proof.
  intros self p tpl tp input_text found score Hno [He Hpm].
  rewrite eligible_add_category in He.
  assert (Hold : _match_pattern self input_text = mkPatternMatch false [] None).
  { destruct (_match_pattern_shape self input_text) as [H|(c & f & H & _)];
      [exact H|]. rewrite H in Hno. discriminate. }
  rewrite _match_pattern_add_category, Hold, (unmatched_score _ _ Hold).
  pose proof (_pattern_match_score_nonneg _ _ Hpm) as Hnonneg.
  rewrite match_loop_single, He, Hpm.
  destruct (-1 <? score)%Z eqn:Hlt; [reflexivity|].
  apply Z.ltb_ge in Hlt. lia.
Qed.

Lemma strip_chars_fixed :
  forall a cs b,
    Py.isspace a = false -> Py.isspace b = false ->
    Py.strip_chars (a :: cs ++ [b])%list = (a :: cs ++ [b])%list.
Proof.
  intros a cs b Ha Hb. unfold Py.strip_chars, Py.strip_by.
  assert (Hfront : Py.drop_while Py.isspace (a :: cs ++ [b])%list
                   = (a :: cs ++ [b])%list) by (simpl; now rewrite Ha).
  rewrite Hfront.
  assert (Hrev : rev (a :: cs ++ [b])%list = b :: rev (a :: cs)).
  { change (a :: (cs ++ [b])%list) with ((a :: cs) ++ [b])%list.
    now rewrite rev_app_distr. }
  rewrite Hrev.
  assert (Hback : Py.drop_while Py.isspace (b :: rev (a :: cs)) = b :: rev (a :: cs))
    by (simpl; now rewrite Hb).
  rewrite Hback, <- Hrev. apply rev_involutive.
Qed.

Lemma strip_learned_reply :
  forall pattern,
    Py.strip ("Executing " ++ pattern ++ "...") = "Executing " ++ pattern ++ "...".
Proof.
  intros pattern. apply of_str_inj. unfold Py.strip. rewrite of_to_str.
  rewrite !of_str_app.
  change (Py.of_str "Executing ")
    with ("E"%char :: Py.of_str "xecuting ")%list.
  change (Py.of_str "...") with (Py.of_str ".." ++ ["."%char])%list.
  rewrite <- app_comm_cons, !app_assoc.
  apply strip_chars_fixed; reflexivity.
Qed.

Section Learning.

Variable intents : list (string * list string).
Variable generate_text : string -> string.
Variable ET_fromstring : string -> option ET.Element.
Variable json_loads : string -> Decoded.
Variable py_eval : string -> option string.

(** A template that is one text, evaluated. *)
Lemma respond_text_template :
  forall limit w input_text found c reply,
    _match_pattern (engine w) (_normalize input_text)
    = mkPatternMatch true found (Some c) ->
    ET_fromstring (template c) = Some (ET.Elem "template" [] (Some reply) [] None) ->
    exists w',
      respond ET_fromstring json_loads py_eval limit w input_text
      = Ok (Some (text_only (Py.strip reply)), w')
      /\ categories (engine w') = categories (engine w).
Proof.
  intros limit w input_text found c reply Hmatch Hparse.
  unfold respond, respond_body. rewrite Hmatch. cbn [matched negb category stars].
  unfold _process_template. rewrite Hparse.
  cbn [_process_element]. unfold ret.
  assert (Hfinish : finish (initial_output (ET.Elem "template" [] (Some reply) [] None))
                    = Py.strip reply).
  { unfold finish, initial_output. destruct reply; reflexivity. }
  rewrite Hfinish. eexists. split; reflexivity.
Qed.

(** X17. The learning loop.  An input without forbidden characters
    that no category matches and whose intent is recognized gets a
    suggestion, which then waits.  A confirmation as the next input adds
    the suggested pattern with the reply [Executing <pattern>...]; any
    other next input drops the suggestion and leaves the engine as it
    was.  After the confirmation the first input is answered by the
    learned category, with that reply. *)
Theorem learning_loop :
  forall limit w input_text intent confirmation,
    let pattern := LLM._suggest_pattern intents input_text intent in
    let reply := "Executing " ++ pattern ++ "..." in
    let waiting := mkAIMLActionsEngine w (Some (pattern, intent)) in
    let learned :=
      mkWorld (Engine.add_category (engine w) pattern reply "*") (pending_draws w) in
    let turn :=
      Actions.respond intents generate_text ET_fromstring json_loads py_eval limit in
    Forall (fun c => kept c = true) (Py.of_str input_text) ->
    matched (_match_pattern (engine w) (_normalize input_text)) = false ->
    LLM._classify_intent intents input_text = Some intent ->
    In (Py.lower confirmation) Actions.confirmations ->
    ET_fromstring ("<template>" ++ reply ++ "</template>")
    = Some (ET.Elem "template" [] (Some reply) [] None) ->
    (exists asked,
        turn (mkAIMLActionsEngine w None) input_text
        = Ok (Suggest asked pattern intent, waiting))
    /\ (exists told,
           turn waiting confirmation
           = Ok (Answer (text_only told), mkAIMLActionsEngine learned None))
    /\ (forall other,
           ~ In (Py.lower other) Actions.confirmations ->
           exists told,
             turn waiting other
             = Ok (Answer (text_only told), mkAIMLActionsEngine w None))
    /\ (exists w',
           turn (mkAIMLActionsEngine learned None) input_text
           = Ok (Answer (text_only reply), mkAIMLActionsEngine w' None)
           /\ categories (engine w') = categories (engine learned)).
Proof.
  intros limit w input_text intent confirmation pattern reply waiting learned turn
    Hkept Hno Hintent Hyes Hparse.
  assert (Hin : forall s,
             existsb (String.eqb (Py.lower s)) Actions.confirmations = true
             <-> In (Py.lower s) Actions.confirmations).
  { intros s. rewrite existsb_exists. split.
    - intros (x & Hx & E). apply String.eqb_eq in E. now subst x.
    - intros H. exists (Py.lower s). split; [exact H | apply String.eqb_refl]. }
  split; [|split; [|split]].
  - unfold turn, Actions.respond. cbn [pending_learn aiml].
    unfold respond, respond_body. rewrite Hno. cbn [negb].
    unfold Actions.handle. rewrite Hintent. eexists. reflexivity.
  - unfold turn, Actions.respond, waiting. cbn [pending_learn aiml].
    apply Hin in Hyes. rewrite Hyes. eexists. reflexivity.
  - intros other Hother. unfold turn, Actions.respond, waiting.
    cbn [pending_learn aiml].
    destruct (existsb _ Actions.confirmations) eqn:E.
    + apply Hin in E. contradiction.
    + eexists. reflexivity.
  - destruct (@suggested_category_answers (engine w) intents input_text intent
                reply Hkept) as [found Hcand].
    pose proof (add_category_takes_unmatched Hno Hcand) as Hmatch.
    destruct (@respond_text_template limit learned input_text found _ reply
                Hmatch Hparse) as (w' & Hturn & Hcats).
    exists w'. split; [|exact Hcats].
    unfold turn, Actions.respond. cbn [pending_learn aiml].
    assert (Hstrip : Py.strip reply = reply) by apply strip_learned_reply.
    rewrite Hturn, Hstrip. reflexivity.
Qed.

End Learning.

Lemma learning_loop_witness :
  let pattern := LLM._suggest_pattern LLM.known_intents "deploy the frontend 42" "deploy" in
  let reply := "Executing " ++ pattern ++ "..." in
  let w := example_world [either_category] in
  let waiting := mkAIMLActionsEngine w (Some (pattern, "deploy")) in
  let learned :=
    mkWorld (Engine.add_category (engine w) pattern reply "*") (pending_draws w) in
  let turn :=
    Actions.respond LLM.known_intents silent_model learned_fromstring example_loads
      example_eval 5 in
  (exists asked,
      turn (mkAIMLActionsEngine w None) "deploy the frontend 42"
      = Ok (Suggest asked pattern "deploy", waiting))
  /\ (exists told,
         turn waiting "Yes"
         = Ok (Answer (text_only told), mkAIMLActionsEngine learned None))
  /\ (forall other,
         ~ In (Py.lower other) Actions.confirmations ->
         exists told,
           turn waiting other
           = Ok (Answer (text_only told), mkAIMLActionsEngine w None))
  /\ (exists w',
         turn (mkAIMLActionsEngine learned None) "deploy the frontend 42"
         = Ok (Answer (text_only reply), mkAIMLActionsEngine w' None)
         /\ categories (engine w') = categories (engine learned)).
Proof.
  apply (@learning_loop LLM.known_intents silent_model learned_fromstring
           example_loads example_eval 5 (example_world [either_category])
           "deploy the frontend 42" "deploy" "Yes").
  - vm_compute. repeat constructor.
  - reflexivity.
  - reflexivity.
  - vm_compute. auto.
  - reflexivity.
Defined.

(* ------------------------------------------------------------------ *)
(** ** Loading categories from AIML files *)

Lemma drop_while_Forall (Q : ascii -> Prop) (p : ascii -> bool) :
  forall l, Forall Q l -> Forall Q (Py.drop_while p l).
Proof.
  induction l as [|c l IH]; intros H; [constructor|].
  simpl. destruct (p c); [|exact H]. inversion H; subst. now apply IH.
Qed.

Lemma strip_Forall (Q : ascii -> Prop) :
  forall s, Forall Q (Py.of_str s) -> Forall Q (Py.of_str (Py.strip s)).
Proof.
  intros s H. unfold Py.strip, Py.strip_chars, Py.strip_by. rewrite of_to_str.
  apply Forall_rev, drop_while_Forall, Forall_rev, drop_while_Forall, H.
Qed.

Lemma stripped_upper_has_no_lower :
  forall s,
    Forall (fun x => Py.islower x = false) (Py.of_str (Py.strip (Py.upper s))).
Proof. intros s. apply strip_Forall, upper_has_no_lower. Qed.

Lemma loads_onto_refl : forall self, loads_onto self self [].
Proof. intros self. unfold loads_onto. now rewrite app_nil_r. Qed.

Lemma loads_onto_trans :
  forall a b c first second,
    loads_onto a b first -> loads_onto b c second ->
    loads_onto a c (first ++ second)%list.
Proof.
  intros a b c first second (Hc1 & Hv1 & Ht1 & Hh1 & Hy1) (Hc2 & Hv2 & Ht2 & Hh2 & Hy2).
  unfold loads_onto. rewrite Hc2, Hc1, app_assoc. repeat split; congruence.
Qed.

Section Loaded.

Variable ET_tostring : ET.Element -> string.
Variable ET_parse : string -> option ET.Element.
Variable glob_aiml : string -> option (list string).

Lemma Loads_refl : forall self, Loads self self.
Proof. intros self. exists []. split; [apply loads_onto_refl | constructor]. Qed.

Lemma Loads_trans : forall a b c, Loads a b -> Loads b c -> Loads a c.
Proof.
  intros a b c (first & H1 & S1) (second & H2 & S2).
  exists (first ++ second)%list. split; [eapply loads_onto_trans; eassumption|].
  apply Forall_app. auto.
Qed.

Lemma _parse_category_cases :
  forall self element name,
    Loader._parse_category ET_tostring self element name = self
    \/ exists c,
         loads_onto self (Loader._parse_category ET_tostring self element name) [c]
         /\ loaded_shape c
         /\ topic c = Some name
         /\ pattern c
            = Py.strip (Py.upper (Loader._get_text (Loader.find element "pattern"))).
Proof.
  intros self element name. unfold Loader._parse_category.
  destruct (Loader.find element "pattern") as [p|]; [|now left].
  destruct (Loader.find element "template") as [t|]; [|now left].
  right. eexists. split; [|split; [|split]].
  - unfold loads_onto. simpl. auto.
  - split; [discriminate|]. split; simpl.
    + apply stripped_upper_has_no_lower.
    + intros th H. destruct (Loader.find element "that"); [|discriminate].
      injection H as <-. apply stripped_upper_has_no_lower.
  - reflexivity.
  - reflexivity.
Qed.

Lemma _parse_category_loads :
  forall self element name,
    Loads self (Loader._parse_category ET_tostring self element name).
Proof.
  intros self element name.
  destruct (_parse_category_cases self element name) as [->|(c & H & S & _)].
  - apply Loads_refl.
  - exists [c]. split; [exact H | now constructor].
Qed.

Lemma parse_categories_loads :
  forall elements self name,
    Loads self (Loader.parse_categories ET_tostring self elements name).
Proof.
  induction elements as [|element rest IH]; intros self name; simpl.
  - apply Loads_refl.
  - eapply Loads_trans; [apply _parse_category_loads | apply IH].
Qed.

Lemma load_elements_loads :
  forall elements self current_topic,
    Loads self (Loader.load_elements ET_tostring self current_topic elements).
Proof.
  induction elements as [|element rest IH]; intros self current_topic; simpl.
  - apply Loads_refl.
  - destruct (String.eqb (ET.tag element) "topic").
    + eapply Loads_trans; [apply parse_categories_loads | apply IH].
    + destruct (String.eqb (ET.tag element) "category").
      * eapply Loads_trans; [apply _parse_category_loads | apply IH].
      * apply IH.
Qed.

Lemma load_file_loads :
  forall self filepath,
    Loads self (Loader.load_file ET_tostring ET_parse self filepath).
Proof.
  intros self filepath. unfold Loader.load_file.
  destruct (ET_parse filepath); [apply load_elements_loads | apply Loads_refl].
Qed.

(** X18. Loading a directory of AIML files only appends categories: the
    categories held before stay at the front in their order, and the
    variables, the topic, the preceding response and the history are
    left alone.  Every category that is loaded has a topic, and no
    lower-case letter in its pattern or in its preceding response. *)
Theorem load_patterns_appends :
  forall self patterns_dir,
    exists loaded,
      loads_onto self
        (Loader.load_patterns ET_tostring ET_parse glob_aiml self patterns_dir)
        loaded
      /\ Forall loaded_shape loaded.
Proof.
  intros self patterns_dir. unfold Loader.load_patterns.
  destruct (glob_aiml patterns_dir) as [files|]; [|apply Loads_refl].
  revert self. induction files as [|file files IH]; intros self; simpl.
  - apply Loads_refl.
  - eapply Loads_trans; [apply load_file_loads | apply IH].
Qed.

(** X19. The topic of a [topic] element outlives the element: a
    category that follows it at the top level of the file is loaded right
    after the categories of the element and under the same topic, so
    that, unless that topic is the star, only an engine set to it can
    select the category. *)
Theorem topic_outlives_its_element :
  forall self current_topic topic_element category_element rest,
    let name := ET.get_default topic_element "name" "*" in
    let inside :=
      Loader.parse_categories ET_tostring self
        (ET.findall topic_element "category") name in
    ET.tag topic_element = "topic" ->
    ET.tag category_element = "category" ->
    Loader.find category_element "pattern" <> None ->
    Loader.find category_element "template" <> None ->
    exists c later,
      categories
        (Loader.load_elements ET_tostring self current_topic
           (topic_element :: category_element :: rest))
      = (categories inside ++ c :: later)%list
      /\ pattern c
         = Py.strip (Py.upper
                       (Loader._get_text (Loader.find category_element "pattern")))
      /\ topic c = Some name
      /\ (forall e, eligible e c = true -> name = "*" \/ self_topic e = name).
Proof.
  intros self current_topic topic_element category_element rest name inside
    Htopic Hcategory Hpattern Htemplate.
  simpl. rewrite Htopic. cbn [String.eqb Ascii.eqb Bool.eqb].
  assert (Hnot : String.eqb (ET.tag category_element) "topic" = false)
    by now rewrite Hcategory.
  rewrite Hnot, Hcategory. cbn [String.eqb Ascii.eqb Bool.eqb].
  fold name. fold inside.
  destruct (_parse_category_cases inside category_element name)
    as [Hsame|(c & Hload & _ & Htopic_c & Hpattern_c)].
  { exfalso. unfold Loader._parse_category in Hsame.
    destruct (Loader.find category_element "pattern"); [|contradiction].
    destruct (Loader.find category_element "template"); [|contradiction].
    apply (f_equal (fun e => List.length (categories e))) in Hsame.
    simpl in Hsame. rewrite length_app in Hsame. simpl in Hsame. lia. }
  destruct (load_elements_loads rest
              (Loader._parse_category ET_tostring inside category_element name)
              name) as (later & (Hlater & _) & _).
  exists c, later. split; [|split; [|split]]; auto.
  - rewrite Hlater. destruct Hload as [-> _]. now rewrite <- app_assoc.
  - intros e He. unfold eligible in He. apply andb_true_iff in He as [He _].
    apply negb_true_iff in He. unfold topic_differs in He. rewrite Htopic_c in He.
    apply andb_false_iff in He as [He|He]; apply negb_false_iff in He;
      simpl in He; apply String.eqb_eq in He; auto.
Qed.

End Loaded.

Lemma topic_outlives_its_element_witness :
  exists c later,
    categories
      (Loader.load_elements example_tostring (fresh_engine []) "*"
         (ET.children topic_file))
    = (categories
         (Loader.parse_categories example_tostring (fresh_engine [])
            [greeting_element "hi"] "devops")
       ++ c :: later)%list
    /\ pattern c = "HEY"
    /\ topic c = Some "devops"
    /\ (forall e, eligible e c = true -> "devops" = "*" \/ self_topic e = "devops").
Proof.
  apply (@topic_outlives_its_element example_tostring (fresh_engine []) "*"
           (ET.Elem "topic" [("name", "devops")] None [greeting_element "hi"] None)
           (greeting_element "hey") []).
  - reflexivity.
  - reflexivity.
  - discriminate.
  - discriminate.
Defined.

(* ------------------------------------------------------------------ *)
(** ** The branches of a condition *)

Lemma condition_loop_skips :
  forall name skipped rest output st,
    Forall (fun d => li_passes name (variables (self st)) (fst d) = false) skipped ->
    condition_loop name (skipped ++ rest)%list output st
    = condition_loop name rest output st.
Proof.
  intros name skipped rest output st H.
  induction H as [|[li run_li] skipped Hli _ IH]; [reflexivity|].
  simpl. unfold bind at 1. unfold read. simpl in Hli. unfold li_passes in Hli.
  rewrite Hli. exact IH.
Qed.

Section Branches.

Variable json_loads : string -> Decoded.
Variable py_eval : string -> option string.

(** X20. In the form of [condition] that goes through the [li]
    children, the branches whose test fails are passed over, the first
    one whose test passes is evaluated and the loop ends there.  A branch
    without a [value] attribute passes every time, so the branches after
    it are never reached; when every test fails nothing is put out. *)
Theorem condition_first_passing_branch :
  forall respond_rec found child run_child run_kids output st skipped,
    Py.lower (ET.tag child) = "condition" ->
    ET.truthy (ET.get child "name") && ET.truthy (ET.get child "value") = false ->
    Forall (fun d => li_passes (ET.get child "name") (variables (self st)) (fst d)
                     = false) skipped ->
    (forall li run_li rest,
        li_runs run_kids = (skipped ++ (li, run_li) :: rest)%list ->
        li_passes (ET.get child "name") (variables (self st)) li = true ->
        process_tag json_loads py_eval respond_rec found child run_child run_kids
          output st
        = bind run_li (fun v => ret (output ++ [v])%list) st)
    /\ (li_runs run_kids = skipped ->
        process_tag json_loads py_eval respond_rec found child run_child run_kids
          output st
        = Ok (output, st))
    /\ (forall li vars,
          ET.get li "value" = None ->
          li_passes (ET.get child "name") vars li = true).
Proof.
  intros respond_rec found child run_child run_kids output st skipped
    Htag Hform Hskipped.
  assert (Hloop : process_tag json_loads py_eval respond_rec found child run_child
                    run_kids output
                  = condition_loop (ET.get child "name") (li_runs run_kids) output).
  { unfold process_tag. rewrite Htag. cbn [String.eqb Ascii.eqb Bool.eqb].
    now rewrite Hform. }
  split; [|split].
  - intros li run_li rest Hkids Hli. rewrite Hloop, Hkids.
    rewrite condition_loop_skips by assumption.
    simpl. unfold bind at 1. unfold read. unfold li_passes in Hli.
    now rewrite Hli.
  - intros Hkids. rewrite Hloop, Hkids.
    rewrite <- (app_nil_r skipped). now rewrite condition_loop_skips.
  - intros li vars Hvalue. unfold li_passes. now rewrite Hvalue.
Qed.

End Branches.

Lemma condition_first_passing_branch_witness :
  let run := fun li => _process_element example_loads example_eval (example_respond 0) li [] in
  let run_kids := map (fun li => (li, run li)) branches in
  (forall li run_li rest,
      li_runs run_kids
      = ([(nth 0 branches branching, run (nth 0 branches branching))]
           ++ (li, run_li) :: rest)%list ->
      li_passes (ET.get branching "name") (variables (self example_frame)) li = true ->
      process_tag example_loads example_eval (example_respond 0) [] branching
        (run branching) run_kids [] example_frame
      = bind run_li (fun v => ret ([] ++ [v])%list) example_frame)
  /\ (li_runs run_kids
      = [(nth 0 branches branching, run (nth 0 branches branching))] ->
      process_tag example_loads example_eval (example_respond 0) [] branching
        (run branching) run_kids [] example_frame
      = Ok ([], example_frame))
  /\ (forall li vars,
        ET.get li "value" = None ->
        li_passes (ET.get branching "name") vars li = true).
Proof.
  intros run run_kids.
  apply (@condition_first_passing_branch example_loads example_eval
           (example_respond 0) [] branching (run branching) run_kids []
           example_frame
           [(nth 0 branches branching, run (nth 0 branches branching))]).
  - reflexivity.
  - reflexivity.
  - repeat constructor.
Defined.

(* ------------------------------------------------------------------ *)
(** ** The text of a result *)

Lemma drop_while_clean :
  forall s, clean_head (Py.drop_while Py.isspace s).
Proof.
  induction s as [|c s IH]; simpl; [exact I|].
  destruct (Py.isspace c) eqn:E; [exact IH | exact E].
Qed.

Lemma drop_while_fixed :
  forall s, clean_head s -> Py.drop_while Py.isspace s = s.
Proof.
  intros [|c s] H; [reflexivity|]. simpl in *. now rewrite H.
Qed.

Lemma drop_while_suffix :
  forall s, exists dropped, s = (dropped ++ Py.drop_while Py.isspace s)%list.
Proof.
  induction s as [|c s [dropped IH]]; simpl.
  - exists []. reflexivity.
  - destruct (Py.isspace c).
    + exists (c :: dropped). simpl. now rewrite <- IH.
    + exists []. reflexivity.
Qed.

Lemma clean_head_app :
  forall a b, a <> [] -> clean_head (a ++ b)%list -> clean_head a.
Proof. intros [|c a] b Hne H; [contradiction | exact H]. Qed.

(** What [strip] returns has no white space at either end. *)
Lemma strip_chars_clean :
  forall s,
    clean_head (Py.strip_chars s) /\ clean_head (rev (Py.strip_chars s)).
Proof.
  intros s. unfold Py.strip_chars, Py.strip_by.
  set (front := Py.drop_while Py.isspace s).
  set (back := Py.drop_while Py.isspace (rev front)).
  rewrite rev_involutive. split; [|apply drop_while_clean].
  destruct (drop_while_suffix (rev front)) as [dropped Hd]. fold back in Hd.
  apply (f_equal (@rev ascii)) in Hd. rewrite rev_involutive, rev_app_distr in Hd.
  destruct back as [|c back]; [exact I|].
  apply clean_head_app with (b := rev dropped).
  - intros E. apply (f_equal (@List.length ascii)) in E.
    rewrite length_rev in E. discriminate.
  - rewrite <- Hd. apply drop_while_clean.
Qed.

Lemma strip_chars_idem :
  forall s, Py.strip_chars (Py.strip_chars s) = Py.strip_chars s.
Proof.
  intros s. destruct (strip_chars_clean s) as [Hfront Hback].
  unfold Py.strip_chars at 1. unfold Py.strip_by.
  rewrite (drop_while_fixed _ Hfront), (drop_while_fixed _ Hback).
  apply rev_involutive.
Qed.

Lemma strip_stripped : forall s, stripped (Py.strip s).
Proof.
  intros s. unfold stripped, Py.strip. rewrite of_to_str.
  now rewrite strip_chars_idem.
Qed.

Lemma _process_element_stripped :
  forall json_loads py_eval respond_rec element found st v st',
    _process_element json_loads py_eval respond_rec element found st = Ok (v, st') ->
    stripped v.
Proof.
  intros json_loads py_eval respond_rec [t a x kids tl] found st v st'.
  simpl. generalize (initial_output (ET.Elem t a x kids tl)). revert st.
  induction kids as [|child kids IH]; intros st output H.
  - injection H as <- _. apply strip_stripped.
  - unfold bind in H.
    destruct (process_child _ _ _ _ _ _ _ _ _) as [[output' st1]|e];
      [|discriminate].
    apply (IH _ _ H).
Qed.

(** X21. The text of the result of a template that parses has no white
    space at either end, whatever the template holds; so has every text
    that [srai], [set] and the other tags get from their bodies.  Only a
    template that does not parse comes back as written. *)
Theorem result_text_is_stripped :
  forall ET_fromstring json_loads py_eval respond_rec w template found root r w',
    ET_fromstring template = Some root ->
    _process_template ET_fromstring json_loads py_eval respond_rec w template found
    = Ok (r, w') ->
    stripped (text r)
    /\ (forall element st v st',
          _process_element json_loads py_eval respond_rec element found st
          = Ok (v, st') ->
          stripped v).
Proof.
  intros ET_fromstring json_loads py_eval respond_rec w template found root r w'
    Hparse H.
  split; [|intros element st v st'; apply _process_element_stripped].
  unfold _process_template in H. rewrite Hparse in H.
  destruct (_process_element _ _ _ _ _ _) as [[v st]|e] eqn:E; [|discriminate].
  injection H as <- _. simpl. eapply _process_element_stripped, E.
Qed.

Lemma result_text_is_stripped_witness :
  stripped (text (text_only "Deploying."))
  /\ (forall element st v st',
        _process_element example_loads example_eval
          (respond forward_fromstring example_loads example_eval 5) element [] st
        = Ok (v, st') ->
        stripped v).
Proof.
  apply (@result_text_is_stripped forward_fromstring example_loads example_eval
           (respond forward_fromstring example_loads example_eval 5)
           (example_world [forward_category; deploy_category])
           forward_template [] forward_tree
           (text_only "Deploying.")
           (mkWorld
              (mkAIMLEngine [forward_category; deploy_category] [] "*" "DEPLOYING."
                 [("DEPLOY", "Deploying.")])
              [])).
  - reflexivity.
  - vm_compute. reflexivity.
Defined.

(* ------------------------------------------------------------------ *)
(** ** The options of a choice *)

Lemma piped_options_shape :
  forall fields,
    Forall (fun c => value c = Py.lower (label c)
                     /\ label c <> ""
                     /\ stripped (label c))
      (piped_options fields).
Proof.
  induction fields as [|opt rest IH]; simpl; [constructor|].
  destruct (Py.strip opt) eqn:E; [exact IH|].
  constructor; [|exact IH]. simpl. repeat split.
  - discriminate.
  - rewrite <- E. apply strip_stripped.
Qed.

(** X22. The options of a [choice] tag.  With [option] children there
    is one option per child, in their order, and the text between bars is
    not looked at.  Without them the options are the fields between the
    bars of the text of the tag: each has a label that is not empty and
    has no white space around it, and the lower-cased label as its
    value. *)
Theorem choice_options_shape :
  forall child,
    (ET.findall child "option" <> [] ->
     choice_options child
     = map (fun option =>
              mkChoice (ET.get_default option "value" "") (ET.itertext option))
         (ET.findall child "option"))
    /\ (ET.findall child "option" = [] ->
        Forall (fun c => value c = Py.lower (label c)
                         /\ label c <> ""
                         /\ stripped (label c))
          (choice_options child)).
Proof.
  intros child. unfold choice_options. split.
  - intros H. destruct (ET.findall child "option"); [contradiction | reflexivity].
  - intros ->. simpl. apply piped_options_shape.
Qed.

(* ------------------------------------------------------------------ *)
(** ** Attributes without markup *)

Lemma replace_chars_absent :
  forall first old new s,
    ~ In first s ->
    Py.replace_chars 0 (first :: old) new s = s.
Proof.
  intros first old new. induction s as [|c s IH]; intros H; [reflexivity|].
  simpl. destruct (Ascii.eqb first c) eqn:E.
  - apply Ascii.eqb_eq in E. subst c. exfalso. apply H. now left.
  - rewrite IH; [reflexivity|]. intros Hin. apply H. now right.
Qed.

Lemma replace_absent :
  forall first old new s,
    ~ In first (Py.of_str s) ->
    Py.replace s (String first old) new = s.
Proof.
  intros first old new s H. unfold Py.replace.
  change (Py.of_str (String first old)) with (first :: Py.of_str old).
  rewrite replace_chars_absent by assumption. apply to_of_str.
Qed.

(** X23. The loops of [action] and [learn-action] over the captured
    spans only touch the markup of a [star] tag written out in the
    attribute: an [inputs] or [pattern] attribute without the character
    [<] comes out of them as it went in, whatever was captured. *)
Theorem star_loops_need_markup :
  forall attribute all_stars captured i,
    ~ In "<"%char (Py.of_str attribute) ->
    substitute_stars all_stars i captured attribute = attribute
    /\ generalize_stars i captured attribute = attribute.
Proof.
  intros attribute all_stars captured i H.
  assert (Href : forall n, exists tail, star_ref n = String "<" tail)
    by (intros n; eexists; reflexivity).
  split.
  - revert i. induction captured as [|star rest IH]; intros i; [reflexivity|].
    cbn [substitute_stars]. destruct (Href i) as [tail ->].
    rewrite (@replace_absent _ _ _ attribute) by assumption.
    rewrite (@replace_absent _ _ _ attribute) by assumption. apply IH.
  - revert i. induction captured as [|star rest IH]; intros i; [reflexivity|].
    cbn [generalize_stars]. destruct (Href i) as [tail ->].
    rewrite (@replace_absent _ _ _ attribute) by assumption. apply IH.
Qed.

Lemma star_loops_need_markup_witness :
  substitute_stars ["ALICE"; "PROD"] 0 ["ALICE"; "PROD"] "{count: 3}" = "{count: 3}"
  /\ generalize_stars 0 ["ALICE"; "PROD"] "{count: 3}" = "{count: 3}".
Proof.
  apply (@star_loops_need_markup "{count: 3}" ["ALICE"; "PROD"] ["ALICE"; "PROD"] 0).
  vm_compute. intuition discriminate.
Defined.
